(** * The programmable-transaction builder of the TypeScript SDK

    A shallow embedding of [sdk/typescript/src/builder/Transaction.ts]:
    the append-only builder state, the result reference handed out by
    [add], the build pipeline (validation, gas price, well-known
    encoding, Move-call resolution, object resolution, assembly) and the
    snapshot pair [serialize] / [from].

    Conventions.
    - A thrown [Error] is an [Err e] result; the mutable private fields of
      the builder are threaded explicitly, and a throw keeps the mutations
      made before it, as in JavaScript.
    - An input object is identified by its position in [#inputs]: the
      source keeps references to the input objects themselves, and inside
      one builder every position holds a distinct object.
    - JavaScript numbers that are list positions are [nat]; other integers
      are [Z]. Non-integral numbers are outside the model.
    - A JSON text is the value it denotes, a [Json]; the text of a value
      whose shape Commands.ts or the types module defines is a
      parameter. *)

From Stdlib Require Import ZArith String Ascii List Bool Lia.
From Stdlib.Strings Require Import Byte.
From Stdlib Require Import DecimalString DecimalNat DecimalPos DecimalZ.
From stdpp Require Import base option list gmap.

Local Open Scope string_scope.
Local Open Scope list_scope.

(** ** Results of fallible code *)

(** The failures the source raises, by the statement that raises them. *)
Inductive Error :=
| MissingGasBudget            (* 'Missing gas budget' *)
| MissingGasPayment           (* 'Missing gas payment' *)
| MissingTransactionSender    (* 'Missing transaction sender' *)
| NoProvider                  (* expectProvider: 'No provider passed to Transaction#build ...' *)
| MissingInput                (* encodeInput: `Missing input ...` *)
| UnexpectedInputFormat       (* encodeInput: 'Unexpected input format.' *)
| IncorrectNumberOfArguments  (* 'Incorrect number of arguments.' *)
| ExpectObjectIdString        (* 'Expect the argument to be an object id string, got ...' *)
| UnknownCallArgType          (* 'Unknown call arg type ...' *)
| AllInputValuesMustBeProvided (* serialize: 'All input values must be provided before serializing.' *)
| FromBytesUnsupported        (* from: 'from() does not yet support bytes' *)
| ProxySetUnsupported         (* the proxy's set trap *)
| StructError                 (* a failed superstruct assert / create *)
| TypeError                   (* the runtime's TypeError: property of undefined, not a function,
                                 a BigInt or a cycle under JSON.stringify *)
| SyntaxError                 (* JSON.parse *)
| ExternalError (msg : string). (* whatever a collaborator throws *)

Inductive result (A : Type) :=
| Ok (a : A)
| Err (e : Error).
Arguments Ok {A} a.
Arguments Err {A} e.

Definition isOk {A} (r : result A) : bool :=
  match r with Ok _ => true | Err _ => false end.

(** What a call into a collaborator (the provider, the codec, the schema
    helpers) gives: a value, or whatever it throws. *)
Inductive external (A : Type) :=
| Returns (a : A)
| Throws (msg : string).
Arguments Returns {A} a.
Arguments Throws {A} msg.

Definition fromExternal {A} (x : external A) : result A :=
  match x with
  | Returns a => Ok a
  | Throws msg => Err (ExternalError msg)
  end.

(** ** Data model *)

(** [CommandArgument] of Commands.ts: the tagged argument of a command. *)
Inductive CommandArgument :=
| Input (index : nat)
| GasCoin
| Result (index : nat)
| NestedResult (index : nat) (resultIndex : nat).

(** [SuiObjectRef] of the types module. *)
Record SuiObjectRef := {
  ref_objectId : string;
  ref_version : Z;
  ref_digest : string
}.

Record SharedObjectRef := {
  objectId : string;
  initialSharedVersion : Z;
  mutable : bool
}.

Inductive ObjectArg :=
| ImmOrOwned (r : SuiObjectRef)
| Shared (r : SharedObjectRef).

(** Modelled from the spec: [BuilderCallArg] of Inputs.ts, the resolved
    value of an input, "a tagged call-arg: Pure-bytes | Owned-object-ref |
    Shared-object-ref". *)
Inductive BuilderCallArg :=
| Pure (bytes : list byte)
| Object (o : ObjectArg).

(** A value of an input that is not a [BuilderCallArg]: what the caller
    passed to [input] and what awaits resolution. [RObject] stands for any
    other object, in particular the wrapper [{Object: {ImmOrOwned:
    undefined}}]. *)
Inductive RawValue :=
| RUndefined
| RNull
| RBool (b : bool)
| RNumber (n : Z)
| RString (s : string)
| RObject.

(** The [value] of an input, split by [is(value, BuilderCallArg)]. *)
Inductive InputValue :=
| Unresolved (v : RawValue)
| Resolved (c : BuilderCallArg).

(** [is(value, BuilderCallArg)]. *)
Definition isBuilderCallArg (v : InputValue) : bool :=
  match v with Resolved _ => true | Unresolved _ => false end.

(** [typeof value === 'string']. *)
Definition isString (v : InputValue) : option string :=
  match v with Unresolved (RString s) => Some s | _ => None end.

(** [!!value]: JavaScript truthiness. *)
Definition truthy (v : InputValue) : bool :=
  match v with
  | Resolved _ => true
  | Unresolved RUndefined => false
  | Unresolved RNull => false
  | Unresolved (RBool b) => b
  | Unresolved (RNumber n) => negb (n =? 0)%Z
  | Unresolved (RString s) => negb (String.eqb s "")
  | Unresolved RObject => true
  end.

(** Truthiness of an optional string field ([!this.#sender] and the like). *)
Definition truthyString (o : option string) : bool :=
  match o with
  | Some s => negb (String.eqb s "")
  | None => false
  end.

(** [TransactionInput]: [{ kind: 'Input', index, value }]. *)
Record TransactionInput := {
  index : nat;
  value : InputValue
}.

(** ** Result references: [createTransactionResult] *)

Module TransactionResult.

(** The proxy: its target [baseResult = { kind: 'Result', index }] and the
    closure's array [nestedResults], a sparse array used as a map from
    positions to the values created so far. *)
Record t := {
  target_index : nat;
  nestedResults : gmap nat CommandArgument
}.

Definition baseResult (r : t) : CommandArgument := Result (target_index r).

Definition createTransactionResult (index : nat) : t :=
  {| target_index := index; nestedResults := ∅ |}.

(** [nestedResults[resultIndex] ??= { kind: 'NestedResult', index,
    resultIndex }]: the stored value when there is one, else a new value
    that is stored and returned. *)
Definition nestedResultFor (r : t) (resultIndex : nat) : CommandArgument * t :=
  match nestedResults r !! resultIndex with
  | Some a => (a, r)
  | None =>
      let a := NestedResult (target_index r) resultIndex in
      (a, {| target_index := target_index r;
             nestedResults := <[resultIndex := a]> (nestedResults r) |})
  end.

(** Property keys of a [get]. *)
Inductive Property :=
| SymbolIterator
| OtherSymbol
| Key (name : string).

(** [String(k)] for a position [k], the key of [result[k]]: the decimal
    digits of [k], as JavaScript prints the integers it holds exactly. *)
Definition indexKey (k : nat) : string :=
  NilEmpty.string_of_uint (Nat.to_uint k).

(** The digits at the start of a string, most significant first. *)
Fixpoint leadingDigits (s : string) : Decimal.uint :=
  match s with
  | String "0" s' => Decimal.D0 (leadingDigits s')
  | String "1" s' => Decimal.D1 (leadingDigits s')
  | String "2" s' => Decimal.D2 (leadingDigits s')
  | String "3" s' => Decimal.D3 (leadingDigits s')
  | String "4" s' => Decimal.D4 (leadingDigits s')
  | String "5" s' => Decimal.D5 (leadingDigits s')
  | String "6" s' => Decimal.D6 (leadingDigits s')
  | String "7" s' => Decimal.D7 (leadingDigits s')
  | String "8" s' => Decimal.D8 (leadingDigits s')
  | String "9" s' => Decimal.D9 (leadingDigits s')
  | _ => Decimal.Nil
  end.

Definition isWhiteSpace (c : ascii) : bool :=
  match c with
  | " " | "009" | "010" | "011" | "012" | "013" => true
  | _ => false
  end%char.

Fixpoint trimStart (s : string) : string :=
  match s with
  | String c s' => if isWhiteSpace c then trimStart s' else s
  | EmptyString => s
  end.

(** [parseInt(property, 10)]: leading white space, an optional sign, then
    the longest run of decimal digits; [None] is [NaN]. *)
Definition parseInt (s : string) : option Z :=
  let unsigned (s : string) : option Z :=
    match leadingDigits s with
    | Decimal.Nil => None
    | d => Some (Z.of_nat (Nat.of_uint d))
    end in
  match trimStart s with
  | String "-" s' => Z.opp <$> unsigned s'
  | String "+" s' => unsigned s'
  | s' => unsigned s'
  end.

(** What a [get] hands back. *)
Inductive Got :=
| GotUndefined
| GotString (s : string)
| GotNumber (n : nat)
| GotInherited                       (* a member of Object.prototype *)
| GotIterator
| GotArgument (a : CommandArgument).

(** The names [Object.prototype] defines: [property in target] holds for
    them as for the target's own [kind] and [index]. *)
Definition objectPrototypeKeys : list string :=
  [ "constructor"; "hasOwnProperty"; "isPrototypeOf"; "propertyIsEnumerable";
    "toLocaleString"; "toString"; "valueOf"; "__proto__";
    "__defineGetter__"; "__defineSetter__"; "__lookupGetter__";
    "__lookupSetter__" ].

Definition inList (s : string) (l : list string) : bool :=
  existsb (String.eqb s) l.

(** The [get] trap. *)
Definition get (r : t) (p : Property) : Got * t :=
  match p with
  | Key name =>
      if String.eqb name "kind" then (GotString "Result", r)
      else if String.eqb name "index" then (GotNumber (target_index r), r)
      else if inList name objectPrototypeKeys then (GotInherited, r)
      else
        match parseInt name with
        | None => (GotUndefined, r)
        | Some resultIndex =>
            if (resultIndex <? 0)%Z then (GotUndefined, r)
            else
              let '(a, r') := nestedResultFor r (Z.to_nat resultIndex) in
              (GotArgument a, r')
        end
  | SymbolIterator => (GotIterator, r)
  | OtherSymbol => (GotUndefined, r)
  end.

(** The [set] trap. *)
Definition set (r : t) (p : Property) (v : CommandArgument) : result unit :=
  Err ProxySetUnsupported.

(** The first [n] values of the generator behind [Symbol.iterator]:
    [nestedResultFor(0)], [nestedResultFor(1)], ... *)
Fixpoint iterateFrom (i n : nat) (r : t) : list CommandArgument * t :=
  match n with
  | O => ([], r)
  | S n' =>
      let '(a, r1) := nestedResultFor r i in
      let '(l, r2) := iterateFrom (S i) n' r1 in
      (a :: l, r2)
  end.

Definition destructure (n : nat) (r : t) : list CommandArgument * t :=
  iterateFrom 0 n r.

(** A reference after a sequence of reads. *)
Definition after (ps : list Property) (r : t) : t :=
  fold_left (fun r p => snd (get r p)) ps r.

(** The reference used in the singular form: the argument its [kind] and
    [index] properties spell. *)
Definition singular (r : t) : option CommandArgument :=
  match fst (get r (Key "kind")), fst (get r (Key "index")) with
  | GotString "Result", GotNumber i => Some (Result i)
  | _, _ => None
  end.

(** Every stored value is the nested result of its own position. *)
Definition memoOk (r : t) : Prop :=
  forall k a, nestedResults r !! k = Some a -> a = NestedResult (target_index r) k.

End TransactionResult.

(** ** Commands *)

(** [WellKnownEncoding] of utils.ts: the argument kind a command schema
    declares for a field. *)
Inductive WellKnownEncoding :=
| EncodingObject                    (* { kind: 'object' } *)
| EncodingPure (type : string).     (* { kind: 'pure', type } *)

(** The value of a command field: one argument, an array of arguments, or
    data that is no argument (module bytes, a type name). *)
Inductive FieldValue :=
| ArgumentValue (a : CommandArgument)
| ArgumentArray (l : list CommandArgument)
| DataValue (d : string).

(** [TransactionCommand]: the Move call, whose three fields the builder
    reads by name, and every other command as its [kind] (which is not
    ['MoveCall']) and its other fields in the order of [Object.entries]. *)
Inductive TransactionCommand :=
| MoveCall (target : string) (typeArguments : list string)
           (arguments : list CommandArgument)
| Command (kind : string) (fields : list (string * FieldValue)).

(** What the schema of a command says about one field:
    [keySchema.type === 'array'] and the [COMMAND_TYPE] entry. *)
Record KeySchema := {
  isArray : bool;
  wellKnownEncoding : option WellKnownEncoding
}.

(** ** Builder state *)

Record GasConfig := {
  budget : option string;
  price : option string;
  payment : option (list SuiObjectRef);
  owner : option string
}.

(** [optional(nullable(object({ Epoch: integer() })))]. *)
Inductive TransactionExpiration :=
| ExpirationUndefined
| ExpirationNull
| ExpirationEpoch (epoch : Z).

(** The private fields of a [Transaction]. *)
Record Transaction := {
  sender : option string;
  expiration : TransactionExpiration;
  gasConfig : GasConfig;
  inputs : list TransactionInput;
  commands : list TransactionCommand
}.

(** [new Transaction()]. *)
Definition emptyGasConfig : GasConfig :=
  {| budget := None; price := None; payment := None; owner := None |}.

Definition newTransaction : Transaction :=
  {| sender := None; expiration := ExpirationUndefined;
     gasConfig := emptyGasConfig; inputs := []; commands := [] |}.

(** [String(n)] for an integer. *)
Definition stringOfZ (n : Z) : string :=
  NilEmpty.string_of_int (Z.to_int n).

Definition setSender (s : string) (tx : Transaction) : Transaction :=
  {| sender := Some s; expiration := expiration tx; gasConfig := gasConfig tx;
     inputs := inputs tx; commands := commands tx |}.

Definition setExpiration (e : TransactionExpiration) (tx : Transaction) : Transaction :=
  {| sender := sender tx; expiration := e; gasConfig := gasConfig tx;
     inputs := inputs tx; commands := commands tx |}.

Definition withGasConfig (g : GasConfig) (tx : Transaction) : Transaction :=
  {| sender := sender tx; expiration := expiration tx; gasConfig := g;
     inputs := inputs tx; commands := commands tx |}.

Definition withPrice (p : string) (g : GasConfig) : GasConfig :=
  {| budget := budget g; price := Some p; payment := payment g; owner := owner g |}.

Definition setGasPrice (p : Z) (tx : Transaction) : Transaction :=
  withGasConfig (withPrice (stringOfZ p) (gasConfig tx)) tx.

Definition setGasBudget (b : Z) (tx : Transaction) : Transaction :=
  withGasConfig
    {| budget := Some (stringOfZ b); price := price (gasConfig tx);
       payment := payment (gasConfig tx); owner := owner (gasConfig tx) |} tx.

Definition setGasPayment (p : list SuiObjectRef) (tx : Transaction) : Transaction :=
  withGasConfig
    {| budget := budget (gasConfig tx); price := price (gasConfig tx);
       payment := Some p; owner := owner (gasConfig tx) |} tx.

Definition withInputs (l : list TransactionInput) (tx : Transaction) : Transaction :=
  {| sender := sender tx; expiration := expiration tx; gasConfig := gasConfig tx;
     inputs := l; commands := commands tx |}.

(** The getter [gas]. *)
Definition gas : CommandArgument := GasCoin.

(** [input(value)]: the new input takes the current length as its index,
    is pushed and returned. *)
Definition input (v : InputValue) (tx : Transaction) : TransactionInput * Transaction :=
  let index := length (inputs tx) in
  let input := {| index := index; value := v |} in
  (input, withInputs (inputs tx ++ [input]) tx).

(** [add(command)]: [push] returns the new length, the reference is bound
    to that length minus one. *)
Definition add (c : TransactionCommand) (tx : Transaction)
  : TransactionResult.t * Transaction :=
  let commands' := commands tx ++ [c] in
  let index := length commands' in
  (TransactionResult.createTransactionResult (index - 1),
   {| sender := sender tx; expiration := expiration tx; gasConfig := gasConfig tx;
      inputs := inputs tx; commands := commands' |}).

(** [input.value = v] on the input object at position [pos]. *)
Definition setValue (v : InputValue) (i : TransactionInput) : TransactionInput :=
  {| index := index i; value := v |}.

Definition writeInput (pos : nat) (v : InputValue) (tx : Transaction) : Transaction :=
  withInputs (alter (setValue v) pos (inputs tx)) tx.

(** ** The build output *)

Record GasData := {
  gas_payment : list SuiObjectRef;
  gas_owner : string;
  gas_price : string;
  gas_budget : string
}.

(** [transactionData]: the expiration is [None] for [{ None: true }]. *)
Record TransactionData := {
  data_sender : string;
  data_expiration : option Z;
  data_gasData : GasData;
  data_inputs : list BuilderCallArg;
  data_commands : list TransactionCommand
}.

(** ** Collaborators

    Code the builder imports and this file does not contain: the command
    schemas, the serializer helpers, the BCS codec, the object helpers of
    the types module, and the provider. They are taken as parameters;
    [Param] is a normalized Move type, [ObjectData] one entry of an object
    batch. *)

Class Collaborators (Param ObjectData : Type) := {
  (** [getTransactionCommandType(command).schema], by field name; [None]
      when the command type has no schema. *)
  getTransactionCommandType :
    TransactionCommand -> external (option (string -> KeySchema));
  (** serializer.ts *)
  isTxContext : Param -> bool;
  getPureSerializationType : Param -> InputValue -> external (option string);
  (** types: [extractStructTag(param)], and
      [typeof param === 'object' && 'TypeParameter' in param]. *)
  extractStructTag : Param -> option string;
  isTypeParameter : Param -> bool;
  (** [builder.ser(type, data).toBytes()] *)
  serPure : string -> InputValue -> external (list byte);
  serTransactionData : TransactionData -> external (list byte);
  (** types *)
  getSharedObjectInitialVersion : ObjectData -> option Z;
  getObjectReference : ObjectData -> option SuiObjectRef;
  (** [BigInt(val)] does not throw. *)
  isBigIntString : string -> bool
}.

(** The provider. [getNormalizedMoveFunction] is keyed by the target
    [package::module::function] of the call, which the source splits and
    normalizes before it asks. *)
Record Provider (Param ObjectData : Type) := {
  getReferenceGasPrice : external Z;
  getNormalizedMoveFunction : string -> external (list Param);
  getObjectBatch : list string -> external (list ObjectData)
}.
Arguments getReferenceGasPrice {Param ObjectData} p.
Arguments getNormalizedMoveFunction {Param ObjectData} p target.
Arguments getObjectBatch {Param ObjectData} p ids.

(** A request made to the provider. *)
Inductive ProviderCall :=
| CallGetReferenceGasPrice
| CallGetNormalizedMoveFunction (target : string)
| CallGetObjectBatch (ids : list string).

(** ** The state a build runs in

    The builder, the requests made so far (oldest first), and the two
    local queues of [build]. An entry of [objectsToResolve] is the
    identifier and the position of the input object it came from. *)
Record BuildState := {
  tx : Transaction;
  calls : list ProviderCall;
  moveModulesToResolve : list (string * list CommandArgument);
  objectsToResolve : list (string * nat)
}.

Definition startBuild (t : Transaction) : BuildState :=
  {| tx := t; calls := []; moveModulesToResolve := []; objectsToResolve := [] |}.

(** State and failure: a failure keeps the state reached. *)
Definition M (A : Type) : Type := BuildState -> result A * BuildState.

Definition ret {A} (a : A) : M A := fun s => (Ok a, s).

Definition bind {A B} (m : M A) (k : A -> M B) : M B :=
  fun s =>
    match m s with
    | (Ok a, s') => k a s'
    | (Err e, s') => (Err e, s')
    end.

Definition throw {A} (e : Error) : M A := fun s => (Err e, s).

Notation "'let*' x ':=' c 'in' k" := (bind c (fun x => k))
  (at level 10, x name, c at level 100, k at level 200).
Notation "c ';;' k" := (bind c (fun _ => k))
  (at level 100, k at level 200, right associativity).

Definition liftResult {A} (r : result A) : M A :=
  match r with
  | Ok a => ret a
  | Err e => throw e
  end.

(** A call into a collaborator, [await]ed or not. *)
Definition call {A} (x : external A) : M A := liftResult (fromExternal x).

Definition getTx : M Transaction := fun s => (Ok (tx s), s).

Definition modifyTx (f : Transaction -> Transaction) : M unit :=
  fun s => (Ok tt, {| tx := f (tx s); calls := calls s;
                      moveModulesToResolve := moveModulesToResolve s;
                      objectsToResolve := objectsToResolve s |}).

Definition logCall (c : ProviderCall) : M unit :=
  fun s => (Ok tt, {| tx := tx s; calls := calls s ++ [c];
                      moveModulesToResolve := moveModulesToResolve s;
                      objectsToResolve := objectsToResolve s |}).

Definition pushMoveModule (target : string) (args : list CommandArgument) : M unit :=
  fun s => (Ok tt, {| tx := tx s; calls := calls s;
                      moveModulesToResolve := moveModulesToResolve s ++ [(target, args)];
                      objectsToResolve := objectsToResolve s |}).

Definition pushObject (id : string) (pos : nat) : M unit :=
  fun s => (Ok tt, {| tx := tx s; calls := calls s;
                      moveModulesToResolve := moveModulesToResolve s;
                      objectsToResolve := objectsToResolve s ++ [(id, pos)] |}).

(** [list.forEach(f)] *)
Fixpoint forEach {A} (f : A -> M unit) (l : list A) : M unit :=
  match l with
  | [] => ret tt
  | a :: l' => f a ;; forEach f l'
  end.

(** [list.forEach((a, i) => f(i, a))], counting from [i]. *)
Fixpoint forEachFrom {A} (i : nat) (f : nat -> A -> M unit) (l : list A) : M unit :=
  match l with
  | [] => ret tt
  | a :: l' => f i a ;; forEachFrom (S i) f l'
  end.

(** [expectProvider(provider)] *)
Definition expectProvider {P : Type} (provider : option P) : M P :=
  match provider with
  | Some p => ret p
  | None => throw NoProvider
  end.

Section Build.

Context {Param ObjectData : Type} `{Collaborators Param ObjectData}.

(** Modelled from the spec: [Inputs.Pure(type, data)] of Inputs.ts,
    "encode the raw value into type-tagged pure bytes per the declared
    value type": the bytes the codec gives, tagged [Pure]. *)
Definition InputsPure (type : string) (data : InputValue) : result InputValue :=
  match fromExternal (serPure type data) with
  | Ok bytes => Ok (Resolved (Pure bytes))
  | Err e => Err e
  end.

(** Modelled from the spec: [Inputs.SharedObjectRef(ref)] of Inputs.ts,
    "a shared-object-ref carrying its initial shared version and a
    mutability flag". *)
Definition InputsSharedObjectRef (r : SharedObjectRef) : InputValue :=
  Resolved (Object (Shared r)).

(** Modelled from the spec: [Inputs.ObjectRef(ref)] of Inputs.ts, "an
    owned-object-ref carrying id, version, digest". The source passes
    [getObjectReference(object)!]; around [undefined] the wrapper is an
    object that is no call arg. *)
Definition InputsObjectRef (r : option SuiObjectRef) : InputValue :=
  match r with
  | Some ref => Resolved (Object (ImmOrOwned ref))
  | None => Unresolved RObject
  end.

(** *** Stage 1: required fields *)

Definition validate : M unit :=
  let* t := getTx in
  if negb (truthyString (budget (gasConfig t))) then throw MissingGasBudget
  else if negb (bool_decide (is_Some (payment (gasConfig t)))) then
    throw MissingGasPayment
  else if negb (truthyString (sender t)) then throw MissingTransactionSender
  else ret tt.

(** *** Stage 2: the gas price *)

Definition fillGasPrice (provider : option (Provider Param ObjectData)) : M unit :=
  let* t := getTx in
  if negb (truthyString (price (gasConfig t))) then
    let* p := expectProvider provider in
    logCall CallGetReferenceGasPrice ;;
    let* price := call (getReferenceGasPrice p) in
    modifyTx (fun t => withGasConfig (withPrice (stringOfZ price) (gasConfig t)) t)
  else ret tt.

(** *** Stage 3: the scan of the commands *)

(** [command.arguments.some(arg => arg.kind === 'Input' &&
    !is(this.#inputs[arg.index].value, BuilderCallArg))]; reading [value]
    of a missing input is a TypeError. *)
Fixpoint needsResolution (ins : list TransactionInput)
    (args : list CommandArgument) : result bool :=
  match args with
  | [] => Ok false
  | Input i :: args' =>
      match ins !! i with
      | None => Err TypeError
      | Some inp =>
          if negb (isBuilderCallArg (value inp)) then Ok true
          else needsResolution ins args'
      end
  | _ :: args' => needsResolution ins args'
  end.

(** The closure [encodeInput] for a field of encoding [enc]. *)
Definition encodeInput (enc : WellKnownEncoding) (idx : nat) : M unit :=
  let* t := getTx in
  match inputs t !! idx with
  | None => throw MissingInput
  | Some inp =>
      if isBuilderCallArg (value inp) then ret tt
      else
        match enc, isString (value inp) with
        | EncodingObject, Some id => pushObject id idx
        | EncodingPure type, _ =>
            let* v := liftResult (InputsPure type (value inp)) in
            modifyTx (writeInput idx v)
        | EncodingObject, None => throw UnexpectedInputFormat
        end
  end.

(** One entry of [Object.entries(command)]; [schema] has an entry for
    every field of the command. A field the schema calls an array whose
    value is none fails in [value.forEach]; a value that is no argument
    has no [kind] equal to ['Input']. *)
Definition scanField (schema : string -> KeySchema)
    (entry : string * FieldValue) : M unit :=
  let '(key, v) := entry in
  if String.eqb key "kind" then ret tt
  else
    let keySchema := schema key in
    match wellKnownEncoding keySchema with
    | None => ret tt
    | Some enc =>
        if isArray keySchema then
          match v with
          | ArgumentArray items =>
              forEach (fun arrayItem =>
                         match arrayItem with
                         | Input i => encodeInput enc i
                         | _ => ret tt
                         end) items
          | _ => throw TypeError
          end
        else
          match v with
          | ArgumentValue (Input i) => encodeInput enc i
          | _ => ret tt
          end
    end.

Definition scanCommand (command : TransactionCommand) : M unit :=
  match command with
  | MoveCall target _ args =>
      let* t := getTx in
      let* needs := liftResult (needsResolution (inputs t) args) in
      if needs then pushMoveModule target args else ret tt
  | Command _ fields =>
      let* commandType := call (getTransactionCommandType command) in
      match commandType with
      | None => ret tt
      | Some schema => forEach (scanField schema) fields
      end
  end.

Definition scanCommands : M unit :=
  let* t := getTx in
  forEach scanCommand (commands t).

(** *** Stage 4: Move calls *)

(** [is(this.#inputs[arg.index], BuilderCallArg)]: the test is made on
    the input object [{ kind: 'Input', index, value }] (or on
    [undefined]), which has neither a [Pure] nor an [Object] key and so
    never is a call arg. *)
Definition inputIsBuilderCallArg (i : option TransactionInput) : bool := false.

(** The parameters the caller supplies: all but a trailing [TxContext]. *)
Definition suppliedParameters (parameters : list Param) : list Param :=
  let hasTxContext :=
    (0 <? length parameters)%nat &&
    match last parameters with
    | Some p => isTxContext p
    | None => false
    end in
  if hasTxContext then take (length parameters - 1) parameters
  else parameters.

(** The body of [params.forEach((param, i) => ...)] for the argument at
    the position of [param]. *)
Definition resolveParameter (param : Param) (arg : option CommandArgument) : M unit :=
  match arg with
  | Some (Input idx) =>
      let* t := getTx in
      if inputIsBuilderCallArg (inputs t !! idx) then ret tt
      else
        match inputs t !! idx with
        | None => throw TypeError
        | Some inp =>
            let inputValue := value inp in
            let* serType := call (getPureSerializationType param inputValue) in
            if truthyString serType then
              let* v := liftResult (InputsPure (default "" serType) inputValue) in
              modifyTx (writeInput idx v)
            else if bool_decide (is_Some (extractStructTag param))
                    || isTypeParameter param then
              match isString inputValue with
              | None => throw ExpectObjectIdString
              | Some id => pushObject id idx
              end
            else throw UnknownCallArgType
        end
  | Some _ => ret tt
  | None => throw TypeError
  end.

(** The callback of [moveModulesToResolve.map] once the signature is
    there. *)
Definition resolveMoveCall (parameters : list Param)
    (args : list CommandArgument) : M unit :=
  let params := suppliedParameters parameters in
  if negb (length params =? length args)%nat then throw IncorrectNumberOfArguments
  else forEachFrom 0 (fun i param => resolveParameter param (args !! i)) params.

(** Every callback asks for its signature when [map] starts it; the
    bodies then run one after the other, here in the order of the queue,
    and the first failure is the failure of [Promise.all]. What the bodies
    still to run would write after that failure is not in the state
    returned. *)
Definition resolveMoveCalls (provider : option (Provider Param ObjectData)) : M unit :=
  fun s =>
    match moveModulesToResolve s with
    | [] => ret tt s
    | queue =>
        (let* p := expectProvider provider in
         forEach (fun mc => logCall (CallGetNormalizedMoveFunction (fst mc))) queue ;;
         forEach (fun mc =>
                    let* normalized := call (getNormalizedMoveFunction p (fst mc)) in
                    resolveMoveCall normalized (snd mc)) queue) s
    end.

(** *** Stage 5: objects *)

(** What [objects.forEach] writes for the identifier [id] and its
    [object]: [if (initialSharedVersion)] is the truthiness of a number. *)
Definition objectValue (id : string) (object : ObjectData) : InputValue :=
  match getSharedObjectInitialVersion object with
  | Some v =>
      if negb (v =? 0)%Z then
        InputsSharedObjectRef
          {| objectId := id; initialSharedVersion := v; mutable := true |}
      else InputsObjectRef (getObjectReference object)
  | None => InputsObjectRef (getObjectReference object)
  end.

(** [objects.forEach((object, i) => ...)] from position [i] on;
    destructuring [objectsToResolve[i]] past the queue is a TypeError. *)
Definition writeObject (queue : list (string * nat)) (i : nat)
    (object : ObjectData) : M unit :=
  match queue !! i with
  | None => throw TypeError
  | Some (id, pos) => modifyTx (writeInput pos (objectValue id object))
  end.

Definition resolveObjects (provider : option (Provider Param ObjectData)) : M unit :=
  fun s =>
    match objectsToResolve s with
    | [] => ret tt s
    | queue =>
        (let* p := expectProvider provider in
         logCall (CallGetObjectBatch (map fst queue)) ;;
         let* objects := call (getObjectBatch p (map fst queue)) in
         forEachFrom 0 (writeObject queue) objects) s
    end.

(** *** Stages 6 and 7: the resolved inputs and the payload *)

(** [this.#inputs.map(input => { assert(input.value, BuilderCallArg);
    return input.value })] *)
Fixpoint resolvedInputs (ins : list TransactionInput) : result (list BuilderCallArg) :=
  match ins with
  | [] => Ok []
  | inp :: ins' =>
      match value inp with
      | Resolved c =>
          match resolvedInputs ins' with
          | Ok l => Ok (c :: l)
          | Err e => Err e
          end
      | Unresolved _ => Err StructError
      end
  end.

(** The object [transactionData]. Stages 1 and 2 have made sure that the
    sender, the payment, the price and the budget are there. *)
Definition transactionData (t : Transaction) (ins : list BuilderCallArg)
  : TransactionData :=
  {| data_sender := default "" (sender t);
     data_expiration :=
       match expiration t with
       | ExpirationEpoch e => Some e
       | _ => None
       end;
     data_gasData :=
       {| gas_payment := default [] (payment (gasConfig t));
          gas_owner :=
            match owner (gasConfig t) with
            | Some o => o
            | None => default "" (sender t)
            end;
          gas_price := default "" (price (gasConfig t));
          gas_budget := default "" (budget (gasConfig t)) |};
     data_inputs := ins;
     data_commands := commands t |}.

(** The payload of a builder: the assertion on every input, then the
    codec. *)
Definition payload (t : Transaction) : result (list byte) :=
  match resolvedInputs (inputs t) with
  | Ok ins => fromExternal (serTransactionData (transactionData t ins))
  | Err e => Err e
  end.

Definition assemble : M (list byte) :=
  let* t := getTx in
  liftResult (payload t).

(** *** [build] *)

Definition build (provider : option (Provider Param ObjectData)) : M (list byte) :=
  validate ;;
  fillGasPrice provider ;;
  scanCommands ;;
  resolveMoveCalls provider ;;
  resolveObjects provider ;;
  assemble.

(** A build of the builder [t]: the outcome, the builder afterwards and
    the requests made to the provider. *)
Definition runBuild (provider : option (Provider Param ObjectData))
    (t : Transaction) : result (list byte) * Transaction * list ProviderCall :=
  let '(r, s) := build provider (startBuild t) in
  (r, tx s, calls s).

End Build.

(** ** Snapshots: [serialize] and [from] *)

(** A value as [JSON.parse] gives it and as [JSON.stringify] takes it. A
    number is an integer, as everywhere in this model. An object is the
    list of its own properties; a read of a key takes the first entry
    with that key, and the order of the keys plays no part in what [from]
    reads. *)
#[local] Unset Elimination Schemes.
Inductive Json :=
| JNull
| JBool (b : bool)
| JNumber (n : Z)
| JString (s : string)
| JArray (l : list Json)
| JObject (fields : list (string * Json)).
#[local] Set Elimination Schemes.

(** [value[key]]: [None] is [undefined], the key is not there. *)
Definition getField (key : string) (fields : list (string * Json)) : option Json :=
  snd <$> List.find (fun entry => String.eqb (fst entry) key) fields.

(** Every key is one of the schema: a struct made by [object(schema)]
    refuses a value with any other key. *)
Definition knownKeys (keys : list string) (fields : list (string * Json)) : bool :=
  forallb (fun entry => TransactionResult.inList (fst entry) keys) fields.

(** A property in the text of an object: [JSON.stringify] leaves it out
    when its value is [undefined]. *)
Definition optionalField (key : string) (o : option Json) : list (string * Json) :=
  match o with
  | Some j => [(key, j)]
  | None => []
  end.

(** [array(S)] on a parsed value. *)
Definition asArray {A} (S : Json -> option A) (j : Json) : option (list A) :=
  match j with
  | JArray l => mapM S l
  | _ => None
  end.

(** [optional(string())] on a property of a parsed object. *)
Definition asOptionalString (o : option Json) : option (option string) :=
  match o with
  | None => Some None
  | Some (JString s) => Some (Some s)
  | Some _ => None
  end.

(** [TransactionExpiration] on a property of a parsed object:
    [optional(nullable(object({ Epoch: integer() })))]. *)
Definition asExpiration (o : option Json) : option TransactionExpiration :=
  match o with
  | None => Some ExpirationUndefined
  | Some JNull => Some ExpirationNull
  | Some (JObject fields) =>
      if knownKeys ["Epoch"] fields then
        match getField "Epoch" fields with
        | Some (JNumber epoch) => Some (ExpirationEpoch epoch)
        | _ => None
        end
      else None
  | Some _ => None
  end.

(** The text of an expiration; [None] is [undefined], which leaves no
    property. *)
Definition expirationJson (e : TransactionExpiration) : option Json :=
  match e with
  | ExpirationUndefined => None
  | ExpirationNull => Some JNull
  | ExpirationEpoch epoch => Some (JObject [("Epoch", JNumber epoch)])
  end.

(** [SerializedTransactionBuilder]: the object a snapshot is the JSON text
    of. *)
Record SerializedTransactionBuilder := {
  snapshot_version : Z;
  snapshot_sender : option string;
  snapshot_expiration : TransactionExpiration;
  snapshot_inputs : list TransactionInput;
  snapshot_commands : list TransactionCommand;
  snapshot_gasConfig : GasConfig
}.

(** What [from] may be given. A JSON text is represented by the value it
    denotes; what [JSON.stringify] loses or refuses is lost or refused
    where the value is made, in [stringify] below. *)
Inductive Serialized :=
| SerializedBytes (b : list byte)   (* a Uint8Array *)
| SerializedText (s : string)       (* a string that is no JSON text *)
| SerializedJSON (j : Json).        (* the JSON text of [j] *)

(** The structs [TransactionInput] and [TransactionCommand] of
    Commands.ts and [SuiObjectRef] of the types module, which the struct
    [SerializedTransactionBuilder] refers to, and the JSON text of the
    values they describe. Neither the structs nor the shape these values
    have as JavaScript objects is in the source of the builder; they are
    parameters. *)
Class SnapshotCollaborators := {
  (** [is(v, S)] on a value a builder holds. *)
  isTransactionInput : TransactionInput -> bool;
  isTransactionCommand : TransactionCommand -> bool;
  isSuiObjectRef : SuiObjectRef -> bool;
  (** [JSON.stringify] on such a value; [None] when it throws, as it does
      on a BigInt or on a cycle. *)
  inputJson : TransactionInput -> option Json;
  commandJson : TransactionCommand -> option Json;
  refJson : SuiObjectRef -> option Json;
  (** [is(v, S)] on a parsed value: [None] when the struct refuses it,
      else the value as data of this model. *)
  asTransactionInput : Json -> option TransactionInput;
  asTransactionCommand : Json -> option TransactionCommand;
  asSuiObjectRef : Json -> option SuiObjectRef
}.

Section Snapshot.

Context {Param ObjectData : Type} `{Collaborators Param ObjectData}
  `{SnapshotCollaborators}.

(** [optional(StringEncodedBigint)] on a field of a gas config. *)
Definition optionalBigInt (o : option string) : bool :=
  match o with
  | Some s => isBigIntString s
  | None => true
  end.

(** The two [StringEncodedBigint] fields of a gas config. *)
Definition gasStringsOk (g : GasConfig) : bool :=
  optionalBigInt (budget g) && optionalBigInt (price g).

(** [is(g, GasConfig)] on the gas config of a builder; [owner] is an
    optional string by its type. *)
Definition isGasConfig (g : GasConfig) : bool :=
  gasStringsOk g
  && match payment g with
     | Some refs => forallb isSuiObjectRef refs
     | None => true
     end.

(** [is(data, SerializedTransactionBuilder)] on the object [serialize]
    makes: [version: literal(1)], every input, every command, the gas
    config. The sender and the expiration are of their struct by their
    types. *)
Definition isSerializedTransactionBuilder (d : SerializedTransactionBuilder) : bool :=
  (snapshot_version d =? 1)%Z
  && forallb isTransactionInput (snapshot_inputs d)
  && forallb isTransactionCommand (snapshot_commands d)
  && isGasConfig (snapshot_gasConfig d).

(** [create(data, SerializedTransactionBuilder)] *)
Definition createSerializedTransactionBuilder (d : SerializedTransactionBuilder)
  : result SerializedTransactionBuilder :=
  if isSerializedTransactionBuilder d then Ok d else Err StructError.

(** The text of a gas config: the fields that are set. *)
Definition gasConfigJson (g : GasConfig) : option Json :=
  refs ← match payment g with
         | Some refs => Some <$> (JArray <$> mapM refJson refs)
         | None => Some None
         end;
  Some (JObject (optionalField "budget" (JString <$> budget g)
                 ++ optionalField "price" (JString <$> price g)
                 ++ optionalField "payment" refs
                 ++ optionalField "owner" (JString <$> owner g))).

(** [JSON.stringify(data)]: [None] when it throws a TypeError. *)
Definition stringify (d : SerializedTransactionBuilder) : option Json :=
  ins ← mapM inputJson (snapshot_inputs d);
  cs ← mapM commandJson (snapshot_commands d);
  g ← gasConfigJson (snapshot_gasConfig d);
  Some (JObject ([("version", JNumber (snapshot_version d))]
                 ++ optionalField "sender" (JString <$> snapshot_sender d)
                 ++ optionalField "expiration" (expirationJson (snapshot_expiration d))
                 ++ [("inputs", JArray ins); ("commands", JArray cs); ("gasConfig", g)])).

(** [serialize()]: [data] has the four fields the source lists; [sender]
    and [expiration] are not among them. *)
Definition serialize (t : Transaction) : result Serialized :=
  let allInputsProvided := forallb (fun input => truthy (value input)) (inputs t) in
  if negb allInputsProvided then Err AllInputValuesMustBeProvided
  else
    let data :=
      {| snapshot_version := 1;
         snapshot_sender := None;
         snapshot_expiration := ExpirationUndefined;
         snapshot_inputs := inputs t;
         snapshot_commands := commands t;
         snapshot_gasConfig := gasConfig t |} in
    match createSerializedTransactionBuilder data with
    | Ok d =>
        match stringify d with
        | Some j => Ok (SerializedJSON j)
        | None => Err TypeError
        end
    | Err e => Err e
    end.

(** [optional(StringEncodedBigint)] on a property of a parsed object. *)
Definition asOptionalBigInt (o : option Json) : option (option string) :=
  match o with
  | None => Some None
  | Some (JString s) => if isBigIntString s then Some (Some s) else None
  | Some _ => None
  end.

(** The struct [GasConfig] on a parsed value. *)
Definition asGasConfig (j : Json) : option GasConfig :=
  match j with
  | JObject fields =>
      if knownKeys ["budget"; "price"; "payment"; "owner"] fields then
        b ← asOptionalBigInt (getField "budget" fields);
        p ← asOptionalBigInt (getField "price" fields);
        refs ← match getField "payment" fields with
               | Some l => Some <$> asArray asSuiObjectRef l
               | None => Some None
               end;
        o ← asOptionalString (getField "owner" fields);
        Some {| budget := b; price := p; payment := refs; owner := o |}
      else None
  | _ => None
  end.

(** The struct [SerializedTransactionBuilder] on a parsed value. *)
Definition asSerializedTransactionBuilder (j : Json)
  : option SerializedTransactionBuilder :=
  match j with
  | JObject fields =>
      if knownKeys ["version"; "sender"; "expiration"; "inputs"; "commands"; "gasConfig"]
           fields
      then
        v ← match getField "version" fields with
            | Some (JNumber n) => if (n =? 1)%Z then Some n else None
            | _ => None
            end;
        s ← asOptionalString (getField "sender" fields);
        e ← asExpiration (getField "expiration" fields);
        ins ← getField "inputs" fields ≫= asArray asTransactionInput;
        cs ← getField "commands" fields ≫= asArray asTransactionCommand;
        g ← getField "gasConfig" fields ≫= asGasConfig;
        Some {| snapshot_version := v; snapshot_sender := s; snapshot_expiration := e;
                snapshot_inputs := ins; snapshot_commands := cs;
                snapshot_gasConfig := g |}
      else None
  | _ => None
  end.

(** [assert(parsed, SerializedTransactionBuilder)], and [parsed] as the
    data [from] reads its fields from. *)
Definition assertSerializedTransactionBuilder (parsed : Json)
  : result SerializedTransactionBuilder :=
  match asSerializedTransactionBuilder parsed with
  | Some d => Ok d
  | None => Err StructError
  end.

(** [Transaction.from(serialized)]. Of the JSON texts only that of an
    object starts with a brace. *)
Definition from (serialized : Serialized) : result Transaction :=
  match serialized with
  | SerializedBytes _ => Err FromBytesUnsupported
  | SerializedText s =>
      if String.prefix "{" s then Err SyntaxError else Err FromBytesUnsupported
  | SerializedJSON (JObject fields) =>
      match assertSerializedTransactionBuilder (JObject fields) with
      | Ok parsed =>
          Ok {| sender := snapshot_sender parsed;
                expiration := snapshot_expiration parsed;
                gasConfig := snapshot_gasConfig parsed;
                inputs := snapshot_inputs parsed;
                commands := snapshot_commands parsed |}
      | Err e => Err e
      end
  | SerializedJSON _ => Err FromBytesUnsupported
  end.

(** [restore(serialize(b))] *)
Definition restore (t : Transaction) : result Transaction :=
  match serialize t with
  | Ok s => from s
  | Err e => Err e
  end.

End Snapshot.

(** ** The synchronous operations of a builder, as data *)

Inductive Operation :=
| OpInput (v : InputValue)
| OpAdd (c : TransactionCommand)
| OpSetSender (s : string)
| OpSetExpiration (e : TransactionExpiration)
| OpSetGasPrice (p : Z)
| OpSetGasBudget (b : Z)
| OpSetGasPayment (p : list SuiObjectRef).

Definition perform (op : Operation) (t : Transaction) : Transaction :=
  match op with
  | OpInput v => snd (input v t)
  | OpAdd c => snd (add c t)
  | OpSetSender s => setSender s t
  | OpSetExpiration e => setExpiration e t
  | OpSetGasPrice p => setGasPrice p t
  | OpSetGasBudget b => setGasBudget b t
  | OpSetGasPayment p => setGasPayment p t
  end.

Definition performAll (ops : list Operation) (t : Transaction) : Transaction :=
  fold_left (fun t op => perform op t) ops t.

(** ** Stand-ins for the collaborators

    A small instance of the collaborators, used to run the builder on
    concrete transactions: five command schemas, a few Move types, a
    little-endian [u64], and a provider over a fixed table of objects.
    The string type is chosen from the parameter alone, and its encoder
    takes the text of whatever value it is given. *)

Module Fixture.

Inductive MoveType :=
| U64
| Address
| Utf8String
| Struct (tag : string)
| TypeParameter (n : nat)
| TxContext
| Signer.

(** One entry of an object batch. *)
Inductive ObjectResponse :=
| Exists (ref : SuiObjectRef) (initialSharedVersion : option Z)
| NotExists (id : string).

Definition objectField (array : bool) : KeySchema :=
  {| isArray := array; wellKnownEncoding := Some EncodingObject |}.
Definition pureField (type : string) : KeySchema :=
  {| isArray := false; wellKnownEncoding := Some (EncodingPure type) |}.
Definition plainField : KeySchema :=
  {| isArray := false; wellKnownEncoding := None |}.

Definition schemaOf (kind key : string) : KeySchema :=
  match kind, key with
  | "TransferObjects", "objects" => objectField true
  | "TransferObjects", "address" => pureField "address"
  | "SplitCoin", "coin" => objectField false
  | "SplitCoin", "amount" => pureField "u64"
  | "MergeCoins", "destination" => objectField false
  | "MergeCoins", "sources" => objectField true
  | "MakeMoveVec", "objects" => objectField true
  | _, _ => plainField
  end.

Definition commandType (c : TransactionCommand)
  : external (option (string -> KeySchema)) :=
  match c with
  | MoveCall _ _ _ => Returns None
  | Command kind _ =>
      if TransactionResult.inList kind
           ["TransferObjects"; "SplitCoin"; "MergeCoins"; "MakeMoveVec"; "Publish"]
      then Returns (Some (schemaOf kind))
      else Throws "unknown command"
  end.

Definition pureSerializationType (p : MoveType) (v : InputValue)
  : external (option string) :=
  match p, v with
  | U64, Unresolved (RNumber _) => Returns (Some "u64")
  | U64, _ => Throws "expected a number"
  | Address, Unresolved (RString _) => Returns (Some "address")
  | Address, _ => Throws "expected a string"
  | Utf8String, _ => Returns (Some "utf8string")
  | _, _ => Returns None
  end.

(** [String(value)] *)
Definition toText (v : InputValue) : string :=
  match v with
  | Unresolved RUndefined => "undefined"
  | Unresolved RNull => "null"
  | Unresolved (RBool b) => if b then "true" else "false"
  | Unresolved (RNumber n) => stringOfZ n
  | Unresolved (RString s) => s
  | Unresolved RObject => "[object Object]"
  | Resolved _ => "[object Object]"
  end.

Definition byteOfZ (z : Z) : byte :=
  default x00 (Byte.of_N (Z.to_N (z mod 256))).

Definition u64 (n : Z) : list byte :=
  map (fun i => byteOfZ (n / 256 ^ i)) [0; 1; 2; 3; 4; 5; 6; 7]%Z.

Definition pure (type : string) (v : InputValue) : external (list byte) :=
  match type, v with
  | "u64", Unresolved (RNumber n) =>
      if (0 <=? n)%Z && (n <? 2 ^ 64)%Z then Returns (u64 n)
      else Throws "u64 out of range"
  | "address", Unresolved (RString s) => Returns (list_byte_of_string s)
  | "utf8string", _ => Returns (list_byte_of_string (toText v))
  | _, _ => Throws "cannot encode"
  end.

Definition refBytes (r : SuiObjectRef) : list byte :=
  list_byte_of_string (ref_objectId r) ++ u64 (ref_version r)
    ++ list_byte_of_string (ref_digest r).

Definition callArgBytes (c : BuilderCallArg) : list byte :=
  match c with
  | Pure b => x00 :: byteOfZ (Z.of_nat (length b)) :: b
  | Object (ImmOrOwned r) => x01 :: x00 :: refBytes r
  | Object (Shared r) =>
      x01 :: x01 :: list_byte_of_string (objectId r)
        ++ u64 (initialSharedVersion r)
        ++ [if mutable r then x01 else x00]
  end.

Definition transactionDataBytes (d : TransactionData) : external (list byte) :=
  Returns (list_byte_of_string (data_sender d)
        ++ list_byte_of_string (gas_owner (data_gasData d))
        ++ list_byte_of_string (gas_price (data_gasData d))
        ++ list_byte_of_string (gas_budget (data_gasData d))
        ++ concat (map refBytes (gas_payment (data_gasData d)))
        ++ [byteOfZ (Z.of_nat (length (data_inputs d)))]
        ++ concat (map callArgBytes (data_inputs d))
        ++ [byteOfZ (Z.of_nat (length (data_commands d)))]).

Definition isDigit (c : ascii) : bool :=
  (48 <=? nat_of_ascii c)%nat && (nat_of_ascii c <=? 57)%nat.

Fixpoint allDigits (s : string) : bool :=
  match s with
  | EmptyString => true
  | String c s' => isDigit c && allDigits s'
  end.

(** [BigInt] accepts a run of digits, with a sign when the run is not
    empty. *)
Definition integerString (s : string) : bool :=
  match s with
  | String "-" s' | String "+" s' => negb (String.eqb s' "") && allDigits s'
  | _ => allDigits s
  end.

#[global] Instance collaborators : Collaborators MoveType ObjectResponse := {|
  getTransactionCommandType := commandType;
  isTxContext := fun p => match p with TxContext => true | _ => false end;
  getPureSerializationType := pureSerializationType;
  extractStructTag := fun p => match p with Struct tag => Some tag | _ => None end;
  isTypeParameter := fun p => match p with TypeParameter _ => true | _ => false end;
  serPure := pure;
  serTransactionData := transactionDataBytes;
  getSharedObjectInitialVersion :=
    fun o => match o with Exists _ v => v | NotExists _ => None end;
  getObjectReference :=
    fun o => match o with Exists r _ => Some r | NotExists _ => None end;
  isBigIntString := integerString
|}.

(** Stand-ins for the structs of Commands.ts and of the types module and
    for the JSON text of the values of a builder: plain objects with the
    fields the builder reads, an input as [{ kind, value, index }], a call
    arg under its tag. [RObject], any other object, is written as the
    wrapper [{ Object: {} }] that [JSON.stringify] makes of
    [{ Object: { ImmOrOwned: undefined } }], and every object or array
    that is no call arg reads back as [RObject]. *)
Definition natJson (n : nat) : Json := JNumber (Z.of_nat n).

Definition asNat (j : Json) : option nat :=
  match j with
  | JNumber n => if (0 <=? n)%Z then Some (Z.to_nat n) else None
  | _ => None
  end.

Definition asText (j : Json) : option string :=
  match j with
  | JString s => Some s
  | _ => None
  end.

Definition refToJson (r : SuiObjectRef) : Json :=
  JObject [("objectId", JString (ref_objectId r));
           ("version", JNumber (ref_version r));
           ("digest", JString (ref_digest r))].

Definition refOfJson (j : Json) : option SuiObjectRef :=
  match j with
  | JObject fields =>
      if knownKeys ["objectId"; "version"; "digest"] fields then
        match getField "objectId" fields, getField "version" fields,
              getField "digest" fields with
        | Some (JString id), Some (JNumber v), Some (JString d) =>
            Some {| ref_objectId := id; ref_version := v; ref_digest := d |}
        | _, _, _ => None
        end
      else None
  | _ => None
  end.

Definition sharedToJson (r : SharedObjectRef) : Json :=
  JObject [("objectId", JString (objectId r));
           ("initialSharedVersion", JNumber (initialSharedVersion r));
           ("mutable", JBool (mutable r))].

Definition sharedOfJson (j : Json) : option SharedObjectRef :=
  match j with
  | JObject fields =>
      if knownKeys ["objectId"; "initialSharedVersion"; "mutable"] fields then
        match getField "objectId" fields, getField "initialSharedVersion" fields,
              getField "mutable" fields with
        | Some (JString id), Some (JNumber v), Some (JBool m) =>
            Some {| objectId := id; initialSharedVersion := v; mutable := m |}
        | _, _, _ => None
        end
      else None
  | _ => None
  end.

Definition argumentToJson (a : CommandArgument) : Json :=
  match a with
  | Input i => JObject [("kind", JString "Input"); ("index", natJson i)]
  | GasCoin => JObject [("kind", JString "GasCoin")]
  | Result i => JObject [("kind", JString "Result"); ("index", natJson i)]
  | NestedResult i k =>
      JObject [("kind", JString "NestedResult"); ("index", natJson i);
               ("resultIndex", natJson k)]
  end.

Definition argumentOfJson (j : Json) : option CommandArgument :=
  match j with
  | JObject fields =>
      kind ← getField "kind" fields ≫= asText;
      if String.eqb kind "Input" then Input <$> (getField "index" fields ≫= asNat)
      else if String.eqb kind "GasCoin" then Some GasCoin
      else if String.eqb kind "Result" then Result <$> (getField "index" fields ≫= asNat)
      else if String.eqb kind "NestedResult" then
        i ← getField "index" fields ≫= asNat;
        k ← getField "resultIndex" fields ≫= asNat;
        Some (NestedResult i k)
      else None
  | _ => None
  end.

Definition fieldToJson (v : FieldValue) : Json :=
  match v with
  | ArgumentValue a => argumentToJson a
  | ArgumentArray l => JArray (map argumentToJson l)
  | DataValue d => JString d
  end.

Definition fieldOfJson (j : Json) : option FieldValue :=
  match j with
  | JString d => Some (DataValue d)
  | JArray l => ArgumentArray <$> mapM argumentOfJson l
  | _ => ArgumentValue <$> argumentOfJson j
  end.

Definition knownCommand (kind : string) : bool :=
  TransactionResult.inList kind
    ["TransferObjects"; "SplitCoin"; "MergeCoins"; "MakeMoveVec"; "Publish"].

Definition commandToJson (c : TransactionCommand) : Json :=
  match c with
  | MoveCall target typeArguments arguments =>
      JObject [("kind", JString "MoveCall"); ("target", JString target);
               ("typeArguments", JArray (map JString typeArguments));
               ("arguments", JArray (map argumentToJson arguments))]
  | Command kind fields =>
      JObject (("kind", JString kind)
               :: map (fun entry => (fst entry, fieldToJson (snd entry))) fields)
  end.

Definition commandOfJson (j : Json) : option TransactionCommand :=
  match j with
  | JObject fields =>
      kind ← getField "kind" fields ≫= asText;
      if String.eqb kind "MoveCall" then
        if knownKeys ["kind"; "target"; "typeArguments"; "arguments"] fields then
          target ← getField "target" fields ≫= asText;
          typeArguments ← getField "typeArguments" fields ≫= asArray asText;
          arguments ← getField "arguments" fields ≫= asArray argumentOfJson;
          Some (MoveCall target typeArguments arguments)
        else None
      else if knownCommand kind then
        Command kind
          <$> mapM (fun entry => pair (fst entry) <$> fieldOfJson (snd entry))
                (List.filter (fun entry => negb (String.eqb (fst entry) "kind")) fields)
      else None
  | _ => None
  end.

Definition byteJson (b : byte) : Json := JNumber (Z.of_N (Byte.to_N b)).

Definition asByte (j : Json) : option byte :=
  match j with
  | JNumber n => if (0 <=? n)%Z then Byte.of_N (Z.to_N n) else None
  | _ => None
  end.

Definition callArgToJson (c : BuilderCallArg) : Json :=
  match c with
  | Pure bytes => JObject [("Pure", JArray (map byteJson bytes))]
  | Object (ImmOrOwned r) => JObject [("Object", JObject [("ImmOrOwned", refToJson r)])]
  | Object (Shared r) => JObject [("Object", JObject [("Shared", sharedToJson r)])]
  end.

Definition soleField (j : Json) : option (string * Json) :=
  match j with
  | JObject [entry] => Some entry
  | _ => None
  end.

Definition callArgOfJson (j : Json) : option BuilderCallArg :=
  entry ← soleField j;
  if String.eqb (fst entry) "Pure" then Pure <$> asArray asByte (snd entry)
  else if String.eqb (fst entry) "Object" then
    arg ← soleField (snd entry);
    if String.eqb (fst arg) "ImmOrOwned"
    then (fun r => Object (ImmOrOwned r)) <$> refOfJson (snd arg)
    else if String.eqb (fst arg) "Shared"
    then (fun r => Object (Shared r)) <$> sharedOfJson (snd arg)
    else None
  else None.

(** The text of a value; [None] is [undefined], which leaves no
    property. *)
Definition valueToJson (v : InputValue) : option Json :=
  match v with
  | Resolved c => Some (callArgToJson c)
  | Unresolved RUndefined => None
  | Unresolved RNull => Some JNull
  | Unresolved (RBool b) => Some (JBool b)
  | Unresolved (RNumber n) => Some (JNumber n)
  | Unresolved (RString s) => Some (JString s)
  | Unresolved RObject => Some (JObject [("Object", JObject [])])
  end.

Definition valueOfJson (o : option Json) : InputValue :=
  match o with
  | None => Unresolved RUndefined
  | Some JNull => Unresolved RNull
  | Some (JBool b) => Unresolved (RBool b)
  | Some (JNumber n) => Unresolved (RNumber n)
  | Some (JString s) => Unresolved (RString s)
  | Some j =>
      match callArgOfJson j with
      | Some c => Resolved c
      | None => Unresolved RObject
      end
  end.

Definition inputToJson (i : TransactionInput) : Json :=
  JObject ([("kind", JString "Input")]
           ++ optionalField "value" (valueToJson (value i))
           ++ [("index", natJson (index i))]).

Definition inputOfJson (j : Json) : option TransactionInput :=
  match j with
  | JObject fields =>
      if knownKeys ["kind"; "value"; "index"] fields then
        kind ← getField "kind" fields ≫= asText;
        if String.eqb kind "Input" then
          i ← getField "index" fields ≫= asNat;
          Some {| index := i; value := valueOfJson (getField "value" fields) |}
        else None
      else None
  | _ => None
  end.

#[global] Instance snapshotCollaborators : SnapshotCollaborators := {|
  isTransactionInput := fun _ => true;
  isTransactionCommand := fun c =>
    match c with
    | MoveCall _ _ _ => true
    | Command kind _ => knownCommand kind
    end;
  isSuiObjectRef := fun _ => true;
  inputJson := fun i => Some (inputToJson i);
  commandJson := fun c => Some (commandToJson c);
  refJson := fun r => Some (refToJson r);
  asTransactionInput := inputOfJson;
  asTransactionCommand := commandOfJson;
  asSuiObjectRef := refOfJson
|}.

(** A provider over a table of objects and two Move functions,
    [0x2::pay::split(Coin, u64, &mut TxContext)] and
    [0x2::profile::rename(String, u64, &mut TxContext)]. *)
Definition lookupObject (table : list (string * ObjectResponse)) (id : string)
  : ObjectResponse :=
  match find (fun e => String.eqb (fst e) id) table with
  | Some e => snd e
  | None => NotExists id
  end.

Definition provider (table : list (string * ObjectResponse))
  : Provider MoveType ObjectResponse :=
  {| getReferenceGasPrice := Returns 1%Z;
     getNormalizedMoveFunction := fun target =>
       if String.eqb target "0x2::pay::split"
       then Returns [Struct "0x2::coin::Coin"; U64; TxContext]
       else if String.eqb target "0x2::profile::rename"
       then Returns [Utf8String; U64; TxContext]
       else Throws "no such function";
     getObjectBatch := fun ids => Returns (map (lookupObject table) ids) |}.

Definition ref (id : string) (version : Z) : SuiObjectRef :=
  {| ref_objectId := id; ref_version := version; ref_digest := "digest" |}.

(** A builder with sender, budget and payment set. *)
Definition funded : Transaction :=
  setGasPayment [ref "0xa" 1] (setGasBudget 1000 (setSender "0x1" newTransaction)).

End Fixture.

(** ** Vocabulary of the properties *)

(** A computation relates every state to the state it ends in, whether it
    fails or not. *)
Definition preserves (R : BuildState -> BuildState -> Prop) {A} (m : M A) : Prop :=
  forall s, R s (snd (m s)).

(** A computation never fails with [e]. *)
Definition never (e : Error) {A} (m : M A) : Prop :=
  forall s, fst (m s) <> Err e.

(** A failure comes from a collaborator. *)
Definition isExternalError (e : Error) : bool :=
  match e with ExternalError _ => true | _ => false end.

(** Positions and commands are as they were. *)
Definition samePositions (s s' : BuildState) : Prop :=
  commands (tx s') = commands (tx s)
  /\ map index (inputs (tx s')) = map index (inputs (tx s)).

(** Every input holds a call arg. *)
Definition allResolved (ins : list TransactionInput) : bool :=
  forallb (fun i => isBuilderCallArg (value i)) ins.

(** Nothing is left to resolve: every input holds a call arg and the two
    queues are empty. *)
Definition settled (s : BuildState) : Prop :=
  allResolved (inputs (tx s)) = true
  /\ moveModulesToResolve s = []
  /\ objectsToResolve s = [].

(** A settled state stays as it is. *)
Definition fixes (s s' : BuildState) : Prop := settled s -> s' = s.

(** Two states that differ at most in the requests logged. *)
Definition sameButCalls (s s' : BuildState) : Prop :=
  tx s = tx s'
  /\ moveModulesToResolve s = moveModulesToResolve s'
  /\ objectsToResolve s = objectsToResolve s'.

(** A computation that does not look at the log. *)
Definition blind {A} (m : M A) : Prop :=
  forall s s', sameButCalls s s' ->
    fst (m s) = fst (m s') /\ sameButCalls (snd (m s)) (snd (m s')).

(** Stage 1 as a function of the builder. *)
Definition checkRequired (t : Transaction) : result unit :=
  if negb (truthyString (budget (gasConfig t))) then Err MissingGasBudget
  else if negb (bool_decide (is_Some (payment (gasConfig t)))) then Err MissingGasPayment
  else if negb (truthyString (sender t)) then Err MissingTransactionSender
  else Ok tt.

Section ObjectVocabulary.

Context {Param ObjectData : Type} `{Collaborators Param ObjectData}.

(** The writes of stage 5 on the input list, in the order they are made:
    entry [i] of the queue takes object [i] of the batch. *)
Definition writeBack (queue : list (string * nat)) (objects : list ObjectData)
    (ins : list TransactionInput) : list TransactionInput :=
  fold_left
    (fun ins e => alter (setValue (objectValue (fst (fst e)) (snd e))) (snd (fst e)) ins)
    (zip queue objects) ins.

(** Every queued entry points at an input that is there. *)
Definition queueValid (s : BuildState) : Prop :=
  forall id pos, (id, pos) ∈ objectsToResolve s -> is_Some (inputs (tx s) !! pos).

Definition keepsQueueValid (s s' : BuildState) : Prop :=
  queueValid s -> queueValid s'.

(** Stages 1 to 4: everything before the object batch. *)
Definition queueing (provider : option (Provider Param ObjectData)) : M unit :=
  validate ;;
  fillGasPrice provider ;;
  scanCommands ;;
  resolveMoveCalls provider.

(** The object behind an identifier did not resolve: it has neither a
    truthy initial shared version nor a reference. *)
Definition unresolvedObject (object : ObjectData) : bool :=
  match getSharedObjectInitialVersion object with
  | Some v => (v =? 0)%Z
  | None => true
  end
  && negb (bool_decide (is_Some (getObjectReference object))).

End ObjectVocabulary.

(** Inputs that hold a call arg are as they were. *)
Definition keepsResolved (s s' : BuildState) : Prop :=
  forall pos inp,
    inputs (tx s) !! pos = Some inp -> isBuilderCallArg (value inp) = true ->
    inputs (tx s') !! pos = Some inp.

(** ** More of the builder *)

(** [new Transaction(transaction)]: the inputs, the commands and the gas
    config are read through the getters of [transaction], which hand out
    copies of the two arrays and of the gas config; the sender and the
    expiration are not taken over. The builders are compared as they are at
    the moment of the copy: the input objects in the copied array are those
    of the original. *)
Definition construct (transaction : option Transaction) : Transaction :=
  match transaction with
  | Some t =>
      {| sender := None; expiration := ExpirationUndefined;
         gasConfig := gasConfig t; inputs := inputs t; commands := commands t |}
  | None => newTransaction
  end.

(** Every input carries its own position as its index. *)
Definition indexed (t : Transaction) : Prop :=
  map index (inputs t) = seq 0 (length (inputs t)).

(** The command has [Input pos] among its arguments. *)
Definition mentions (c : TransactionCommand) (pos : nat) : Prop :=
  match c with
  | MoveCall _ _ args => Input pos ∈ args
  | Command _ fields =>
      exists key v, (key, v) ∈ fields
        /\ (v = ArgumentValue (Input pos)
            \/ exists items, v = ArgumentArray items /\ Input pos ∈ items)
  end.

(** Some command of the list has [Input pos] among its arguments. *)
Definition referenced (cs : list TransactionCommand) (pos : nat) : Prop :=
  exists c, c ∈ cs /\ mentions c pos.

(** What a build leaves alone: the sender, the expiration, the budget,
    the payment and the owner of the gas config, the commands, the index
    of every input, and a gas price that is there. *)
Definition sameFrame (s s' : BuildState) : Prop :=
  sender (tx s') = sender (tx s)
  /\ expiration (tx s') = expiration (tx s)
  /\ budget (gasConfig (tx s')) = budget (gasConfig (tx s))
  /\ payment (gasConfig (tx s')) = payment (gasConfig (tx s))
  /\ owner (gasConfig (tx s')) = owner (gasConfig (tx s))
  /\ commands (tx s') = commands (tx s)
  /\ map index (inputs (tx s')) = map index (inputs (tx s))
  /\ (truthyString (price (gasConfig (tx s))) = true ->
      price (gasConfig (tx s')) = price (gasConfig (tx s))).

(** No request was made. *)
Definition sameCalls (s s' : BuildState) : Prop := calls s' = calls s.

(** The queue of Move calls is as it was. *)
Definition sameMoveQueue (s s' : BuildState) : Prop :=
  moveModulesToResolve s' = moveModulesToResolve s.

(** Against the inputs [original] a build started from: an input that is
    not resolved is still the original one, and every queued identifier is
    the raw string the original input of its entry held. *)
Definition queuedFromInputs (original : list TransactionInput) (s : BuildState) : Prop :=
  (forall pos inp, inputs (tx s) !! pos = Some inp ->
     isBuilderCallArg (value inp) = false -> original !! pos = Some inp)
  /\ (forall id pos, (id, pos) ∈ objectsToResolve s ->
        exists inp, original !! pos = Some inp /\ value inp = Unresolved (RString id)).

Definition keepsQueuedFromInputs (original : list TransactionInput)
    (s s' : BuildState) : Prop :=
  queuedFromInputs original s -> queuedFromInputs original s'.

(** Writes stay within the positions [Q]: when every queued entry names a
    position in [Q], that is still so afterwards, and the inputs at the
    other positions are as they were. *)
Definition writesWithin (Q : nat -> Prop) (s s' : BuildState) : Prop :=
  Forall (fun e => Q (snd e)) (objectsToResolve s) ->
  Forall (fun e => Q (snd e)) (objectsToResolve s')
  /\ (forall pos, ~ Q pos -> inputs (tx s') !! pos = inputs (tx s) !! pos).

(** The number of inputs is as it was. *)
Definition sameLength (s s' : BuildState) : Prop :=
  length (inputs (tx s')) = length (inputs (tx s)).

(** An error of stage 1. *)
Definition isMissingField (e : Error) : bool :=
  match e with
  | MissingGasBudget | MissingGasPayment | MissingTransactionSender => true
  | _ => false
  end.
(** ** Snapshots: what JSON carries *)

(** JSON carries a value when what the struct reads back from the text of
    the value is the value itself. *)
Definition carries {A} (toJson : A -> option Json) (ofJson : Json -> option A)
    (a : A) : Prop :=
  forall j, toJson a = Some j -> ofJson j = Some a.

(** JSON carries an input. An input that holds an object other than a
    call arg is left out: the model does not keep what such an object
    holds, so it cannot tell what comes back for it. *)
Definition carriesInput `{SnapshotCollaborators} (i : TransactionInput) : Prop :=
  value i <> Unresolved RObject /\ carries inputJson asTransactionInput i.

(** JSON carries what [serialize] writes of a builder. *)
Definition carried `{SnapshotCollaborators} (t : Transaction) : Prop :=
  Forall carriesInput (inputs t)
  /\ Forall (carries commandJson asTransactionCommand) (commands t)
  /\ Forall (carries refJson asSuiObjectRef) (default [] (payment (gasConfig t))).


(** * Properties *)

(** ** Result references *)

Section ResultReference.

Import TransactionResult.

(** Reading back the digits of a printed number. *)
Lemma leadingDigits_string_of_uint (d : Decimal.uint) :
  leadingDigits (NilEmpty.string_of_uint d) = d.
Proof. induction d; simpl; congruence. Qed.

Lemma to_uint_not_Nil (k : nat) : Nat.to_uint k <> Decimal.Nil.
Proof.
  intros E. pose proof (DecimalNat.Unsigned.of_to k) as Hk.
  rewrite E in Hk. simpl in Hk. subst k. discriminate E.
Qed.

(** The key of a position starts with a digit: it is neither white space
    nor a sign, and it is no property of the target. *)
Lemma indexKey_plain (k : nat) :
  trimStart (indexKey k) = indexKey k
  /\ String.eqb (indexKey k) "kind" = false
  /\ String.eqb (indexKey k) "index" = false
  /\ inList (indexKey k) objectPrototypeKeys = false
  /\ (forall s, indexKey k <> String "-" s)
  /\ (forall s, indexKey k <> String "+" s).
Proof.
  unfold indexKey. pose proof (to_uint_not_Nil k) as Hn.
  destruct (Nat.to_uint k); [congruence | ..];
    (repeat split; [reflexivity .. | intros s E; discriminate E | intros s E; discriminate E]).
Qed.

Lemma parseInt_indexKey (k : nat) : parseInt (indexKey k) = Some (Z.of_nat k).
Proof.
  destruct (indexKey_plain k) as (Ht & _ & _ & _ & Hm & Hp).
  unfold parseInt. rewrite Ht.
  assert (Hd : leadingDigits (indexKey k) = Nat.to_uint k)
    by apply leadingDigits_string_of_uint.
  assert (Hv : match leadingDigits (indexKey k) with
               | Decimal.Nil => None
               | d => Some (Z.of_nat (Nat.of_uint d))
               end = Some (Z.of_nat k)).
  { rewrite Hd. pose proof (to_uint_not_Nil k) as Hn.
    pose proof (DecimalNat.Unsigned.of_to k) as Hk.
    destruct (Nat.to_uint k); [congruence | ..]; rewrite Hk; reflexivity. }
  destruct (indexKey k) as [|c s] eqn:E; [exact Hv|].
  destruct (Ascii.eqb c "-") eqn:Ec1.
  { apply Ascii.eqb_eq in Ec1. subst c. exfalso. eapply Hm. reflexivity. }
  destruct (Ascii.eqb c "+") eqn:Ec2.
  { apply Ascii.eqb_eq in Ec2. subst c. exfalso. eapply Hp. reflexivity. }
  destruct c as [[] [] [] [] [] [] [] []]; try exact Hv; simpl in Ec1, Ec2; discriminate.
Qed.

Lemma memoOk_create (i : nat) : memoOk (createTransactionResult i).
Proof. intros k a. simpl. rewrite lookup_empty. discriminate. Qed.

Lemma nestedResultFor_spec (r : t) (k : nat) :
  memoOk r ->
  fst (nestedResultFor r k) = NestedResult (target_index r) k
  /\ target_index (snd (nestedResultFor r k)) = target_index r
  /\ memoOk (snd (nestedResultFor r k))
  /\ nestedResults (snd (nestedResultFor r k)) !! k
     = Some (NestedResult (target_index r) k).
Proof.
  intros Hr. unfold nestedResultFor.
  destruct (nestedResults r !! k) as [a|] eqn:E; simpl.
  - pose proof (Hr k a E) as ->. auto.
  - repeat split; trivial.
    + intros k' a'. simpl. destruct (decide (k = k')) as [->|Hne].
      * rewrite lookup_insert_eq. congruence.
      * rewrite lookup_insert_ne by done. apply Hr.
    + apply lookup_insert_eq.
Qed.

Lemma get_keeps (r : t) (p : Property) :
  memoOk r ->
  target_index (snd (get r p)) = target_index r /\ memoOk (snd (get r p)).
Proof.
  intros Hr. destruct p as [| |name]; simpl; auto.
  repeat (match goal with |- context [if ?b then _ else _] => destruct b end;
          simpl; auto).
  destruct (parseInt name) as [z|]; simpl; auto.
  destruct (z <? 0)%Z; simpl; auto.
  destruct (nestedResultFor_spec r (Z.to_nat z) Hr) as (_ & Hi & Hm & _).
  destruct (nestedResultFor r (Z.to_nat z)); simpl in *. auto.
Qed.

Lemma after_keeps (ps : list Property) (r : t) :
  memoOk r ->
  target_index (after ps r) = target_index r /\ memoOk (after ps r).
Proof.
  revert r. induction ps as [|p ps IH]; intros r Hr; simpl; [auto|].
  destruct (get_keeps r p Hr) as [Hi Hm].
  destruct (IH _ Hm) as [Hi' Hm']. unfold after in *. simpl.
  split; [congruence | exact Hm'].
Qed.

Lemma get_indexKey (r : t) (k : nat) :
  memoOk r ->
  get r (Key (indexKey k)) =
    (GotArgument (NestedResult (target_index r) k), snd (nestedResultFor r k)).
Proof.
  intros Hr. destruct (indexKey_plain k) as (_ & Hk & Hi & Hp & _).
  unfold get. rewrite Hk, Hi, Hp, parseInt_indexKey.
  assert ((Z.of_nat k <? 0)%Z = false) as -> by (apply Z.ltb_ge; lia).
  rewrite Nat2Z.id.
  destruct (nestedResultFor_spec r k Hr) as (Hf & _).
  destruct (nestedResultFor r k); simpl in *. congruence.
Qed.

End ResultReference.

(** C7. A result reference bound to command [i], after any reads [ps],
    answers a request for position [k] with [NestedResult i k]; asked
    again, it answers with the same value, which is the one it stored at
    position [k]; used in the singular form it is [Result i]. *)
Theorem nested_result_stable (i : nat) (ps : list TransactionResult.Property) (k : nat) :
  let r := TransactionResult.after ps (TransactionResult.createTransactionResult i) in
  let key := TransactionResult.Key (TransactionResult.indexKey k) in
  let r' := snd (TransactionResult.get r key) in
  fst (TransactionResult.get r key) = TransactionResult.GotArgument (NestedResult i k)
  /\ fst (TransactionResult.get r' key) = fst (TransactionResult.get r key)
  /\ TransactionResult.nestedResults r' !! k = Some (NestedResult i k)
  /\ TransactionResult.singular r = Some (Result i)
  /\ TransactionResult.baseResult r = Result i.
Proof.
  intros r key r'.
  destruct (after_keeps ps _ (memoOk_create i)) as [Hi Hm]. fold r in Hi, Hm.
  simpl in Hi.
  assert (Hg : TransactionResult.get r key
               = (TransactionResult.GotArgument (NestedResult i k),
                  snd (TransactionResult.nestedResultFor r k))).
  { unfold key. rewrite get_indexKey by exact Hm. rewrite Hi. reflexivity. }
  destruct (nestedResultFor_spec r k Hm) as (_ & Hi' & Hm' & Hs).
  subst r'. rewrite Hg. cbn [fst snd]. unfold key.
  rewrite get_indexKey by exact Hm'. cbn [fst snd].
  rewrite Hi', Hs, Hi. unfold TransactionResult.baseResult, TransactionResult.singular.
  simpl. rewrite Hi. repeat split; reflexivity.
Qed.

(** Destructuring: the first [n] values of the iterator are the nested
    results of positions [0 .. n-1]. *)
Lemma destructure_fresh (i n : nat) :
  fst (TransactionResult.destructure n (TransactionResult.createTransactionResult i))
  = map (NestedResult i) (seq 0 n).
Proof.
  unfold TransactionResult.destructure.
  assert (G : forall n j r, TransactionResult.memoOk r ->
            fst (TransactionResult.iterateFrom j n r)
            = map (NestedResult (TransactionResult.target_index r)) (seq j n)).
  { clear. induction n as [|n IH]; intros j r Hr; simpl; [reflexivity|].
    destruct (nestedResultFor_spec r j Hr) as (Hf & Hi & Hm & _).
    destruct (TransactionResult.nestedResultFor r j) as [a r1]. simpl in *.
    specialize (IH (S j) r1 Hm).
    destruct (TransactionResult.iterateFrom (S j) n r1) as [l r2]. simpl in *.
    rewrite Hf, IH, Hi. reflexivity. }
  apply (G n 0 _ (memoOk_create i)).
Qed.

(** ** Reasoning about computations *)

Section Preserves.

Variable R : BuildState -> BuildState -> Prop.
Hypothesis R_refl : forall s, R s s.
Hypothesis R_trans : forall a b c, R a b -> R b c -> R a c.

Lemma preserves_ret {A} (a : A) : preserves R (ret a).
Proof. intros s. apply R_refl. Qed.

Lemma preserves_throw {A} (e : Error) : preserves R (@throw A e).
Proof. intros s. apply R_refl. Qed.

Lemma preserves_liftResult {A} (r : result A) : preserves R (liftResult r).
Proof. destruct r; [apply preserves_ret | apply preserves_throw]. Qed.

Lemma preserves_call {A} (x : external A) : preserves R (call x).
Proof. apply preserves_liftResult. Qed.

Lemma preserves_getTx : preserves R getTx.
Proof. intros s. apply R_refl. Qed.

Lemma preserves_expectProvider {P} (p : option P) : preserves R (expectProvider p).
Proof. destruct p; [apply preserves_ret | apply preserves_throw]. Qed.

Lemma preserves_bind {A B} (m : M A) (k : A -> M B) :
  preserves R m -> (forall a, preserves R (k a)) -> preserves R (bind m k).
Proof.
  intros Hm Hk s. unfold bind. specialize (Hm s).
  destruct (m s) as [[a|e] s']; simpl in *; [|exact Hm].
  eapply R_trans; [exact Hm | apply Hk].
Qed.

Lemma preserves_forEach {A} (f : A -> M unit) (l : list A) :
  (forall a, preserves R (f a)) -> preserves R (forEach f l).
Proof.
  intros Hf. induction l as [|a l IH]; simpl.
  - apply preserves_ret.
  - apply preserves_bind; auto.
Qed.

Lemma preserves_forEachFrom {A} (f : nat -> A -> M unit) (l : list A) (i : nat) :
  (forall i a, preserves R (f i a)) -> preserves R (forEachFrom i f l).
Proof.
  intros Hf. revert i. induction l as [|a l IH]; intros i; simpl.
  - apply preserves_ret.
  - apply preserves_bind; auto.
Qed.

End Preserves.

Section Never.

Variable e : Error.

Lemma never_ret {A} (a : A) : never e (ret a).
Proof. intros s. discriminate. Qed.

Lemma never_throw {A} (e' : Error) : e' <> e -> never e (@throw A e').
Proof. intros Hne s. simpl. congruence. Qed.

Lemma never_call {A} (x : external A) : isExternalError e = false -> never e (call x).
Proof.
  intros He s. destruct x; simpl; [discriminate|].
  intros E. injection E as <-. discriminate He.
Qed.

Lemma never_bind {A B} (m : M A) (k : A -> M B) :
  never e m -> (forall a, never e (k a)) -> never e (bind m k).
Proof.
  intros Hm Hk s. unfold bind. specialize (Hm s).
  destruct (m s) as [[a|e'] s']; simpl in *; [apply Hk | congruence].
Qed.

Lemma never_forEachFrom {A} (f : nat -> A -> M unit) (l : list A) (i : nat) :
  (forall i a, never e (f i a)) -> never e (forEachFrom i f l).
Proof.
  intros Hf. revert i. induction l as [|a l IH]; intros i; simpl.
  - apply never_ret.
  - apply never_bind; auto.
Qed.

End Never.

(** Walks through a computation, leaving the primitive steps to [leaf]. *)
Ltac preserving refl trans leaf :=
  repeat first
    [ leaf
    | apply preserves_bind; [exact trans | | intros ?]
    | apply preserves_forEach; [exact refl | exact trans | intros ?]
    | apply preserves_forEachFrom; [exact refl | exact trans | intros ? ?]
    | apply preserves_ret; exact refl
    | apply preserves_throw; exact refl
    | apply preserves_getTx; exact refl
    | apply preserves_liftResult; exact refl
    | apply preserves_call; exact refl
    | apply preserves_expectProvider; exact refl
    | match goal with
      | |- preserves _ (if ?b then _ else _) => destruct b
      | |- preserves _ (match ?x with _ => _ end) => destruct x
      | |- preserves _ (let '(_, _) := ?x in _) => destruct x
      end ].

(** ** Append-only lists *)



Section BuildKeepsPositions.

Context {Param ObjectData : Type} `{Collaborators Param ObjectData}.

Lemma samePositions_refl s : samePositions s s.
Proof. by split. Qed.

Lemma samePositions_trans a b c :
  samePositions a b -> samePositions b c -> samePositions a c.
Proof. intros [? ?] [? ?]. split; congruence. Qed.

Lemma map_index_alter (v : InputValue) (pos : nat) (ins : list TransactionInput) :
  map index (alter (setValue v) pos ins) = map index ins.
Proof.
  revert pos. induction ins as [|i ins IH]; intros [|pos]; simpl; try done.
  f_equal. apply IH.
Qed.

Lemma samePositions_writeInput pos v : preserves samePositions (modifyTx (writeInput pos v)).
Proof. intros s. split; simpl; [done | apply map_index_alter]. Qed.

Lemma samePositions_pushObject id pos : preserves samePositions (pushObject id pos).
Proof. intros s. by split. Qed.

Ltac positions := preserving samePositions_refl samePositions_trans
  ltac:(first [ apply samePositions_writeInput
              | apply samePositions_pushObject
              | (intros ?; split; reflexivity) ]).

Lemma samePositions_build provider : preserves samePositions (build provider).
Proof.
  unfold build, validate, fillGasPrice, scanCommands, scanCommand, scanField,
    encodeInput, assemble.
  positions.
  - unfold resolveMoveCalls. intros s.
    destruct (moveModulesToResolve s) as [|mc q]; [apply samePositions_refl|].
    revert s. generalize (mc :: q). clear mc q. intros q.
    unfold resolveMoveCall, resolveParameter. positions.
  - unfold resolveObjects. intros s.
    destruct (objectsToResolve s) as [|o q]; [apply samePositions_refl|].
    revert s. generalize (o :: q). clear o q. intros q.
    unfold writeObject. positions.
Qed.

End BuildKeepsPositions.


(** ** Validation comes first *)

(** C9. A builder that lacks the sender, the gas budget or the gas payment
    fails to build with the error of a missing field, the builder is as it
    was, and nothing was asked of the provider. *)
Theorem build_fails_fast {Param ObjectData : Type} `{Collaborators Param ObjectData}
    (provider : option (Provider Param ObjectData)) (t : Transaction) :
  budget (gasConfig t) = None \/ payment (gasConfig t) = None \/ sender t = None ->
  exists e,
    runBuild provider t = (Err e, t, [])
    /\ In e [MissingGasBudget; MissingGasPayment; MissingTransactionSender].
Proof.
  intros Hmissing. unfold runBuild, build, validate. unfold bind, getTx, throw. simpl.
  destruct (truthyString (budget (gasConfig t))) eqn:Eb; simpl.
  2: { exists MissingGasBudget. simpl. auto. }
  destruct (payment (gasConfig t)) as [pay|] eqn:Ep; simpl.
  2: { exists MissingGasPayment. simpl. auto. }
  destruct (truthyString (sender t)) eqn:Es; simpl.
  2: { exists MissingTransactionSender. simpl. auto. }
  destruct Hmissing as [Hb | [Hp | Hs]].
  - rewrite Hb in Eb. discriminate.
  - discriminate.
  - rewrite Hs in Es. discriminate.
Qed.

Lemma build_fails_fast_witness :
  exists e,
    runBuild (Some (Fixture.provider [])) (setSender "0x1" newTransaction)
    = (Err e, setSender "0x1" newTransaction, [])
    /\ In e [MissingGasBudget; MissingGasPayment; MissingTransactionSender].
Proof.
  apply (build_fails_fast (Some (Fixture.provider [])) (setSender "0x1" newTransaction)).
  left. reflexivity.
Defined.

(** The same for fields that are there and empty: [!budget] and [!sender]
    hold for the empty string too. *)
Lemma build_rejects_empty_sender {Param ObjectData : Type} `{Collaborators Param ObjectData}
    (provider : option (Provider Param ObjectData)) (t : Transaction) :
  truthyString (budget (gasConfig t)) = true ->
  is_Some (payment (gasConfig t)) ->
  sender t = Some "" ->
  runBuild provider t = (Err MissingTransactionSender, t, []).
Proof.
  intros Hb [pay Hp] Hs. unfold runBuild, build, validate. unfold bind, getTx, throw. simpl.
  rewrite Hb, Hp, Hs. reflexivity.
Qed.

(** ** Move calls: the number of arguments *)

Section Arity.

Context {Param ObjectData : Type} `{Collaborators Param ObjectData}.

Lemma suppliedParameters_context (ps : list Param) (ctx : Param) :
  isTxContext ctx = true -> suppliedParameters (ps ++ [ctx]) = ps.
Proof.
  intros Hctx. unfold suppliedParameters.
  rewrite last_snoc, Hctx, length_app. simpl.
  replace (0 <? length ps + 1)%nat with true by (symmetry; apply Nat.ltb_lt; lia).
  simpl. replace (length ps + 1 - 1) with (length ps) by lia.
  apply take_app_length.
Qed.

Lemma suppliedParameters_plain (ps : list Param) :
  (forall p, last ps = Some p -> isTxContext p = false) ->
  suppliedParameters ps = ps.
Proof.
  intros Hlast. unfold suppliedParameters.
  destruct (last ps) as [p|]; [rewrite (Hlast p eq_refl)|];
    by rewrite andb_false_r.
Qed.

Lemma never_resolveParameter (param : Param) (arg : option CommandArgument) :
  never IncorrectNumberOfArguments (resolveParameter param arg).
Proof.
  unfold resolveParameter.
  repeat first
    [ apply never_bind; [| intros ?]
    | apply never_ret
    | apply never_throw; discriminate
    | apply never_call; reflexivity
    | (intros ?; simpl; discriminate)
    | match goal with
      | |- never _ (if ?b then _ else _) => destruct b
      | |- never _ (match ?x with _ => _ end) => destruct x
      | |- never _ (liftResult (InputsPure ?t ?v)) =>
          unfold InputsPure; destruct (serPure t v)
      end ].
Qed.

End Arity.

(** C5. For a Move call resolved against the fetched [parameters]: a
    trailing [TxContext] is not counted; the call fails with 'Incorrect
    number of arguments.' exactly when the parameters left differ in number
    from the arguments, in which case nothing has been written; so a call
    that resolves has as many arguments as parameters left. *)
Theorem move_call_arity {Param ObjectData : Type} `{Collaborators Param ObjectData}
    (parameters : list Param) (args : list CommandArgument) (s : BuildState) :
  (forall ps ctx, parameters = ps ++ [ctx] -> isTxContext ctx = true ->
     suppliedParameters parameters = ps)
  /\ (fst (resolveMoveCall parameters args s) = Err IncorrectNumberOfArguments
      <-> length (suppliedParameters parameters) <> length args)
  /\ (length (suppliedParameters parameters) <> length args ->
      snd (resolveMoveCall parameters args s) = s)
  /\ (isOk (fst (resolveMoveCall parameters args s)) = true ->
      length (suppliedParameters parameters) = length args).
Proof.
  assert (Hbad : length (suppliedParameters parameters) <> length args ->
                 resolveMoveCall parameters args s = (Err IncorrectNumberOfArguments, s)).
  { intros Hne. unfold resolveMoveCall.
    apply Nat.eqb_neq in Hne. rewrite Hne. reflexivity. }
  assert (Hgood : length (suppliedParameters parameters) = length args ->
                  fst (resolveMoveCall parameters args s) <> Err IncorrectNumberOfArguments).
  { intros Heq. unfold resolveMoveCall.
    apply Nat.eqb_eq in Heq. rewrite Heq. simpl.
    apply never_forEachFrom. intros i a. apply never_resolveParameter. }
  split; [|split; [|split]].
  - intros ps ctx -> Hctx. by apply suppliedParameters_context.
  - split.
    + intros E Heq. by apply Hgood in Heq.
    + intros Hne. by rewrite Hbad.
  - intros Hne. by rewrite Hbad.
  - intros Hok.
    destruct (decide (length (suppliedParameters parameters) = length args)) as [|Hne];
      [done|]. rewrite (Hbad Hne) in Hok. discriminate.
Qed.

(** A signature of three parameters whose last is the context rejects
    three arguments and does not reject two. *)
Lemma move_call_arity_witness :
  let signature := [Fixture.Struct "0x2::coin::Coin"; Fixture.U64; Fixture.TxContext] in
  let s := startBuild
             (snd (input (Unresolved (RNumber 100))
                     (snd (input (Unresolved (RString "0x5")) Fixture.funded)))) in
  suppliedParameters signature = [Fixture.Struct "0x2::coin::Coin"; Fixture.U64]
  /\ fst (resolveMoveCall signature [Input 0; Input 1; GasCoin] s)
     = Err IncorrectNumberOfArguments
  /\ snd (resolveMoveCall signature [Input 0; Input 1; GasCoin] s) = s
  /\ length (suppliedParameters signature) = length [Input 0; Input 1].
Proof.
  intros signature s.
  destruct (move_call_arity signature [Input 0; Input 1; GasCoin] s)
    as (Hdrop & Hiff & Hkeep & _).
  destruct (move_call_arity signature [Input 0; Input 1] s) as (_ & _ & _ & Hok).
  split; [|split; [|split]].
  - apply (Hdrop [Fixture.Struct "0x2::coin::Coin"; Fixture.U64] Fixture.TxContext);
      reflexivity.
  - apply Hiff. vm_compute. lia.
  - apply Hkeep. vm_compute. lia.
  - apply Hok. vm_compute. reflexivity.
Defined.

(** ** Snapshots *)

Section SnapshotProperties.

Context {Param ObjectData : Type} `{Collaborators Param ObjectData}
  `{SnapshotCollaborators}.

Lemma resolved_truthy (v : InputValue) : isBuilderCallArg v = true -> truthy v = true.
Proof. by destruct v. Qed.

Lemma allResolved_provided (ins : list TransactionInput) :
  allResolved ins = true -> forallb (fun i => truthy (value i)) ins = true.
Proof.
  unfold allResolved. rewrite !forallb_forall. intros Hall i Hi.
  apply resolved_truthy. by apply Hall.
Qed.

(** What [serialize] returns, case by case. *)
Lemma serialize_cases (t : Transaction) :
  let data := {| snapshot_version := 1;
                 snapshot_sender := None;
                 snapshot_expiration := ExpirationUndefined;
                 snapshot_inputs := inputs t;
                 snapshot_commands := commands t;
                 snapshot_gasConfig := gasConfig t |} in
  serialize t =
    if negb (forallb (fun i => truthy (value i)) (inputs t))
    then Err AllInputValuesMustBeProvided
    else if isSerializedTransactionBuilder data
         then match stringify data with
              | Some j => Ok (SerializedJSON j)
              | None => Err TypeError
              end
         else Err StructError.
Proof.
  unfold serialize, createSerializedTransactionBuilder. simpl.
  destruct (forallb _ (inputs t)); simpl; [|reflexivity].
  by destruct (isSerializedTransactionBuilder _).
Qed.

(** The first error of [serialize] is decided by the values alone. *)
Lemma serialize_guard (t : Transaction) :
  serialize t = Err AllInputValuesMustBeProvided
  <-> forallb (fun i => truthy (value i)) (inputs t) = false.
Proof.
  rewrite serialize_cases. simpl.
  destruct (forallb _ (inputs t)); simpl; [|done].
  split; [|discriminate].
  destruct (isSerializedTransactionBuilder _); [|discriminate].
  by destruct (stringify _).
Qed.

(** A list of values that JSON carries is read back from its text. *)
Lemma mapM_carries {A} (toJson : A -> option Json) (ofJson : Json -> option A)
    (l : list A) (k : list Json) :
  Forall (carries toJson ofJson) l -> mapM toJson l = Some k -> mapM ofJson k = Some l.
Proof.
  intros Hall Hk. apply mapM_Some in Hk. apply mapM_Some.
  induction Hk as [|a j l k Ha Hk IH]; [constructor|].
  apply Forall_cons in Hall as [Hc Hall].
  constructor; [by apply Hc | by apply IH].
Qed.

(** The struct [GasConfig] reads a gas config back from its text. *)
Lemma asGasConfig_gasConfigJson (g : GasConfig) (j : Json) :
  gasStringsOk g = true ->
  Forall (carries refJson asSuiObjectRef) (default [] (payment g)) ->
  gasConfigJson g = Some j ->
  asGasConfig j = Some g.
Proof.
  unfold gasStringsOk, optionalBigInt, gasConfigJson.
  destruct g as [b p pay o]. simpl. intros Hgas Hrefs Hj.
  apply andb_prop in Hgas as [Hb Hp].
  assert (Hpay : exists refs : option Json,
             match pay with
             | Some l => Some <$> (JArray <$> mapM refJson l)
             | None => Some None
             end = Some refs
             /\ match refs with
                | Some l => Some <$> asArray asSuiObjectRef l
                | None => Some None
                end = Some pay).
  { destruct pay as [l|]; simpl in *; [|by exists None].
    destruct (mapM refJson l) as [k|] eqn:Ek; [|discriminate].
    exists (Some (JArray k)). split; [reflexivity|]. simpl.
    by rewrite (mapM_carries _ _ _ _ Hrefs Ek). }
  destruct Hpay as (refs & Hto & Hof). rewrite Hto in Hj. simpl in Hj.
  injection Hj as <-.
  destruct b as [b|], p as [p|], refs as [refs|], o as [o|]; simpl in *;
    rewrite ?Hb, ?Hp; simpl; rewrite ?Hof; simpl;
    destruct pay; try discriminate; reflexivity.
Qed.

(** The struct [SerializedTransactionBuilder] reads a snapshot back from
    its text. *)
Lemma asSerializedTransactionBuilder_stringify (d : SerializedTransactionBuilder)
    (j : Json) :
  snapshot_version d = 1%Z ->
  gasStringsOk (snapshot_gasConfig d) = true ->
  Forall (carries inputJson asTransactionInput) (snapshot_inputs d) ->
  Forall (carries commandJson asTransactionCommand) (snapshot_commands d) ->
  Forall (carries refJson asSuiObjectRef)
    (default [] (payment (snapshot_gasConfig d))) ->
  stringify d = Some j ->
  asSerializedTransactionBuilder j = Some d.
Proof.
  destruct d as [v s e ins cs g]. simpl. intros -> Hgas Hins Hcs Hrefs.
  unfold stringify. simpl.
  destruct (mapM inputJson ins) as [ins'|] eqn:Eins; [|discriminate].
  destruct (mapM commandJson cs) as [cs'|] eqn:Ecs; [|discriminate].
  destruct (gasConfigJson g) as [g'|] eqn:Eg; [|discriminate].
  simpl. intros [= <-].
  pose proof (mapM_carries _ _ _ _ Hins Eins) as Hins'.
  pose proof (mapM_carries _ _ _ _ Hcs Ecs) as Hcs'.
  pose proof (asGasConfig_gasConfigJson g g' Hgas Hrefs Eg) as Hg'.
  destruct s as [s|], e as [| |epoch]; simpl;
    rewrite Hins'; simpl; rewrite Hcs'; simpl; rewrite Hg'; reflexivity.
Qed.

(** What the round trip returns of a builder that JSON carries: the
    inputs, the commands and the gas config come back, the sender and the
    expiration do not. *)
Lemma restore_cases (t : Transaction) :
  carried t ->
  restore t =
    match serialize t with
    | Ok _ => Ok {| sender := None; expiration := ExpirationUndefined;
                    gasConfig := gasConfig t; inputs := inputs t;
                    commands := commands t |}
    | Err e => Err e
    end.
Proof.
  intros (Hins & Hcs & Hrefs). unfold restore. rewrite serialize_cases. simpl.
  destruct (negb _); [reflexivity|].
  destruct (isSerializedTransactionBuilder _) eqn:Eis; [|reflexivity].
  destruct (stringify _) as [j|] eqn:Ej; [|reflexivity].
  unfold isSerializedTransactionBuilder, isGasConfig in Eis. simpl in Eis.
  apply andb_prop in Eis as [Eis Egas]. apply andb_prop in Egas as [Egas _].
  pose proof (asSerializedTransactionBuilder_stringify
                {| snapshot_version := 1;
                   snapshot_sender := None;
                   snapshot_expiration := ExpirationUndefined;
                   snapshot_inputs := inputs t;
                   snapshot_commands := commands t;
                   snapshot_gasConfig := gasConfig t |} j eq_refl Egas) as Hj.
  simpl in Hj. specialize (Hj (Forall_impl _ _ _ Hins (fun i Hi => proj2 Hi)) Hcs Hrefs Ej).
  assert (Hobject : exists fields, j = JObject fields).
  { unfold stringify in Ej. simpl in Ej.
    destruct (mapM inputJson (inputs t)); [|discriminate].
    destruct (mapM commandJson (commands t)); [|discriminate].
    destruct (gasConfigJson (gasConfig t)); [|discriminate].
    simpl in Ej. injection Ej as <-. by eexists. }
  destruct Hobject as [fields ->].
  unfold from, assertSerializedTransactionBuilder. by rewrite Hj.
Qed.

End SnapshotProperties.

(** C2, as the code has it. [serialize] fails with 'All input values must
    be provided before serializing.', and gives no snapshot, when some
    input has no value ([undefined] or [null]), and it fails with that
    error only when some input is not resolved: the inputs of a builder
    whose inputs are all resolved pass the test, which is one of
    truthiness. *)
Theorem serialize_needs_provided_values {Param ObjectData : Type}
    `{Collaborators Param ObjectData} `{SnapshotCollaborators} (t : Transaction) :
  ((exists i, i ∈ inputs t
              /\ (value i = Unresolved RUndefined \/ value i = Unresolved RNull)) ->
   serialize t = Err AllInputValuesMustBeProvided)
  /\ (serialize t = Err AllInputValuesMustBeProvided ->
      exists i, i ∈ inputs t /\ isBuilderCallArg (value i) = false)
  /\ (allResolved (inputs t) = true ->
      forall i, i ∈ inputs t -> truthy (value i) = true).
Proof.
  rewrite serialize_guard.
  split; [|split].
  - intros (i & Hi & Hv).
    apply not_true_is_false. intros Hall. rewrite forallb_forall in Hall.
    apply list_elem_of_In in Hi. apply Hall in Hi.
    destruct Hv as [Hv|Hv]; rewrite Hv in Hi; discriminate.
  - intros Eall.
    induction (inputs t) as [|i l IH]; simpl in Eall; [discriminate|].
    destruct (truthy (value i)) eqn:Ei; simpl in Eall.
    + destruct (IH Eall) as (j & Hj & Hf). exists j. split; [by right | done].
    + exists i. split; [by left|]. by destruct (value i).
  - intros Hres i Hi. apply allResolved_provided in Hres.
    rewrite forallb_forall in Hres. apply Hres. by apply list_elem_of_In.
Qed.

Lemma serialize_needs_provided_values_witness :
  let missing := snd (input (Unresolved RUndefined) Fixture.funded) in
  let resolved := snd (input (Resolved (Pure [x01])) Fixture.funded) in
  serialize missing = Err AllInputValuesMustBeProvided
  /\ (forall i, i ∈ inputs resolved -> truthy (value i) = true).
Proof.
  intros missing resolved. split.
  - destruct (serialize_needs_provided_values missing) as (Hfail & _).
    apply Hfail. exists {| index := 0; value := Unresolved RUndefined |}.
    split; [apply list_elem_of_here | by left].
  - destruct (serialize_needs_provided_values resolved) as (_ & _ & Hok).
    apply Hok. reflexivity.
Defined.

(** C2 as the spec words it fails: an input that holds the raw identifier
    ["0x5"] is not resolved, and [serialize] succeeds. *)
Lemma serialize_accepts_raw_value :
  let t := snd (input (Unresolved (RString "0x5")) Fixture.funded) in
  ~ (isOk (serialize t) = true <-> allResolved (inputs t) = true).
Proof.
  intros t [Hto _]. assert (Hok : isOk (serialize t) = true) by reflexivity.
  apply Hto in Hok. discriminate Hok.
Qed.

(** C1 on a builder with a sender, an expiration and one resolved input:
    the round trip returns the inputs, the commands and the gas config, and
    a builder without sender and without expiration. *)
Theorem restore_drops_sender_and_expiration :
  let t := setExpiration (ExpirationEpoch 5)
             (snd (input (Resolved (Pure [x01])) Fixture.funded)) in
  allResolved (inputs t) = true
  /\ sender t = Some "0x1"
  /\ expiration t = ExpirationEpoch 5
  /\ restore t
     = Ok {| sender := None; expiration := ExpirationUndefined;
             gasConfig := gasConfig t; inputs := inputs t; commands := commands t |}.
Proof. intros t. repeat split. Qed.

(** ** Building twice *)

Section Blind.

Lemma sameButCalls_refl s : sameButCalls s s.
Proof. by repeat split. Qed.

Lemma blind_ret {A} (a : A) : blind (ret a).
Proof. intros s s' Hs. by split. Qed.

Lemma blind_throw {A} (e : Error) : blind (@throw A e).
Proof. intros s s' Hs. by split. Qed.

Lemma blind_liftResult {A} (r : result A) : blind (liftResult r).
Proof. destruct r; [apply blind_ret | apply blind_throw]. Qed.

Lemma blind_call {A} (x : external A) : blind (call x).
Proof. apply blind_liftResult. Qed.

Lemma blind_modifyTx (f : Transaction -> Transaction) : blind (modifyTx f).
Proof. intros s s' (Ht & Hm & Ho). repeat split; simpl; congruence. Qed.

Lemma blind_pushObject id pos : blind (pushObject id pos).
Proof. intros s s' (Ht & Hm & Ho). repeat split; simpl; congruence. Qed.

Lemma blind_pushMoveModule target args : blind (pushMoveModule target args).
Proof. intros s s' (Ht & Hm & Ho). repeat split; simpl; congruence. Qed.

Lemma blind_bind {A B} (m : M A) (k : A -> M B) :
  blind m -> (forall a, blind (k a)) -> blind (bind m k).
Proof.
  intros Hm Hk s s' Hs. unfold bind. destruct (Hm s s' Hs) as [Hr Hs'].
  destruct (m s) as [[a|e] s1], (m s') as [[a'|e'] s1']; simpl in *;
    try discriminate.
  - injection Hr as <-. by apply Hk.
  - injection Hr as <-. by split.
Qed.

(** Reading the builder: what follows sees the same builder on both
    sides. *)
Lemma blind_getTx {B} (k : Transaction -> M B) :
  (forall t, blind (k t)) -> blind (bind getTx k).
Proof.
  intros Hk s s' Hs. unfold bind, getTx. simpl.
  destruct Hs as (Ht & Hm & Ho). rewrite Ht. apply Hk. by repeat split.
Qed.

Lemma blind_forEach {A} (f : A -> M unit) (l : list A) :
  (forall a, blind (f a)) -> blind (forEach f l).
Proof.
  intros Hf. induction l as [|a l IH]; simpl.
  - apply blind_ret.
  - apply blind_bind; auto.
Qed.

End Blind.

Section Idempotence.

Context {Param ObjectData : Type} `{Collaborators Param ObjectData}.

Lemma fixes_refl s : fixes s s.
Proof. by intros _. Qed.

Lemma fixes_trans a b c : fixes a b -> fixes b c -> fixes a c.
Proof. intros Hab Hbc Ha. specialize (Hab Ha). subst b. by apply Hbc. Qed.

Lemma allResolved_lookup (ins : list TransactionInput) (i : nat) (inp : TransactionInput) :
  allResolved ins = true -> ins !! i = Some inp -> isBuilderCallArg (value inp) = true.
Proof.
  unfold allResolved. rewrite forallb_forall. intros Hall Hi.
  apply Hall. apply list_elem_of_In. by eapply list_elem_of_lookup_2.
Qed.

Lemma needsResolution_allResolved (ins : list TransactionInput) (args : list CommandArgument) :
  allResolved ins = true -> needsResolution ins args <> Ok true.
Proof.
  intros Hall. induction args as [|a args IH]; simpl; [discriminate|].
  destruct a as [i| | |]; try exact IH.
  destruct (ins !! i) as [inp|] eqn:E; [|discriminate].
  by rewrite (allResolved_lookup ins i inp Hall E).
Qed.

Lemma fixes_encodeInput enc idx : preserves fixes (encodeInput enc idx).
Proof.
  intros s (Hall & _). unfold encodeInput, bind, getTx. simpl.
  destruct (inputs (tx s) !! idx) as [inp|] eqn:E; [|reflexivity].
  by rewrite (allResolved_lookup _ idx inp Hall E).
Qed.

Lemma fixes_scanMoveCall target args :
  preserves fixes
    (let* t := getTx in
     let* needs := liftResult (needsResolution (inputs t) args) in
     if needs then pushMoveModule target args else ret tt).
Proof.
  intros s (Hall & _). unfold bind, getTx. simpl.
  pose proof (needsResolution_allResolved _ args Hall) as Hn.
  destruct (needsResolution (inputs (tx s)) args) as [[|]|e]; simpl;
    [congruence | reflexivity | reflexivity].
Qed.

Lemma fixes_scanCommands : preserves fixes scanCommands.
Proof.
  unfold scanCommands, scanCommand, scanField.
  preserving fixes_refl fixes_trans
    ltac:(first [apply fixes_encodeInput | apply fixes_scanMoveCall]).
Qed.

Lemma blind_scanCommands : blind scanCommands.
Proof.
  unfold scanCommands, scanCommand, scanField, encodeInput.
  repeat first
    [ apply blind_getTx; intros ?
    | apply blind_bind; [| intros ?]
    | apply blind_forEach; intros ?
    | apply blind_ret
    | apply blind_throw
    | apply blind_liftResult
    | apply blind_call
    | apply blind_modifyTx
    | apply blind_pushObject
    | apply blind_pushMoveModule
    | match goal with
      | |- blind (if ?b then _ else _) => destruct b
      | |- blind (match ?x with _ => _ end) => destruct x
      | |- blind (let '(_, _) := ?x in _) => destruct x
      end ].
Qed.

Lemma validate_run (s : BuildState) : validate s = (checkRequired (tx s), s).
Proof.
  unfold validate, checkRequired. unfold bind, getTx, throw, ret. simpl.
  repeat (match goal with |- context [if ?b then _ else _] => destruct b end; simpl);
    reflexivity.
Qed.

Lemma assemble_run (s : BuildState) : assemble s = (payload (tx s), s).
Proof. unfold assemble, bind, getTx. simpl. by destruct (payload (tx s)). Qed.

Lemma stringOfZ_truthy (z : Z) : truthyString (Some (stringOfZ z)) = true.
Proof.
  unfold stringOfZ, truthyString. destruct z as [|p|p]; [reflexivity | |].
  - simpl. pose proof (DecimalPos.Unsigned.to_uint_nonnil p) as Hn.
    by destruct (Pos.to_uint p).
  - reflexivity.
Qed.

(** The gas price stage ends with a price in place and touches nothing
    else of the builder. *)
Lemma fillGasPrice_run (provider : option (Provider Param ObjectData)) (s s' : BuildState) :
  fillGasPrice provider s = (Ok tt, s') ->
  truthyString (price (gasConfig (tx s'))) = true
  /\ (truthyString (price (gasConfig (tx s))) = true -> s' = s)
  /\ sender (tx s') = sender (tx s)
  /\ expiration (tx s') = expiration (tx s)
  /\ inputs (tx s') = inputs (tx s)
  /\ commands (tx s') = commands (tx s)
  /\ budget (gasConfig (tx s')) = budget (gasConfig (tx s))
  /\ payment (gasConfig (tx s')) = payment (gasConfig (tx s))
  /\ moveModulesToResolve s' = moveModulesToResolve s
  /\ objectsToResolve s' = objectsToResolve s.
Proof.
  unfold fillGasPrice. unfold bind, getTx. simpl.
  destruct (truthyString (price (gasConfig (tx s)))) eqn:Ep; simpl.
  - intros [= <-]. by rewrite Ep.
  - destruct provider as [p|]; simpl; [|discriminate].
    destruct (getReferenceGasPrice p) as [z|msg]; simpl; [|discriminate].
    intros [= <-]. simpl. split; [exact (stringOfZ_truthy z)|]. repeat split. discriminate.
Qed.

(** On a settled state the three resolution stages change nothing, and
    what is left of the build is the payload of the builder. *)
Lemma settled_build_tail (provider : option (Provider Param ObjectData)) (s : BuildState) :
  settled s ->
  (scanCommands ;; resolveMoveCalls provider ;; resolveObjects provider ;; assemble) s
  = (match fst (scanCommands s) with
     | Ok _ => payload (tx s)
     | Err e => Err e
     end, s).
Proof.
  intros Hs. unfold bind at 1.
  pose proof (fixes_scanCommands s Hs) as Hscan.
  destruct (scanCommands s) as [[u|e] s1]; simpl in *; subst s1; [|reflexivity].
  destruct Hs as (_ & Hm & Ho).
  unfold bind, resolveMoveCalls. rewrite Hm. simpl.
  unfold resolveObjects. rewrite Ho. simpl.
  apply assemble_run.
Qed.

Lemma build_run (provider : option (Provider Param ObjectData)) (s : BuildState) :
  build provider s =
    match checkRequired (tx s) with
    | Err e => (Err e, s)
    | Ok _ =>
        match fillGasPrice provider s with
        | (Err e, s1) => (Err e, s1)
        | (Ok _, s1) =>
            (scanCommands ;; resolveMoveCalls provider ;; resolveObjects provider ;;
             assemble) s1
        end
    end.
Proof.
  unfold build. unfold bind at 1. rewrite validate_run.
  destruct (checkRequired (tx s)); [|reflexivity].
  unfold bind at 1. by destruct (fillGasPrice provider s) as [[[]|e] s1].
Qed.

End Idempotence.

(** C6. When every input of a builder holds a resolved value and a build
    of it gives a payload, a build of the builder as the first build left
    it gives the same bytes, whatever provider either build is given; the
    second build asks the provider nothing and leaves the builder as it
    is. *)
Theorem build_idempotent {Param ObjectData : Type} `{Collaborators Param ObjectData}
    (provider1 provider2 : option (Provider Param ObjectData))
    (t t1 : Transaction) (bytes : list byte) (calls1 : list ProviderCall) :
  allResolved (inputs t) = true ->
  runBuild provider1 t = (Ok bytes, t1, calls1) ->
  runBuild provider2 t1 = (Ok bytes, t1, []).
Proof.
  intros Hres. unfold runBuild. rewrite !build_run. simpl.
  destruct (checkRequired t) as [[]|e] eqn:Ereq; [|intros [=]].
  destruct (fillGasPrice provider1 (startBuild t)) as [[[]|e] s1] eqn:Efill;
    [|intros [=]].
  destruct (fillGasPrice_run _ _ _ Efill)
    as (Hprice & _ & Hsender & _ & Hinputs & _ & Hbudget & Hpayment & Hm & Ho).
  simpl in *.
  assert (Hs1 : settled s1) by (repeat split; congruence).
  rewrite (settled_build_tail provider1 s1 Hs1).
  destruct (fst (scanCommands s1)) as [[]|e] eqn:Escan; [|intros [=]].
  intros [= Hpay <- _].
  assert (Hreq : checkRequired (tx s1) = Ok tt).
  { unfold checkRequired in *. by rewrite Hbudget, Hpayment, Hsender. }
  rewrite Hreq.
  assert (Hfill : fillGasPrice provider2 (startBuild (tx s1)) = (Ok tt, startBuild (tx s1))).
  { unfold fillGasPrice. unfold bind, getTx. simpl. by rewrite Hprice. }
  rewrite Hfill.
  assert (Hs2 : settled (startBuild (tx s1))) by (repeat split; simpl; congruence).
  rewrite (settled_build_tail provider2 _ Hs2).
  assert (Hsame : sameButCalls s1 (startBuild (tx s1))).
  { repeat split; simpl; congruence. }
  destruct (blind_scanCommands _ _ Hsame) as [<- _]. rewrite Escan.
  simpl. by rewrite Hpay.
Qed.

Lemma build_idempotent_witness :
  let t := snd (add (Command "SplitCoin"
                       [("coin", ArgumentValue GasCoin); ("amount", ArgumentValue (Input 0))])
                  (snd (input (Resolved (Pure (Fixture.u64 7))) Fixture.funded))) in
  exists bytes t1 calls1,
    runBuild (Some (Fixture.provider [])) t = (Ok bytes, t1, calls1)
    /\ runBuild None t1 = (Ok bytes, t1, []).
Proof.
  intros t. eexists _, _, _. split; [vm_compute; reflexivity|].
  apply (build_idempotent (Some (Fixture.provider [])) None t _ _
           [CallGetReferenceGasPrice]); reflexivity.
Defined.

(** ** The object batch *)

Section Objects.

Context {Param ObjectData : Type} `{Collaborators Param ObjectData}.

Lemma objectValue_shared (id : string) (object : ObjectData) (v : Z) :
  getSharedObjectInitialVersion object = Some v -> v <> 0%Z ->
  objectValue id object
  = Resolved (Object (Shared {| objectId := id; initialSharedVersion := v;
                                mutable := true |})).
Proof.
  intros Hv Hne. unfold objectValue. rewrite Hv.
  by apply Z.eqb_neq in Hne as ->.
Qed.

Lemma objectValue_owned (id : string) (object : ObjectData) (r : SuiObjectRef) :
  getSharedObjectInitialVersion object = None
  \/ getSharedObjectInitialVersion object = Some 0%Z ->
  getObjectReference object = Some r ->
  objectValue id object = Resolved (Object (ImmOrOwned r)).
Proof. intros [Hv|Hv] Hr; unfold objectValue; by rewrite Hv, Hr. Qed.

Lemma objectValue_unresolved (id : string) (object : ObjectData) :
  unresolvedObject object = true <-> isBuilderCallArg (objectValue id object) = false.
Proof.
  unfold unresolvedObject, objectValue, InputsObjectRef.
  destruct (getSharedObjectInitialVersion object) as [v|];
    [destruct (v =? 0)%Z|]; destruct (getObjectReference object); simpl;
    split; intros E; try done; exfalso; apply E; eauto.
Qed.

Lemma writeBack_nil_objects queue ins : writeBack queue [] ins = ins.
Proof. unfold writeBack. by destruct queue. Qed.

Lemma writeBack_cons id pos queue object objects ins :
  writeBack ((id, pos) :: queue) (object :: objects) ins
  = writeBack queue objects (alter (setValue (objectValue id object)) pos ins).
Proof. reflexivity. Qed.

Lemma writeBack_indices queue (objects : list ObjectData) ins :
  map index (writeBack queue objects ins) = map index ins.
Proof.
  revert objects ins. induction queue as [|[id pos] queue IH]; intros [|o objects] ins;
    try reflexivity.
  rewrite writeBack_cons, IH. apply map_index_alter.
Qed.

(** A position no entry names keeps its input. *)
Lemma writeBack_other queue (objects : list ObjectData) ins (pos : nat) :
  (forall e, e ∈ queue -> snd e <> pos) ->
  writeBack queue objects ins !! pos = ins !! pos.
Proof.
  revert objects ins. induction queue as [|[id p] queue IH]; intros [|o objects] ins Hq;
    try reflexivity.
  rewrite writeBack_cons, IH.
  - apply list_lookup_alter_ne. apply (Hq (id, p)). by left.
  - intros e He. apply Hq. by right.
Qed.

(** The last entry that names a position decides what the input holds. *)
Lemma writeBack_last queue (objects : list ObjectData) ins
    (i : nat) (id : string) (pos : nat) (object : ObjectData) :
  queue !! i = Some (id, pos) ->
  objects !! i = Some object ->
  (forall j e, i < j -> queue !! j = Some e -> snd e <> pos) ->
  writeBack queue objects ins !! pos
  = setValue (objectValue id object) <$> ins !! pos.
Proof.
  revert objects ins i.
  induction queue as [|[id' p] queue IH]; intros [|o objects] ins [|i] Hq Ho Hlast;
    try discriminate.
  - simpl in Hq, Ho. injection Hq as -> ->. injection Ho as ->.
    rewrite writeBack_cons, writeBack_other.
    + apply list_lookup_alter_eq.
    + intros e He. apply list_elem_of_lookup in He as [j Hj].
      apply (Hlast (S j) e); [lia | exact Hj].
  - simpl in Hq, Ho. rewrite writeBack_cons, (IH objects _ i Hq Ho).
    + destruct (decide (p = pos)) as [->|Hne].
      * rewrite list_lookup_alter_eq. by destruct (ins !! pos).
      * by rewrite list_lookup_alter_ne.
    + intros j e Hj He. apply (Hlast (S j) e); [lia | exact He].
Qed.

(** The loop of stage 5 over a batch that is not longer than the queue. *)
Lemma forEachFrom_writeObject queue (objects : list ObjectData) (i : nat) (s : BuildState) :
  i + length objects <= length queue ->
  forEachFrom i (writeObject queue) objects s
  = (Ok tt,
     {| tx := withInputs (writeBack (drop i queue) objects (inputs (tx s))) (tx s);
        calls := calls s;
        moveModulesToResolve := moveModulesToResolve s;
        objectsToResolve := objectsToResolve s |}).
Proof.
  revert i s. induction objects as [|o objects IH]; intros i s Hlen; simpl.
  - rewrite writeBack_nil_objects. by destruct s as [[] ? ? ?].
  - simpl in Hlen. unfold bind, writeObject at 1.
    destruct (queue !! i) as [[id pos]|] eqn:E.
    2: { apply lookup_ge_None in E. lia. }
    simpl. rewrite IH by lia. simpl.
    rewrite (drop_S queue (id, pos) i E), writeBack_cons. reflexivity.
Qed.

(** A batch longer than the queue ends in a TypeError. *)
Lemma forEachFrom_writeObject_long queue (objects : list ObjectData) (i : nat) (s : BuildState) :
  i <= length queue ->
  length queue < i + length objects ->
  fst (forEachFrom i (writeObject queue) objects s) = Err TypeError.
Proof.
  revert i s. induction objects as [|o objects IH]; intros i s Hi Hlen; simpl in *; [lia|].
  unfold bind, writeObject at 1.
  destruct (queue !! i) as [[id pos]|] eqn:E; simpl; [|reflexivity].
  apply lookup_lt_Some in E. apply IH; lia.
Qed.

Lemma resolveObjects_run (p : Provider Param ObjectData) (s : BuildState)
    (objects : list ObjectData) :
  objectsToResolve s <> [] ->
  getObjectBatch p (map fst (objectsToResolve s)) = Returns objects ->
  length objects <= length (objectsToResolve s) ->
  resolveObjects (Some p) s
  = (Ok tt,
     {| tx := withInputs (writeBack (objectsToResolve s) objects (inputs (tx s))) (tx s);
        calls := calls s ++ [CallGetObjectBatch (map fst (objectsToResolve s))];
        moveModulesToResolve := moveModulesToResolve s;
        objectsToResolve := objectsToResolve s |}).
Proof.
  intros Hne Hbatch Hlen. unfold resolveObjects.
  destruct (objectsToResolve s) as [|e queue] eqn:Eq; [done|].
  unfold bind, expectProvider, ret, logCall, call. rewrite Hbatch. simpl liftResult.
  unfold ret. rewrite forEachFrom_writeObject by (simpl in *; lia).
  simpl. rewrite Eq. reflexivity.
Qed.

(** A batch longer than the queue fails stage 5. *)
Lemma resolveObjects_long (p : Provider Param ObjectData) (s : BuildState)
    (objects : list ObjectData) :
  objectsToResolve s <> [] ->
  getObjectBatch p (map fst (objectsToResolve s)) = Returns objects ->
  length (objectsToResolve s) < length objects ->
  fst (resolveObjects (Some p) s) = Err TypeError.
Proof.
  intros Hne Hbatch Hlen. unfold resolveObjects.
  destruct (objectsToResolve s) as [|e queue] eqn:Eq; [done|].
  unfold bind, expectProvider, ret, logCall, call. rewrite Hbatch. simpl liftResult.
  unfold ret. apply forEachFrom_writeObject_long; simpl in *; lia.
Qed.

End Objects.

(** C8. When the batch for the queued identifiers comes back with one
    object for each, stage 5 asks once, for the identifiers in the order of
    the queue, and makes the writes of [writeBack]: entry [i] of the queue
    receives object [i]. The input an entry came from holds the value of
    that entry's object, unless a later entry names the same input; inputs
    no entry names are as before, and no index changes. The value written
    is a shared-object ref with the mutable flag set when the object has an
    initial shared version, and an owned-object ref of its reference
    otherwise. *)
Theorem object_results_land_positionally {Param ObjectData : Type}
    `{Collaborators Param ObjectData}
    (p : Provider Param ObjectData) (s : BuildState) (objects : list ObjectData) :
  objectsToResolve s <> [] ->
  getObjectBatch p (map fst (objectsToResolve s)) = Returns objects ->
  length objects = length (objectsToResolve s) ->
  let queue := objectsToResolve s in
  let s' := snd (resolveObjects (Some p) s) in
  fst (resolveObjects (Some p) s) = Ok tt
  /\ calls s' = calls s ++ [CallGetObjectBatch (map fst queue)]
  /\ inputs (tx s') = writeBack queue objects (inputs (tx s))
  /\ (forall i id pos object,
        queue !! i = Some (id, pos) -> objects !! i = Some object ->
        (forall j e, i < j -> queue !! j = Some e -> snd e <> pos) ->
        inputs (tx s') !! pos
        = setValue (objectValue id object) <$> inputs (tx s) !! pos)
  /\ (forall pos, (forall e, e ∈ queue -> snd e <> pos) ->
        inputs (tx s') !! pos = inputs (tx s) !! pos)
  /\ map index (inputs (tx s')) = map index (inputs (tx s))
  /\ (forall id object v,
        getSharedObjectInitialVersion object = Some v -> v <> 0%Z ->
        objectValue id object
        = Resolved (Object (Shared {| objectId := id; initialSharedVersion := v;
                                      mutable := true |})))
  /\ (forall id object r,
        getSharedObjectInitialVersion object = None ->
        getObjectReference object = Some r ->
        objectValue id object = Resolved (Object (ImmOrOwned r))).
Proof.
  intros Hne Hbatch Hlen queue s'. subst queue s'.
  rewrite (resolveObjects_run p s objects Hne Hbatch) by lia. simpl.
  repeat split.
  - intros i id pos object Hq Ho Hlast. by apply writeBack_last with (i := i).
  - intros pos Hq. by apply writeBack_other.
  - apply writeBack_indices.
  - intros id object v. apply objectValue_shared.
  - intros id object r Hv. apply objectValue_owned. by left.
Qed.

(** Three identifiers queued by three inputs, with an object table in
    another order: each input receives the reference of its own
    identifier. *)
Lemma object_results_land_positionally_witness :
  let t :=
    snd (add (Command "MergeCoins"
                [("destination", ArgumentValue (Input 0));
                 ("sources", ArgumentArray [Input 1; Input 2])])
           (snd (input (Unresolved (RString "0xc"))
                   (snd (input (Unresolved (RString "0xb"))
                           (snd (input (Unresolved (RString "0xa")) Fixture.funded))))))) in
  let p := Fixture.provider
             [("0xc", Fixture.Exists (Fixture.ref "0xc" 3) None);
              ("0xa", Fixture.Exists (Fixture.ref "0xa" 1) (Some 9%Z));
              ("0xb", Fixture.Exists (Fixture.ref "0xb" 2) None)] in
  let s := snd (queueing (Some p) (startBuild t)) in
  objectsToResolve s = [("0xa", 0); ("0xb", 1); ("0xc", 2)]
  /\ map value (inputs (tx (snd (resolveObjects (Some p) s))))
     = [Resolved (Object (Shared {| objectId := "0xa"; initialSharedVersion := 9;
                                    mutable := true |}));
        Resolved (Object (ImmOrOwned (Fixture.ref "0xb" 2)));
        Resolved (Object (ImmOrOwned (Fixture.ref "0xc" 3)))].
Proof.
  intros t p s. split; [reflexivity|].
  destruct (object_results_land_positionally p s
              [Fixture.Exists (Fixture.ref "0xa" 1) (Some 9%Z);
               Fixture.Exists (Fixture.ref "0xb" 2) None;
               Fixture.Exists (Fixture.ref "0xc" 3) None])
    as (_ & _ & Hw & _); [discriminate | reflexivity | reflexivity |].
  rewrite Hw. reflexivity.
Defined.

(** ** An object that does not resolve *)

Section LookupFailure.

Context {Param ObjectData : Type} `{Collaborators Param ObjectData}.

Lemma keepsQueueValid_refl s : keepsQueueValid s s.
Proof. by intros ?. Qed.

Lemma keepsQueueValid_trans a b c :
  keepsQueueValid a b -> keepsQueueValid b c -> keepsQueueValid a c.
Proof. unfold keepsQueueValid. auto. Qed.

Lemma queueValid_start (t : Transaction) : queueValid (startBuild t).
Proof. intros id pos Hin. simpl in Hin. by apply elem_of_nil in Hin. Qed.

Lemma queueValid_writeInput pos v :
  preserves keepsQueueValid (modifyTx (writeInput pos v)).
Proof.
  intros s Hq id p Hin. simpl in *. destruct (Hq id p Hin) as [inp Hinp].
  destruct (decide (pos = p)) as [->|Hne].
  - rewrite list_lookup_alter_eq, Hinp. by eexists.
  - rewrite list_lookup_alter_ne by done. by eexists.
Qed.

Lemma queueValid_pushObject id pos (s : BuildState) :
  is_Some (inputs (tx s) !! pos) -> queueValid s ->
  queueValid (snd (pushObject id pos s)).
Proof.
  intros Hpos Hq id' p Hin. simpl in *.
  apply elem_of_app in Hin as [Hin|Hin]; [by apply (Hq id')|].
  apply list_elem_of_singleton in Hin. by injection Hin as -> ->.
Qed.

Lemma queueValid_encodeInput enc idx : preserves keepsQueueValid (encodeInput enc idx).
Proof.
  intros s Hq. unfold encodeInput. unfold bind, getTx. simpl.
  destruct (inputs (tx s) !! idx) as [inp|] eqn:E; [|exact Hq].
  destruct (isBuilderCallArg (value inp)); [exact Hq|].
  destruct enc as [|type].
  - destruct (isString (value inp)) as [id|]; [|exact Hq].
    apply queueValid_pushObject; [by eexists | exact Hq].
  - destruct (InputsPure type (value inp)) as [v|e]; simpl; [|exact Hq].
    by apply (queueValid_writeInput idx v s).
Qed.

Lemma queueValid_resolveParameter param arg :
  preserves keepsQueueValid (resolveParameter param arg).
Proof.
  intros s Hq. unfold resolveParameter.
  destruct arg as [[idx| | |]|]; try exact Hq.
  unfold bind, getTx, inputIsBuilderCallArg. simpl.
  destruct (inputs (tx s) !! idx) as [inp|] eqn:E; [|exact Hq].
  destruct (getPureSerializationType param (value inp)) as [serType|msg]; simpl;
    [|exact Hq].
  destruct (truthyString serType).
  - destruct (InputsPure (default "" serType) (value inp)) as [v|e]; simpl; [|exact Hq].
    by apply (queueValid_writeInput idx v s).
  - destruct (bool_decide (is_Some (extractStructTag param)) || isTypeParameter param);
      [|exact Hq].
    destruct (isString (value inp)) as [id|]; [|exact Hq].
    apply queueValid_pushObject; [by eexists | exact Hq].
Qed.

Lemma queueValid_queueing (provider : option (Provider Param ObjectData)) :
  preserves keepsQueueValid (queueing provider).
Proof.
  unfold queueing, validate, fillGasPrice, scanCommands, scanCommand, scanField.
  preserving keepsQueueValid_refl keepsQueueValid_trans
    ltac:(first [ apply queueValid_encodeInput
                | apply queueValid_writeInput
                | (intros ? Hq; exact Hq) ]).
  unfold resolveMoveCalls. intros s.
  destruct (moveModulesToResolve s) as [|mc q]; [apply keepsQueueValid_refl|].
  revert s. generalize (mc :: q). clear mc q. intros q.
  unfold resolveMoveCall.
  preserving keepsQueueValid_refl keepsQueueValid_trans
    ltac:(first [ apply queueValid_resolveParameter
                | (intros ? Hq; exact Hq) ]).
Qed.

(** A build is stages 1 to 4, then the batch and the payload. *)
Lemma build_split (provider : option (Provider Param ObjectData)) (s : BuildState) :
  build provider s =
    match queueing provider s with
    | (Ok _, s4) => (resolveObjects provider ;; assemble) s4
    | (Err e, s4) => (Err e, s4)
    end.
Proof.
  unfold build, queueing. unfold bind.
  destruct (validate s) as [[u|e] s1]; [|reflexivity].
  destruct (fillGasPrice provider s1) as [[u'|e] s2]; [|reflexivity].
  destruct (scanCommands s2) as [[u''|e] s3]; [|reflexivity].
  destruct (resolveMoveCalls provider s3) as [[u'''|e] s4]; reflexivity.
Qed.

(** The assertion of stage 6 fails as soon as one input holds no call
    arg. *)
Lemma resolvedInputs_unresolved (ins : list TransactionInput) (pos : nat)
    (inp : TransactionInput) :
  ins !! pos = Some inp -> isBuilderCallArg (value inp) = false ->
  resolvedInputs ins = Err StructError.
Proof.
  revert pos. induction ins as [|i ins IH]; intros [|pos] Hpos Hv; try discriminate.
  - simpl in Hpos. injection Hpos as ->. simpl. by destruct (value inp).
  - simpl in *. rewrite (IH pos Hpos Hv). by destruct (value i).
Qed.

Lemma resolvedInputs_allResolved (ins : list TransactionInput) :
  allResolved ins = true <-> isOk (resolvedInputs ins) = true.
Proof.
  induction ins as [|i ins IH]; simpl; [done|].
  destruct (value i); simpl; [done|].
  rewrite IH. by destruct (resolvedInputs ins).
Qed.

(** The provider failing on the batch is the failure of the build. *)
Lemma build_object_batch_throws (p : Provider Param ObjectData) (t : Transaction)
    (s4 : BuildState) (msg : string) :
  queueing (Some p) (startBuild t) = (Ok tt, s4) ->
  objectsToResolve s4 <> [] ->
  getObjectBatch p (map fst (objectsToResolve s4)) = Throws msg ->
  fst (fst (runBuild (Some p) t)) = Err (ExternalError msg).
Proof.
  intros Hq Hne Hbatch. unfold runBuild. rewrite build_split, Hq.
  unfold bind at 1. unfold resolveObjects.
  destruct (objectsToResolve s4) as [|e queue] eqn:Eq; [done|].
  unfold bind, expectProvider, ret, logCall, call. rewrite Hbatch. reflexivity.
Qed.

End LookupFailure.

(** C4, as the code has it. A build that has queued identifiers gives no
    payload when the batch for them fails: when the provider throws, the
    build fails with what it throws; when an identifier's object comes
    back with no initial shared version and no reference, and no later
    entry of the queue writes the same input, the build fails. *)
Theorem unresolved_object_fails_build {Param ObjectData : Type}
    `{Collaborators Param ObjectData}
    (p : Provider Param ObjectData) (t : Transaction) (s4 : BuildState) :
  queueing (Some p) (startBuild t) = (Ok tt, s4) ->
  objectsToResolve s4 <> [] ->
  (forall msg,
     getObjectBatch p (map fst (objectsToResolve s4)) = Throws msg ->
     fst (fst (runBuild (Some p) t)) = Err (ExternalError msg))
  /\ (forall (objects : list ObjectData) (i : nat) (id : string) (pos : nat)
             (object : ObjectData),
        getObjectBatch p (map fst (objectsToResolve s4)) = Returns objects ->
        objectsToResolve s4 !! i = Some (id, pos) ->
        objects !! i = Some object ->
        unresolvedObject object = true ->
        (forall j e, i < j -> objectsToResolve s4 !! j = Some e -> snd e <> pos) ->
        isOk (fst (fst (runBuild (Some p) t))) = false).
Proof.
  intros Hq Hne. split.
  { intros msg Hbatch. by apply (build_object_batch_throws p t s4 msg). }
  intros objects i id pos object Hbatch Hi Ho Hun Hlast.
  destruct (decide (length objects <= length (objectsToResolve s4))) as [Hlen|Hlen].
  - assert (Hvalid : queueValid s4).
    { pose proof (queueValid_queueing (Some p) (startBuild t) (queueValid_start t)) as Hv.
      by rewrite Hq in Hv. }
    destruct (Hvalid id pos) as [inp Hinp]; [by eapply list_elem_of_lookup_2|].
    unfold runBuild. rewrite build_split, Hq. unfold bind at 1.
    rewrite (resolveObjects_run p s4 objects Hne Hbatch) by lia.
    rewrite assemble_run. simpl. unfold payload. simpl.
    erewrite resolvedInputs_unresolved; [reflexivity | |].
    + rewrite (writeBack_last _ _ _ i id pos object Hi Ho Hlast), Hinp. reflexivity.
    + simpl. by apply objectValue_unresolved.
  - pose proof (resolveObjects_long p s4 objects Hne Hbatch ltac:(lia)) as Hlong.
    unfold runBuild. rewrite build_split, Hq. unfold bind at 1.
    destruct (resolveObjects (Some p) s4) as [[u|e] s5]; simpl in *;
      [discriminate Hlong | reflexivity].
Qed.

Lemma unresolved_object_fails_build_witness :
  let t :=
    snd (add (MoveCall "0x2::pay::split" [] [Input 0; Input 1])
           (snd (input (Unresolved (RNumber 100))
                   (snd (input (Unresolved (RString "0x5")) Fixture.funded))))) in
  let failing :=
    {| getReferenceGasPrice := Returns 1%Z;
       getNormalizedMoveFunction := getNormalizedMoveFunction (Fixture.provider []);
       getObjectBatch := fun _ => Throws "unreachable" |} in
  isOk (fst (fst (runBuild (Some (Fixture.provider [])) t))) = false
  /\ fst (fst (runBuild (Some failing) t)) = Err (ExternalError "unreachable").
Proof.
  intros t failing. split.
  - destruct (unresolved_object_fails_build (Fixture.provider []) t
                (snd (queueing (Some (Fixture.provider [])) (startBuild t))))
      as [_ Hlookup]; [reflexivity | discriminate |].
    apply (Hlookup [Fixture.NotExists "0x5"] 0 "0x5" 0 (Fixture.NotExists "0x5"));
      try reflexivity.
    intros j e Hj Hq. destruct j as [|[|j]]; [lia | discriminate Hq | discriminate Hq].
  - destruct (unresolved_object_fails_build failing t
                (snd (queueing (Some failing) (startBuild t))))
      as [Hthrows _]; [reflexivity | discriminate |].
    apply Hthrows. reflexivity.
Defined.

(** C4 as the spec words it fails: a build whose queued identifier does
    not resolve and a build with an input that no command uses, and that
    asks for no object at all, fail with the same error. *)
Lemma lookup_failure_is_not_distinguished :
  let lookup :=
    snd (add (MoveCall "0x2::pay::split" [] [Input 0; Input 1])
           (snd (input (Unresolved (RNumber 100))
                   (snd (input (Unresolved (RString "0x5")) Fixture.funded))))) in
  let dangling := snd (input (Unresolved (RNumber 100)) Fixture.funded) in
  runBuild (Some (Fixture.provider [])) lookup
  = (Err StructError,
     withGasConfig (withPrice "1" (gasConfig lookup))
       (withInputs [ {| index := 0; value := Unresolved RObject |};
                     {| index := 1; value := Resolved (Pure (Fixture.u64 100)) |} ]
          lookup),
     [CallGetReferenceGasPrice; CallGetNormalizedMoveFunction "0x2::pay::split";
      CallGetObjectBatch ["0x5"]])
  /\ runBuild (Some (Fixture.provider [])) dangling
     = (Err StructError,
        withGasConfig (withPrice "1" (gasConfig dangling)) dangling,
        [CallGetReferenceGasPrice])
  /\ ~ (fst (fst (runBuild (Some (Fixture.provider [])) lookup))
        <> fst (fst (runBuild (Some (Fixture.provider [])) dangling))).
Proof.
  intros lookup dangling. split; [reflexivity | split; [reflexivity|]].
  intros Hne. apply Hne. reflexivity.
Qed.

(** ** Inputs that are already resolved *)

Section ResolvedInputs.

Context {Param ObjectData : Type} `{Collaborators Param ObjectData}.

Lemma keepsResolved_refl s : keepsResolved s s.
Proof. by intros ? ? ? ?. Qed.

Lemma keepsResolved_trans a b c :
  keepsResolved a b -> keepsResolved b c -> keepsResolved a c.
Proof. intros Hab Hbc pos inp Hpos Hres. apply Hbc; [by apply Hab | done]. Qed.

(** The well-known scan: [encodeInput] returns at once on a resolved
    input. *)
Lemma encodeInput_skips_resolved enc idx (s : BuildState) (inp : TransactionInput) :
  inputs (tx s) !! idx = Some inp -> isBuilderCallArg (value inp) = true ->
  encodeInput enc idx s = (Ok tt, s).
Proof.
  intros Hidx Hres. unfold encodeInput. unfold bind, getTx. simpl.
  by rewrite Hidx, Hres.
Qed.

Lemma keepsResolved_encodeInput enc idx : preserves keepsResolved (encodeInput enc idx).
Proof.
  intros s pos inp Hpos Hres. unfold encodeInput. unfold bind, getTx. simpl.
  destruct (inputs (tx s) !! idx) as [inp'|] eqn:E; [|exact Hpos].
  destruct (isBuilderCallArg (value inp')) eqn:Eres; [exact Hpos|].
  destruct enc as [|type].
  - by destruct (isString (value inp')).
  - destruct (InputsPure type (value inp')) as [v|e]; simpl; [|exact Hpos].
    rewrite list_lookup_alter_ne; [exact Hpos|]. intros ->. congruence.
Qed.

(** The whole scan of stage 3 leaves every resolved input as it is. *)
Lemma keepsResolved_scanCommands : preserves keepsResolved scanCommands.
Proof.
  unfold scanCommands, scanCommand, scanField.
  preserving keepsResolved_refl keepsResolved_trans
    ltac:(first [ apply keepsResolved_encodeInput
                | (intros ? ? ? Hpos ?; exact Hpos) ]).
Qed.

(** Stage 4 on an argument whose input is resolved: the test made on the
    input object does not hold, so the value goes to
    [getPureSerializationType] like a raw one; the step fails, or it
    replaces the value by a new encoding of the call arg. *)
Lemma resolveParameter_resolved_input (param : Param) (idx : nat) (s : BuildState)
    (inp : TransactionInput) (c : BuilderCallArg) :
  inputs (tx s) !! idx = Some inp -> value inp = Resolved c ->
  resolveParameter param (Some (Input idx)) s =
    match getPureSerializationType param (Resolved c) with
    | Throws msg => (Err (ExternalError msg), s)
    | Returns serType =>
        if truthyString serType then
          match serPure (default "" serType) (Resolved c) with
          | Returns bytes =>
              (Ok tt, snd (modifyTx (writeInput idx (Resolved (Pure bytes))) s))
          | Throws msg => (Err (ExternalError msg), s)
          end
        else if bool_decide (is_Some (extractStructTag param)) || isTypeParameter param
             then (Err ExpectObjectIdString, s)
             else (Err UnknownCallArgType, s)
    end.
Proof.
  intros Hidx Hv. unfold resolveParameter. unfold bind, getTx, inputIsBuilderCallArg.
  simpl. rewrite Hidx, Hv.
  destruct (getPureSerializationType param (Resolved c)) as [serType|msg]; simpl;
    [|reflexivity].
  destruct (truthyString serType).
  - unfold InputsPure. by destruct (serPure (default "" serType) (Resolved c)).
  - by destruct (bool_decide (is_Some (extractStructTag param)) || isTypeParameter param).
Qed.

End ResolvedInputs.

(** C3 at two Move calls whose first argument is an input that already
    holds a call arg and whose second is a raw number, which sends the call
    to stage 4. Stage 4 examines the resolved input like a raw one. For
    [rename(String, u64, &mut TxContext)] it encodes the call arg again:
    the input that held the bytes of ["alice"] holds the bytes of the text
    of an object after the build, and the build gives a payload. For
    [split(Coin, u64, &mut TxContext)] the build ends with 'Expect the
    argument to be an object id string'. With the second input resolved
    too, the call is not examined and the first input is as it was. *)
Theorem move_call_examines_resolved_input :
  let p := Some (Fixture.provider []) in
  let name := Resolved (Pure (list_byte_of_string "alice")) in
  let coin := Resolved (Object (ImmOrOwned (Fixture.ref "0x5" 7))) in
  let amount := Resolved (Pure (Fixture.u64 100)) in
  let rename := MoveCall "0x2::profile::rename" [] [Input 0; Input 1] in
  let split := MoveCall "0x2::pay::split" [] [Input 0; Input 1] in
  let build first second call :=
    runBuild p (snd (add call (snd (input second (snd (input first Fixture.funded)))))) in
  (isOk (fst (fst (build name (Unresolved (RNumber 7)) rename))) = true
   /\ map value (inputs (snd (fst (build name (Unresolved (RNumber 7)) rename))))
      = [Resolved (Pure (list_byte_of_string "[object Object]"));
         Resolved (Pure (Fixture.u64 7))])
  /\ fst (fst (build coin (Unresolved (RNumber 100)) split)) = Err ExpectObjectIdString
  /\ (isOk (fst (fst (build name amount rename))) = true
      /\ map value (inputs (snd (fst (build name amount rename)))) = [name; amount]).
Proof. repeat split. Qed.

(** * Further properties *)

(** ** Destructuring a result reference *)

Section Destructuring.

Import TransactionResult.

Lemma iterateFrom_spec (n j : nat) (r : t) :
  memoOk r ->
  fst (iterateFrom j n r) = map (NestedResult (target_index r)) (seq j n)
  /\ target_index (snd (iterateFrom j n r)) = target_index r
  /\ memoOk (snd (iterateFrom j n r)).
Proof.
  revert j r. induction n as [|n IH]; intros j r Hr; simpl; [done|].
  destruct (nestedResultFor_spec r j Hr) as (Hf & Hi & Hm & _).
  destruct (nestedResultFor r j) as [a r1]. simpl in *.
  destruct (IH (S j) r1 Hm) as (Hl & Hi' & Hm').
  destruct (iterateFrom (S j) n r1) as [l r2]. simpl in *.
  rewrite Hf, Hl, Hi', Hi. done.
Qed.

End Destructuring.

(** X1. Destructuring a result reference bound to command [i], after any
    reads, gives the nested results of positions 0, 1, ... in order, and
    the reference answers every later read of a position [k] with
    [NestedResult i k]. *)
Theorem destructure_reference (i : nat) (ps : list TransactionResult.Property) (n k : nat) :
  let r := TransactionResult.after ps (TransactionResult.createTransactionResult i) in
  fst (TransactionResult.destructure n r) = map (NestedResult i) (seq 0 n)
  /\ fst (TransactionResult.get (snd (TransactionResult.destructure n r))
            (TransactionResult.Key (TransactionResult.indexKey k)))
     = TransactionResult.GotArgument (NestedResult i k).
Proof.
  intros r. destruct (after_keeps ps _ (memoOk_create i)) as [Hi Hm].
  fold r in Hi, Hm. simpl in Hi.
  destruct (iterateFrom_spec n 0 r Hm) as (Hl & Hi' & Hm').
  unfold TransactionResult.destructure. split.
  - by rewrite Hl, Hi.
  - rewrite get_indexKey by exact Hm'. simpl. by rewrite Hi', Hi.
Qed.

(** ** The parameters a caller supplies *)

(** X2. The parameters counted against the arguments of a Move call are
    the fetched ones without at most one parameter, the last, and only a
    [TxContext] is left out; a [TxContext] that is not the last parameter
    is counted. *)
Theorem suppliedParameters_prefix {Param ObjectData : Type}
    `{Collaborators Param ObjectData} (parameters : list Param) :
  exists dropped,
    parameters = suppliedParameters parameters ++ dropped
    /\ length dropped <= 1
    /\ Forall (fun p => isTxContext p = true) dropped.
Proof.
  unfold suppliedParameters.
  destruct (last parameters) as [p|] eqn:El.
  - destruct (isTxContext p) eqn:Ep.
    + apply last_Some in El as [ps ->]. rewrite length_app. simpl.
      replace (0 <? length ps + 1)%nat with true by (symmetry; apply Nat.ltb_lt; lia).
      simpl. replace (length ps + 1 - 1) with (length ps) by lia.
      rewrite take_app_length. exists [p]. repeat split; [simpl; lia|].
      by constructor.
    + rewrite andb_false_r. exists []. rewrite app_nil_r. repeat split; auto.
  - rewrite andb_false_r. exists []. rewrite app_nil_r. repeat split; auto.
Qed.

(** ** Snapshots of any builder *)

(** X3. For every builder [serialize] accepts and whose inputs, commands
    and payment JSON carries (the structs read each of them back from its
    text as it was; an input that holds an object other than a call arg is
    left out), with resolved inputs or not, [from] accepts the snapshot,
    and the builder it returns has the inputs, the commands and the gas
    config of the original and is the one the copy constructor gives;
    restoring the restored builder returns it unchanged. *)
Theorem restore_round_trip {Param ObjectData : Type} `{Collaborators Param ObjectData}
    `{SnapshotCollaborators} (t : Transaction) (s : Serialized) :
  carried t ->
  serialize t = Ok s ->
  exists t',
    from s = Ok t'
    /\ inputs t' = inputs t
    /\ commands t' = commands t
    /\ gasConfig t' = gasConfig t
    /\ t' = construct (Some t)
    /\ restore t' = Ok t'.
Proof.
  intros Hc Hs. pose proof (restore_cases t Hc) as Hr. unfold restore in Hr.
  rewrite Hs in Hr. eexists. split; [exact Hr|]. repeat split.
  assert (Hc' : carried (construct (Some t))) by exact Hc.
  assert (Hs' : serialize (construct (Some t)) = serialize t) by reflexivity.
  change (restore (construct (Some t)) = Ok (construct (Some t))).
  by rewrite (restore_cases _ Hc'), Hs', Hs.
Qed.

Lemma restore_round_trip_witness :
  let t := snd (add (MoveCall "0x2::pay::split" [] [Input 0; Input 1])
             (snd (input (Unresolved (RNumber 100))
                     (snd (input (Unresolved (RString "0x5")) Fixture.funded))))) in
  exists s t',
    serialize t = Ok s
    /\ from s = Ok t'
    /\ inputs t' = inputs t
    /\ commands t' = commands t
    /\ gasConfig t' = gasConfig t
    /\ t' = construct (Some t)
    /\ restore t' = Ok t'.
Proof.
  intros t.
  assert (Hc : carried t).
  { repeat split; repeat constructor; try discriminate;
      intros j Hj; injection Hj as <-; reflexivity. }
  assert (Hs : exists s, serialize t = Ok s) by (eexists; vm_compute; reflexivity).
  destruct Hs as [s Hs].
  destruct (restore_round_trip t s Hc Hs) as (t' & H1 & H2 & H3 & H4 & H5 & H6).
  exists s, t'. repeat split; assumption.
Defined.

(** ** Index and position *)

Lemma indexed_perform (op : Operation) (t : Transaction) :
  indexed t -> indexed (perform op t).
Proof.
  unfold indexed. intros Ht. destruct op; simpl; try exact Ht.
  rewrite map_app, length_app, seq_app, Ht. reflexivity.
Qed.

(** X4. In a builder made from an empty one by the operations of the
    class, every input has its position in the list as its index, and a
    build, whether it fails or not, keeps it so. *)
Theorem indexed_builder {Param ObjectData : Type} `{Collaborators Param ObjectData}
    (ops : list Operation) (provider : option (Provider Param ObjectData)) :
  let t := performAll ops newTransaction in
  indexed t /\ indexed (runBuild provider t).1.2.
Proof.
  intros t.
  assert (Ht : indexed t).
  { subst t. assert (G : forall t0, indexed t0 -> indexed (performAll ops t0)).
    { induction ops as [|op ops IH]; intros t0 H0; simpl; [done|].
      apply IH. by apply indexed_perform. }
    apply G. reflexivity. }
  split; [exact Ht|].
  unfold runBuild. pose proof (samePositions_build provider (startBuild t)) as [_ Hi].
  destruct (build provider (startBuild t)) as [r s]. simpl in *.
  unfold indexed in *.
  assert (Hlen : length (inputs (tx s)) = length (inputs t)).
  { rewrite <- (length_map index (inputs (tx s))), Hi. apply length_map. }
  by rewrite Hi, Ht, Hlen.
Qed.

(** ** What a build changes *)

Section Frame.

Context {Param ObjectData : Type} `{Collaborators Param ObjectData}.

Lemma sameFrame_refl s : sameFrame s s.
Proof. by repeat split. Qed.

Lemma sameFrame_trans a b c : sameFrame a b -> sameFrame b c -> sameFrame a c.
Proof.
  intros (H1 & H2 & H3 & H4 & H5 & H6 & H7 & H8) (G1 & G2 & G3 & G4 & G5 & G6 & G7 & G8).
  repeat split; try congruence.
  intros Hp. rewrite G8, H8; [done | done |]. by rewrite H8.
Qed.

Lemma sameFrame_writeInput pos v : preserves sameFrame (modifyTx (writeInput pos v)).
Proof. intros s. repeat split. simpl. apply map_index_alter. Qed.

Lemma sameFrame_fillGasPrice (provider : option (Provider Param ObjectData)) :
  preserves sameFrame (fillGasPrice provider).
Proof.
  intros s. unfold fillGasPrice. unfold bind, getTx. simpl.
  destruct (truthyString (price (gasConfig (tx s)))) eqn:Ep; simpl;
    [apply sameFrame_refl|].
  destruct provider as [p|]; simpl; [|apply sameFrame_refl].
  destruct (getReferenceGasPrice p); simpl; repeat split; simpl; congruence.
Qed.

Ltac frame := preserving sameFrame_refl sameFrame_trans
  ltac:(first [ apply sameFrame_fillGasPrice
              | apply sameFrame_writeInput
              | (intros ?; repeat split; done) ]).

Lemma sameFrame_scanCommands : preserves sameFrame scanCommands.
Proof. unfold scanCommands, scanCommand, scanField, encodeInput. frame. Qed.

Lemma sameFrame_resolveMoveCalls (provider : option (Provider Param ObjectData)) :
  preserves sameFrame (resolveMoveCalls provider).
Proof.
  unfold resolveMoveCalls. intros s.
  destruct (moveModulesToResolve s) as [|mc q]; [apply sameFrame_refl|].
  revert s. generalize (mc :: q). clear mc q. intros q.
  unfold resolveMoveCall, resolveParameter. frame.
Qed.

Lemma sameFrame_resolveObjects (provider : option (Provider Param ObjectData)) :
  preserves sameFrame (resolveObjects provider).
Proof.
  unfold resolveObjects. intros s.
  destruct (objectsToResolve s) as [|o q]; [apply sameFrame_refl|].
  revert s. generalize (o :: q). clear o q. intros q.
  unfold writeObject. frame.
Qed.

Lemma sameFrame_build (provider : option (Provider Param ObjectData)) :
  preserves sameFrame (build provider).
Proof.
  unfold build, validate, assemble.
  preserving sameFrame_refl sameFrame_trans
    ltac:(first [ apply sameFrame_fillGasPrice
                | apply sameFrame_scanCommands
                | apply sameFrame_resolveMoveCalls
                | apply sameFrame_resolveObjects ]).
Qed.

(** Stages that make no request. *)
Lemma sameCalls_refl s : sameCalls s s.
Proof. done. Qed.

Lemma sameCalls_trans a b c : sameCalls a b -> sameCalls b c -> sameCalls a c.
Proof. unfold sameCalls. congruence. Qed.

Ltac quiet := preserving sameCalls_refl sameCalls_trans ltac:(intros ?; reflexivity).

Lemma sameCalls_scanCommands : preserves sameCalls scanCommands.
Proof. unfold scanCommands, scanCommand, scanField, encodeInput. quiet. Qed.

Lemma sameCalls_resolveMoveCall parameters args :
  preserves sameCalls (resolveMoveCall parameters args).
Proof. unfold resolveMoveCall, resolveParameter. quiet. Qed.

Lemma sameCalls_writeObjects queue (objects : list ObjectData) i :
  preserves sameCalls (forEachFrom i (writeObject queue) objects).
Proof. unfold writeObject. quiet. Qed.

(** Without a provider, a stage that ends well has asked for nothing and,
    for stages 2, 4 and 5, done nothing. *)
Lemma fillGasPrice_truthy (provider : option (Provider Param ObjectData)) (s : BuildState) :
  truthyString (price (gasConfig (tx s))) = true ->
  fillGasPrice provider s = (Ok tt, s).
Proof. intros Hp. unfold fillGasPrice. unfold bind, getTx. simpl. by rewrite Hp. Qed.

Lemma fillGasPrice_offline (s s' : BuildState) (u : unit) :
  fillGasPrice (Param := Param) (ObjectData := ObjectData) None s = (Ok u, s') ->
  truthyString (price (gasConfig (tx s))) = true /\ s' = s.
Proof.
  unfold fillGasPrice. unfold bind, getTx. simpl.
  destruct (truthyString (price (gasConfig (tx s)))); simpl; [|discriminate].
  by intros [= _ <-].
Qed.

Lemma resolveMoveCalls_offline (s s' : BuildState) (u : unit) :
  resolveMoveCalls None s = (Ok u, s') -> moveModulesToResolve s = [] /\ s' = s.
Proof.
  unfold resolveMoveCalls. destruct (moveModulesToResolve s); simpl; [|discriminate].
  by intros [= _ <-].
Qed.

Lemma resolveMoveCalls_empty (provider : option (Provider Param ObjectData)) (s : BuildState) :
  moveModulesToResolve s = [] -> resolveMoveCalls provider s = (Ok tt, s).
Proof. intros E. unfold resolveMoveCalls. by rewrite E. Qed.

Lemma resolveObjects_offline (s s' : BuildState) (u : unit) :
  resolveObjects None s = (Ok u, s') -> objectsToResolve s = [] /\ s' = s.
Proof.
  unfold resolveObjects. destruct (objectsToResolve s); simpl; [|discriminate].
  by intros [= _ <-].
Qed.

Lemma resolveObjects_empty (provider : option (Provider Param ObjectData)) (s : BuildState) :
  objectsToResolve s = [] -> resolveObjects provider s = (Ok tt, s).
Proof. intros E. unfold resolveObjects. by rewrite E. Qed.

(** The tail of a build, stage by stage. *)
Lemma build_stages (provider : option (Provider Param ObjectData)) (s : BuildState) :
  build provider s =
    match checkRequired (tx s) with
    | Err e => (Err e, s)
    | Ok _ =>
        match fillGasPrice provider s with
        | (Err e, s2) => (Err e, s2)
        | (Ok _, s2) =>
            match scanCommands s2 with
            | (Err e, s3) => (Err e, s3)
            | (Ok _, s3) =>
                match resolveMoveCalls provider s3 with
                | (Err e, s4) => (Err e, s4)
                | (Ok _, s4) =>
                    match resolveObjects provider s4 with
                    | (Err e, s5) => (Err e, s5)
                    | (Ok _, s5) => (payload (tx s5), s5)
                    end
                end
            end
        end
    end.
Proof.
  rewrite build_run. destruct (checkRequired (tx s)); [|reflexivity].
  destruct (fillGasPrice provider s) as [[u|e] s2]; [|reflexivity].
  unfold bind. destruct (scanCommands s2) as [[u3|e] s3]; [|reflexivity].
  destruct (resolveMoveCalls provider s3) as [[u4|e] s4]; [|reflexivity].
  destruct (resolveObjects provider s4) as [[u5|e] s5]; [|reflexivity].
  apply assemble_run.
Qed.

End Frame.

(** X5. A build, whether it fails or not, changes nothing of the builder
    but the values of inputs and a gas price that was missing: the sender,
    the expiration, the budget, the payment and the owner of the gas
    config, the commands, the number of inputs and the index of each are
    as before, and so is a gas price that was set. *)
Theorem build_frame {Param ObjectData : Type} `{Collaborators Param ObjectData}
    (provider : option (Provider Param ObjectData)) (t : Transaction) :
  let t' := (runBuild provider t).1.2 in
  sender t' = sender t
  /\ expiration t' = expiration t
  /\ budget (gasConfig t') = budget (gasConfig t)
  /\ payment (gasConfig t') = payment (gasConfig t)
  /\ owner (gasConfig t') = owner (gasConfig t)
  /\ commands t' = commands t
  /\ length (inputs t') = length (inputs t)
  /\ map index (inputs t') = map index (inputs t)
  /\ (truthyString (price (gasConfig t)) = true ->
      price (gasConfig t') = price (gasConfig t)).
Proof.
  intros t'. subst t'. unfold runBuild.
  pose proof (sameFrame_build provider (startBuild t))
    as (H1 & H2 & H3 & H4 & H5 & H6 & H7 & H8).
  destruct (build provider (startBuild t)) as [r s]. simpl in *.
  repeat split; try assumption.
  rewrite <- (length_map index (inputs (tx s))), H7. apply length_map.
Qed.

Lemma build_frame_witness :
  let t := snd (add (MoveCall "0x2::pay::split" [] [Input 0; Input 1])
             (snd (input (Unresolved (RNumber 100))
                     (snd (input (Unresolved (RString "0x5"))
                             (setGasPrice 5 Fixture.funded)))))) in
  price (gasConfig (runBuild (Some (Fixture.provider [])) t).1.2) = Some "5".
Proof.
  intros t.
  destruct (build_frame (Some (Fixture.provider [])) t) as (_ & _ & _ & _ & _ & _ & _ & _ & Hp).
  rewrite Hp; reflexivity.
Defined.

(** X6. After a build that gives a payload, every input of the builder
    holds a resolved value, the required fields and the gas price are in
    place, and the payload is the codec's output on the builder as the
    build left it. *)
Theorem build_success_resolves {Param ObjectData : Type} `{Collaborators Param ObjectData}
    (provider : option (Provider Param ObjectData)) (t t' : Transaction)
    (bytes : list byte) (log : list ProviderCall) :
  runBuild provider t = (Ok bytes, t', log) ->
  allResolved (inputs t') = true
  /\ payload t' = Ok bytes
  /\ checkRequired t' = Ok tt
  /\ truthyString (price (gasConfig t')) = true.
Proof.
  intros Hb.
  pose proof (build_frame provider t) as (Hs & _ & Hbud & Hpay & _ & _ & _ & _ & _).
  unfold runBuild in *. rewrite build_stages in *. simpl in *.
  destruct (checkRequired t) as [[]|e] eqn:Ereq; [|discriminate Hb].
  destruct (fillGasPrice provider (startBuild t)) as [[[]|e] s2] eqn:E2; [|discriminate Hb].
  destruct (fillGasPrice_run _ _ _ E2) as (Hprice & _).
  destruct (scanCommands s2) as [[[]|e] s3] eqn:E3; [|discriminate Hb].
  destruct (resolveMoveCalls provider s3) as [[[]|e] s4] eqn:E4; [|discriminate Hb].
  destruct (resolveObjects provider s4) as [[[]|e] s5] eqn:E5; [|discriminate Hb].
  injection Hb as Hpay' <- _. simpl in *.
  assert (F23 : sameFrame s2 s3).
  { pose proof (sameFrame_scanCommands s2) as G. by rewrite E3 in G. }
  assert (F34 : sameFrame s3 s4).
  { pose proof (sameFrame_resolveMoveCalls provider s3) as G. by rewrite E4 in G. }
  assert (F45 : sameFrame s4 s5).
  { pose proof (sameFrame_resolveObjects provider s4) as G. by rewrite E5 in G. }
  pose proof (sameFrame_trans _ _ _ (sameFrame_trans _ _ _ F23 F34) F45)
    as (_ & _ & _ & _ & _ & _ & _ & Hp25).
  repeat split.
  - apply resolvedInputs_allResolved. unfold payload in Hpay'.
    by destruct (resolvedInputs (inputs (tx s5))).
  - exact Hpay'.
  - unfold checkRequired in *. by rewrite Hbud, Hpay, Hs.
  - by rewrite (Hp25 Hprice).
Qed.

Lemma build_success_resolves_witness :
  let t := snd (add (MoveCall "0x2::pay::split" [] [Input 0; Input 1])
             (snd (input (Unresolved (RNumber 100))
                     (snd (input (Unresolved (RString "0x5")) Fixture.funded))))) in
  let p := Some (Fixture.provider [("0x5", Fixture.Exists (Fixture.ref "0x5" 7) None)]) in
  allResolved (inputs (runBuild p t).1.2) = true.
Proof.
  intros t p.
  destruct (runBuild p t) as [[r t'] log] eqn:E.
  assert (Hr : exists bytes, r = Ok bytes).
  { assert (Hok : isOk (fst (fst (runBuild p t))) = true) by (vm_compute; reflexivity).
    rewrite E in Hok. simpl in Hok. destruct r; [by eexists | discriminate]. }
  destruct Hr as [bytes ->].
  by destruct (build_success_resolves p t t' bytes log E) as (Hres & _).
Defined.

(** X7. A build that gives a payload without a provider has asked for
    nothing, and with any provider the build of the same builder gives the
    same payload and leaves the same builder, again without a request. *)
Theorem offline_build {Param ObjectData : Type} `{Collaborators Param ObjectData}
    (provider : option (Provider Param ObjectData)) (t t' : Transaction)
    (bytes : list byte) (log : list ProviderCall) :
  runBuild None t = (Ok bytes, t', log) ->
  log = [] /\ runBuild provider t = (Ok bytes, t', []).
Proof.
  unfold runBuild. rewrite !build_stages. simpl.
  destruct (checkRequired t) as [[]|e]; [|intros [=]].
  destruct (fillGasPrice None (startBuild t)) as [[[]|e] s2] eqn:E2; [|intros [=]].
  apply fillGasPrice_offline in E2 as [Hp ->].
  rewrite (fillGasPrice_truthy provider _ Hp).
  pose proof (sameCalls_scanCommands (startBuild t)) as Hc.
  destruct (scanCommands (startBuild t)) as [[[]|e] s3] eqn:E3; [|intros [=]].
  destruct (resolveMoveCalls None s3) as [[[]|e] s4] eqn:E4; [|intros [=]].
  apply resolveMoveCalls_offline in E4 as [Hm ->].
  rewrite (resolveMoveCalls_empty provider _ Hm).
  destruct (resolveObjects None s3) as [[[]|e] s5] eqn:E5; [|intros [=]].
  apply resolveObjects_offline in E5 as [Ho ->].
  rewrite (resolveObjects_empty provider _ Ho).
  simpl in Hc. unfold sameCalls in Hc. simpl in Hc.
  intros [= Hpay <- <-]. rewrite Hpay, Hc. done.
Qed.

Lemma offline_build_witness :
  let t := snd (add (Command "SplitCoin"
                       [("coin", ArgumentValue GasCoin); ("amount", ArgumentValue (Input 0))])
                  (snd (input (Unresolved (RNumber 7)) (setGasPrice 5 Fixture.funded)))) in
  exists bytes t',
    runBuild None t = (Ok bytes, t', [])
    /\ runBuild (Some (Fixture.provider [])) t = (Ok bytes, t', []).
Proof.
  intros t.
  assert (Hb : exists bytes t' log, runBuild (Param := Fixture.MoveType) None t = (Ok bytes, t', log))
    by (eexists _, _, _; vm_compute; reflexivity).
  destruct Hb as (bytes & t' & log & Hb).
  destruct (offline_build (Some (Fixture.provider [])) t t' bytes log Hb) as [-> Hp].
  exists bytes, t'. split; assumption.
Defined.

(** ** The requests of a build *)

Section Requests.

Context {Param ObjectData : Type} `{Collaborators Param ObjectData}.

Lemma fillGasPrice_calls (provider : option (Provider Param ObjectData)) (s : BuildState) :
  calls (snd (fillGasPrice provider s)) = calls s
  \/ (truthyString (price (gasConfig (tx s))) = false
      /\ calls (snd (fillGasPrice provider s)) = calls s ++ [CallGetReferenceGasPrice]).
Proof.
  unfold fillGasPrice. unfold bind, getTx. simpl.
  destruct (truthyString (price (gasConfig (tx s)))); simpl; [by left|].
  destruct provider as [p|]; simpl; [|by left].
  destruct (getReferenceGasPrice p); simpl; by right.
Qed.

Lemma fillGasPrice_moveQueue (provider : option (Provider Param ObjectData)) (s : BuildState) :
  moveModulesToResolve (snd (fillGasPrice provider s)) = moveModulesToResolve s.
Proof.
  unfold fillGasPrice. unfold bind, getTx. simpl.
  destruct (truthyString (price (gasConfig (tx s)))); simpl; [done|].
  destruct provider as [p|]; simpl; [|done].
  by destruct (getReferenceGasPrice p).
Qed.

Lemma forEach_logCall {A} (f : A -> ProviderCall) (l : list A) (s : BuildState) :
  forEach (fun a => logCall (f a)) l s
  = (Ok tt, {| tx := tx s; calls := calls s ++ map f l;
               moveModulesToResolve := moveModulesToResolve s;
               objectsToResolve := objectsToResolve s |}).
Proof.
  revert s. induction l as [|a l IH]; intros s; simpl.
  - rewrite app_nil_r. by destruct s.
  - unfold bind. simpl. rewrite IH. simpl. by rewrite <- app_assoc.
Qed.

Lemma resolveMoveCalls_calls (provider : option (Provider Param ObjectData)) (s : BuildState) :
  calls (snd (resolveMoveCalls provider s)) = calls s
  \/ calls (snd (resolveMoveCalls provider s))
     = calls s ++ map (fun mc => CallGetNormalizedMoveFunction (fst mc))
                    (moveModulesToResolve s).
Proof.
  unfold resolveMoveCalls.
  destruct (moveModulesToResolve s) as [|mc q] eqn:Eq; [by left|].
  destruct provider as [p|]; [|by left]. right.
  unfold bind at 1. simpl expectProvider. unfold ret at 1.
  unfold bind at 1. rewrite forEach_logCall.
  assert (G : preserves sameCalls
                (forEach (fun mc0 : string * list CommandArgument =>
                            let* normalized := call (getNormalizedMoveFunction p (fst mc0)) in
                            resolveMoveCall normalized (snd mc0)) (mc :: q))).
  { preserving sameCalls_refl sameCalls_trans
      ltac:(first [apply sameCalls_resolveMoveCall | (intros ?; reflexivity)]). }
  match goal with |- calls (snd (?m ?s0)) = _ => rewrite (G s0) end.
  reflexivity.
Qed.

Lemma resolveObjects_calls (provider : option (Provider Param ObjectData)) (s : BuildState) :
  calls (snd (resolveObjects provider s)) = calls s
  \/ calls (snd (resolveObjects provider s))
     = calls s ++ [CallGetObjectBatch (map fst (objectsToResolve s))].
Proof.
  unfold resolveObjects.
  destruct (objectsToResolve s) as [|o q] eqn:Eq; [by left|].
  destruct provider as [p|]; [|by left]. right.
  unfold bind, expectProvider, ret, logCall, call.
  destruct (getObjectBatch p (map fst (o :: q))) as [objects|msg]; simpl; [|done].
  by rewrite (sameCalls_writeObjects (o :: q) objects 0 _).
Qed.

(** The Move calls the scan queues are Move calls among the commands it
    scans. *)
Lemma sameMoveQueue_refl s : sameMoveQueue s s.
Proof. done. Qed.

Lemma sameMoveQueue_trans a b c :
  sameMoveQueue a b -> sameMoveQueue b c -> sameMoveQueue a c.
Proof. unfold sameMoveQueue. congruence. Qed.

Lemma scanCommand_moveQueue (c : TransactionCommand) (s : BuildState) :
  moveModulesToResolve (snd (scanCommand c s)) = moveModulesToResolve s
  \/ exists target ta args,
       c = MoveCall target ta args
       /\ moveModulesToResolve (snd (scanCommand c s))
          = moveModulesToResolve s ++ [(target, args)].
Proof.
  destruct c as [target ta args|kind fields].
  - unfold scanCommand. unfold bind, getTx. simpl.
    destruct (needsResolution (inputs (tx s)) args) as [[|]|e]; simpl; [|by left..].
    right. by exists target, ta, args.
  - left.
    assert (G : preserves sameMoveQueue (scanCommand (Command kind fields))).
    { unfold scanCommand, scanField, encodeInput.
      preserving sameMoveQueue_refl sameMoveQueue_trans ltac:(intros ?; reflexivity). }
    apply G.
Qed.

Lemma forEach_scanCommand_moveQueue (l : list TransactionCommand) (s : BuildState) :
  exists extra,
    moveModulesToResolve (snd (forEach scanCommand l s)) = moveModulesToResolve s ++ extra
    /\ Forall (fun mc => exists ta, MoveCall (fst mc) ta (snd mc) ∈ l) extra.
Proof.
  revert s. induction l as [|c l IH]; intros s; simpl.
  - exists []. by rewrite app_nil_r.
  - unfold bind. pose proof (scanCommand_moveQueue c s) as Hc.
    destruct (scanCommand c s) as [[u|e] s1]; simpl in *.
    + destruct (IH s1) as (extra & He & Hall).
      assert (Hall' : Forall (fun mc => exists ta, MoveCall (fst mc) ta (snd mc) ∈ c :: l) extra).
      { eapply Forall_impl; [exact Hall|]. intros mc [ta Hin]. exists ta. by right. }
      destruct Hc as [Hc|(target & ta & args & -> & Hc)].
      * exists extra. by rewrite He, Hc.
      * exists ((target, args) :: extra). rewrite He, Hc, <- app_assoc. split; [done|].
        constructor; [|exact Hall']. exists ta. by left.
    + destruct Hc as [Hc|(target & ta & args & -> & Hc)].
      * exists []. by rewrite app_nil_r.
      * exists [(target, args)]. split; [done|].
        constructor; [|done]. exists ta. by left.
Qed.

End Requests.

(** X8. The requests of a build, in order: at most one for the gas price,
    and only when the builder has none; then signature requests, each for
    the target of a Move call among the commands; then at most one object
    batch. Without a provider there is none. *)
Theorem build_requests {Param ObjectData : Type} `{Collaborators Param ObjectData}
    (provider : option (Provider Param ObjectData)) (t : Transaction) :
  let log := (runBuild provider t).2 in
  (exists a targets c,
     log = a ++ map CallGetNormalizedMoveFunction targets ++ c
     /\ (a = [] \/ (a = [CallGetReferenceGasPrice]
                    /\ truthyString (price (gasConfig t)) = false))
     /\ Forall (fun target => exists ta args, MoveCall target ta args ∈ commands t) targets
     /\ (c = [] \/ exists ids, c = [CallGetObjectBatch ids]))
  /\ (provider = None -> log = []).
Proof.
  intros log. subst log. unfold runBuild. rewrite build_stages. simpl.
  destruct (checkRequired t) as [u1|e1]; simpl.
  2: { split; [|done]. exists [], [], []. repeat split; auto. }
  pose proof (fillGasPrice_calls provider (startBuild t)) as H2.
  pose proof (fillGasPrice_moveQueue provider (startBuild t)) as Hq2.
  pose proof (sameFrame_fillGasPrice provider (startBuild t)) as (_ & _ & _ & _ & _ & Hc2 & _).
  assert (Hnone2 : provider = None ->
                   calls (snd (fillGasPrice provider (startBuild t))) = []).
  { intros ->. unfold fillGasPrice. unfold bind, getTx. simpl.
    by destruct (truthyString (price (gasConfig t))). }
  destruct (fillGasPrice provider (startBuild t)) as [r2 s2]. simpl in *.
  assert (Ha : exists a, calls s2 = a
               /\ (a = [] \/ (a = [CallGetReferenceGasPrice]
                              /\ truthyString (price (gasConfig t)) = false))).
  { destruct H2 as [->|[Hp ->]]; eexists; (split; [reflexivity|]); auto. }
  destruct Ha as (a & Ha & Hashape).
  destruct r2 as [u2|e].
  2: { split; [|exact Hnone2]. exists a, [], [].
       repeat split; simpl; rewrite ?app_nil_r; auto. }
  pose proof (sameCalls_scanCommands s2) as H3.
  assert (Hq3 : exists extra,
            moveModulesToResolve (snd (scanCommands s2)) = extra
            /\ Forall (fun mc => exists ta, MoveCall (fst mc) ta (snd mc) ∈ commands t) extra).
  { unfold scanCommands. unfold bind, getTx. simpl.
    destruct (forEach_scanCommand_moveQueue (commands (tx s2)) s2) as (extra & He & Hall).
    exists extra. rewrite He, Hq2. split; [done|]. by rewrite <- Hc2. }
  destruct (scanCommands s2) as [r3 s3]. simpl in *. unfold sameCalls in H3.
  destruct Hq3 as (queue & Hq3 & Hqueue).
  destruct r3 as [u3|e].
  2: { split; [|intros Hn; by rewrite H3, (Hnone2 Hn)].
       exists a, [], []. rewrite H3.
       repeat split; simpl; rewrite ?app_nil_r; auto. }
  pose proof (resolveMoveCalls_calls provider s3) as H4.
  assert (Hnone4 : provider = None -> calls (snd (resolveMoveCalls provider s3)) = calls s3).
  { intros ->. unfold resolveMoveCalls. by destruct (moveModulesToResolve s3). }
  assert (Hb : exists targets,
            calls (snd (resolveMoveCalls provider s3))
            = a ++ map CallGetNormalizedMoveFunction targets
            /\ Forall (fun target => exists ta args, MoveCall target ta args ∈ commands t)
                 targets).
  { destruct H4 as [-> | ->].
    - exists []. simpl. rewrite app_nil_r, H3. split; [done | constructor].
    - exists (map fst queue). rewrite H3, Ha, Hq3, map_map. split; [done|].
      apply Forall_fmap. eapply Forall_impl; [exact Hqueue|].
      intros mc [ta Hin]. by exists ta, (snd mc). }
  destruct (resolveMoveCalls provider s3) as [r4 s4]. simpl in *.
  destruct Hb as (targets & Hb & Htargets).
  destruct r4 as [u4|e].
  2: { split; [|intros Hn; by rewrite (Hnone4 Hn), H3, (Hnone2 Hn)].
       exists a, targets, [].
       repeat split; simpl; rewrite ?app_nil_r; auto. }
  pose proof (resolveObjects_calls provider s4) as H5.
  assert (Hnone5 : provider = None -> calls (snd (resolveObjects provider s4)) = calls s4).
  { intros ->. unfold resolveObjects. by destruct (objectsToResolve s4). }
  destruct (resolveObjects provider s4) as [r5 s5]. simpl in *.
  assert (Hfinal : (exists a0 targets0 c,
     calls s5 = a0 ++ map CallGetNormalizedMoveFunction targets0 ++ c
     /\ (a0 = [] \/ (a0 = [CallGetReferenceGasPrice]
                    /\ truthyString (price (gasConfig t)) = false))
     /\ Forall (fun target => exists ta args, MoveCall target ta args ∈ commands t) targets0
     /\ (c = [] \/ exists ids, c = [CallGetObjectBatch ids]))
    /\ (provider = None -> calls s5 = [])).
  { split.
    - destruct H5 as [-> | ->].
      + exists a, targets, [].
        repeat split; simpl; rewrite ?app_nil_r; auto.
      + exists a, targets, [CallGetObjectBatch (map fst (objectsToResolve s4))].
        rewrite Hb, <- app_assoc. repeat split; eauto.
    - intros Hn. by rewrite (Hnone5 Hn), (Hnone4 Hn), H3, (Hnone2 Hn). }
  by destruct r5.
Qed.

(** ** The object batch: sizes and identifiers *)

(** X9. When the provider answers the batch with more objects than
    identifiers were asked for, the build fails with a TypeError and gives
    no payload. *)
Theorem oversized_batch_fails {Param ObjectData : Type} `{Collaborators Param ObjectData}
    (p : Provider Param ObjectData) (t : Transaction) (s4 : BuildState)
    (objects : list ObjectData) :
  queueing (Some p) (startBuild t) = (Ok tt, s4) ->
  objectsToResolve s4 <> [] ->
  getObjectBatch p (map fst (objectsToResolve s4)) = Returns objects ->
  length (objectsToResolve s4) < length objects ->
  fst (fst (runBuild (Some p) t)) = Err TypeError.
Proof.
  intros Hq Hne Hbatch Hlen.
  assert (Hlong : fst (resolveObjects (Some p) s4) = Err TypeError).
  { unfold resolveObjects.
    destruct (objectsToResolve s4) as [|e queue] eqn:Eq; [done|].
    unfold bind, expectProvider, ret, logCall, call. rewrite Hbatch. simpl liftResult.
    unfold ret. apply forEachFrom_writeObject_long; simpl in *; lia. }
  unfold runBuild. rewrite build_split, Hq. unfold bind at 1.
  destruct (resolveObjects (Some p) s4) as [[u|e] s5]; simpl in *; congruence.
Qed.

Lemma oversized_batch_fails_witness :
  let t := snd (add (Command "SplitCoin"
                       [("coin", ArgumentValue (Input 0)); ("amount", ArgumentValue (Input 1))])
                  (snd (input (Unresolved (RNumber 7))
                          (snd (input (Unresolved (RString "0x5")) Fixture.funded))))) in
  let p := {| getReferenceGasPrice := Returns 1%Z;
              getNormalizedMoveFunction := fun _ => Throws "no such function";
              getObjectBatch := fun ids =>
                Returns (Fixture.NotExists "0x0" :: map Fixture.NotExists ids) |} in
  fst (fst (runBuild (Some p) t)) = Err TypeError.
Proof.
  intros t p.
  apply (oversized_batch_fails p t (snd (queueing (Some p) (startBuild t)))
           [Fixture.NotExists "0x0"; Fixture.NotExists "0x5"]);
    [reflexivity | discriminate | reflexivity | simpl; lia].
Defined.

(** X10. The scan of stage 3 leaves every input that holds a resolved
    value exactly as it is, whatever the commands are and whether the scan
    fails or not. *)
Theorem scan_keeps_resolved_inputs {Param ObjectData : Type}
    `{Collaborators Param ObjectData}
    (s : BuildState) (pos : nat) (inp : TransactionInput) :
  inputs (tx s) !! pos = Some inp ->
  isBuilderCallArg (value inp) = true ->
  inputs (tx (snd (scanCommands s))) !! pos = Some inp.
Proof. intros Hpos Hres. by apply (keepsResolved_scanCommands s pos inp). Qed.

Lemma scan_keeps_resolved_inputs_witness :
  let coin := {| index := 0; value := Resolved (Object (ImmOrOwned (Fixture.ref "0x5" 7))) |} in
  let t := snd (add (Command "SplitCoin"
                       [("coin", ArgumentValue (Input 0)); ("amount", ArgumentValue (Input 1))])
                  (snd (input (Unresolved (RNumber 7))
                          (snd (input (value coin) Fixture.funded))))) in
  inputs (tx (snd (scanCommands (startBuild t)))) !! 0 = Some coin.
Proof.
  intros coin t. apply scan_keeps_resolved_inputs; reflexivity.
Defined.

Section QueuedIdentifiers.

Context {Param ObjectData : Type} `{Collaborators Param ObjectData}.

Variable original : list TransactionInput.

Lemma keepsQueued_refl s : keepsQueuedFromInputs original s s.
Proof. by intros ?. Qed.

Lemma keepsQueued_trans a b c :
  keepsQueuedFromInputs original a b -> keepsQueuedFromInputs original b c ->
  keepsQueuedFromInputs original a c.
Proof. unfold keepsQueuedFromInputs. auto. Qed.

Lemma queuedFromInputs_write (s : BuildState) (idx : nat) (c : BuilderCallArg) :
  queuedFromInputs original s ->
  queuedFromInputs original (snd (modifyTx (writeInput idx (Resolved c)) s)).
Proof.
  intros [Hin Hq]. split; [|exact Hq].
  intros pos inp. simpl. destruct (decide (idx = pos)) as [->|Hne].
  - rewrite list_lookup_alter_eq. destruct (inputs (tx s) !! pos); [|discriminate].
    simpl. intros [= <-]. discriminate.
  - rewrite list_lookup_alter_ne by done. apply Hin.
Qed.

Lemma queuedFromInputs_push (s : BuildState) (idx : nat) (inp : TransactionInput)
    (id : string) :
  inputs (tx s) !! idx = Some inp -> isString (value inp) = Some id ->
  queuedFromInputs original s ->
  queuedFromInputs original (snd (pushObject id idx s)).
Proof.
  intros Hidx Hid [Hin Hq]. split; [exact Hin|].
  intros id' pos. simpl. intros Hel.
  apply elem_of_app in Hel as [Hel|Hel]; [by apply Hq|].
  apply list_elem_of_singleton in Hel. injection Hel as -> ->.
  exists inp. destruct (value inp) as [[| | | |str|]|] eqn:Ev; try discriminate.
  injection Hid as ->. split; [|done]. apply Hin; [done|]. by rewrite Ev.
Qed.

Lemma keepsQueued_encodeInput enc idx :
  preserves (keepsQueuedFromInputs original) (encodeInput enc idx).
Proof.
  intros s Hq. unfold encodeInput. unfold bind, getTx. simpl.
  destruct (inputs (tx s) !! idx) as [inp|] eqn:E; [|exact Hq].
  destruct (isBuilderCallArg (value inp)); [exact Hq|].
  destruct enc as [|type].
  - destruct (isString (value inp)) as [id|] eqn:Eid; [|exact Hq].
    by apply (queuedFromInputs_push s idx inp id).
  - unfold InputsPure. destruct (serPure type (value inp)) as [bytes|msg]; simpl;
      [|exact Hq].
    by apply queuedFromInputs_write.
Qed.

Lemma keepsQueued_resolveParameter param arg :
  preserves (keepsQueuedFromInputs original) (resolveParameter param arg).
Proof.
  intros s Hq. unfold resolveParameter.
  destruct arg as [[idx| | |]|]; try exact Hq.
  unfold bind, getTx, inputIsBuilderCallArg. simpl.
  destruct (inputs (tx s) !! idx) as [inp|] eqn:E; [|exact Hq].
  destruct (getPureSerializationType param (value inp)) as [serType|msg]; simpl;
    [|exact Hq].
  destruct (truthyString serType).
  - unfold InputsPure.
    destruct (serPure (default "" serType) (value inp)) as [bytes|msg]; simpl;
      [|exact Hq].
    by apply queuedFromInputs_write.
  - destruct (bool_decide (is_Some (extractStructTag param)) || isTypeParameter param);
      [|exact Hq].
    destruct (isString (value inp)) as [id|] eqn:Eid; [|exact Hq].
    by apply (queuedFromInputs_push s idx inp id).
Qed.

Lemma keepsQueued_queueing (provider : option (Provider Param ObjectData)) :
  preserves (keepsQueuedFromInputs original) (queueing provider).
Proof.
  unfold queueing, validate, fillGasPrice, scanCommands, scanCommand, scanField.
  preserving keepsQueued_refl keepsQueued_trans
    ltac:(first [ apply keepsQueued_encodeInput
                | (intros ? Hq; exact Hq) ]).
  unfold resolveMoveCalls. intros s.
  destruct (moveModulesToResolve s) as [|mc q]; [apply keepsQueued_refl|].
  revert s. generalize (mc :: q). clear mc q. intros q.
  unfold resolveMoveCall.
  preserving keepsQueued_refl keepsQueued_trans
    ltac:(first [ apply keepsQueued_resolveParameter
                | (intros ? Hq; exact Hq) ]).
Qed.

End QueuedIdentifiers.

(** X11. Whatever stages 1 to 4 queue for the object batch, each queued
    identifier is the raw string that the input of its entry held when the
    build started; and an input that is still unresolved after these
    stages is the input the build started with. *)
Theorem queued_identifiers_are_input_values {Param ObjectData : Type}
    `{Collaborators Param ObjectData}
    (provider : option (Provider Param ObjectData)) (t : Transaction) :
  let s4 := snd (queueing provider (startBuild t)) in
  (forall id pos, (id, pos) ∈ objectsToResolve s4 ->
     exists inp, inputs t !! pos = Some inp /\ value inp = Unresolved (RString id))
  /\ (forall pos inp, inputs (tx s4) !! pos = Some inp ->
        isBuilderCallArg (value inp) = false -> inputs t !! pos = Some inp).
Proof.
  intros s4.
  assert (Hstart : queuedFromInputs (inputs t) (startBuild t)).
  { split; [by intros pos inp Hpos _|]. intros id pos Hin. simpl in Hin.
    by apply elem_of_nil in Hin. }
  destruct (keepsQueued_queueing (inputs t) provider (startBuild t) Hstart) as [Hin Hq].
  split; [exact Hq | exact Hin].
Qed.

Lemma queued_identifiers_are_input_values_witness :
  let t := snd (add (MoveCall "0x2::pay::split" [] [Input 0; Input 1])
             (snd (input (Unresolved (RNumber 100))
                     (snd (input (Unresolved (RString "0x5")) Fixture.funded))))) in
  exists inp, inputs t !! 0 = Some inp /\ value inp = Unresolved (RString "0x5").
Proof.
  intros t.
  destruct (queued_identifiers_are_input_values (Some (Fixture.provider [])) t) as [Hq _].
  apply Hq. vm_compute. apply list_elem_of_here.
Defined.

(** ** Inputs no command uses *)

Section Membership.

Variable R : BuildState -> BuildState -> Prop.
Hypothesis R_refl : forall s, R s s.
Hypothesis R_trans : forall a b c, R a b -> R b c -> R a c.

Lemma preserves_forEach_in {A} (f : A -> M unit) (l : list A) :
  (forall a, a ∈ l -> preserves R (f a)) -> preserves R (forEach f l).
Proof.
  induction l as [|a l IH]; intros Hf; simpl.
  - by apply preserves_ret.
  - apply preserves_bind; [exact R_trans | apply Hf; by left |].
    intros _. apply IH. intros b Hb. apply Hf. by right.
Qed.

End Membership.

Section Unreferenced.

Context {Param ObjectData : Type} `{Collaborators Param ObjectData}.

Variable Q : nat -> Prop.

Lemma writesWithin_refl s : writesWithin Q s s.
Proof. by intros ?. Qed.

Lemma writesWithin_trans a b c :
  writesWithin Q a b -> writesWithin Q b c -> writesWithin Q a c.
Proof.
  intros Hab Hbc Ha. destruct (Hab Ha) as [Hb Hi]. destruct (Hbc Hb) as [Hc Hi'].
  split; [exact Hc|]. intros pos Hpos. by rewrite Hi', Hi.
Qed.

Lemma writesWithin_writeInput idx v :
  Q idx -> preserves (writesWithin Q) (modifyTx (writeInput idx v)).
Proof.
  intros Hidx s Hs. split; [exact Hs|]. intros pos Hpos. simpl.
  apply list_lookup_alter_ne. intros ->. by apply Hpos.
Qed.

Lemma writesWithin_pushObject id idx :
  Q idx -> preserves (writesWithin Q) (pushObject id idx).
Proof.
  intros Hidx s Hs. split; [|done]. simpl. apply Forall_app. split; [exact Hs|].
  by constructor.
Qed.

Ltac within := preserving writesWithin_refl writesWithin_trans
  ltac:(first [ (apply writesWithin_writeInput; assumption)
              | (apply writesWithin_pushObject; assumption)
              | (intros ? Hs; split; [exact Hs | reflexivity]) ]).

Lemma writesWithin_encodeInput enc idx :
  Q idx -> preserves (writesWithin Q) (encodeInput enc idx).
Proof. intros Hidx. unfold encodeInput. within. Qed.

Lemma writesWithin_resolveParameter param arg :
  (forall idx, arg = Some (Input idx) -> Q idx) ->
  preserves (writesWithin Q) (resolveParameter param arg).
Proof.
  intros Harg. unfold resolveParameter.
  destruct arg as [[idx| | |]|]; [specialize (Harg idx eq_refl) | ..]; within.
Qed.

Lemma writesWithin_scanCommand (c : TransactionCommand) :
  (forall pos, mentions c pos -> Q pos) ->
  preserves (writesWithin Q) (scanCommand c).
Proof.
  intros Hc. destruct c as [target ta args|kind fields]; unfold scanCommand.
  - within.
  - apply preserves_bind; [exact writesWithin_trans | within |].
    intros [schema|]; [|within].
    apply preserves_forEach_in; [exact writesWithin_refl | exact writesWithin_trans |].
    intros [key v] Hin. unfold scanField.
    destruct (String.eqb key "kind"); [within|].
    destruct (wellKnownEncoding (schema key)) as [enc|]; [|within].
    destruct (isArray (schema key)).
    + destruct v as [a|items|d]; [within | | within].
      apply preserves_forEach_in; [exact writesWithin_refl | exact writesWithin_trans |].
      intros [i| | |] Hi; [ | within ..].
      apply writesWithin_encodeInput. apply Hc. simpl.
      exists key, (ArgumentArray items). split; [exact Hin|]. right. by exists items.
    + destruct v as [[i| | |]|items|d]; [ | within ..].
      apply writesWithin_encodeInput. apply Hc. simpl.
      exists key, (ArgumentValue (Input i)). split; [exact Hin|]. by left.
Qed.

Lemma writesWithin_resolveMoveCalls (provider : option (Provider Param ObjectData))
    (s : BuildState) :
  Forall (fun mc => forall idx, Input idx ∈ snd mc -> Q idx) (moveModulesToResolve s) ->
  writesWithin Q s (snd (resolveMoveCalls provider s)).
Proof.
  intros Hq. unfold resolveMoveCalls.
  destruct (moveModulesToResolve s) as [|mc q]; [apply writesWithin_refl|].
  revert Hq. generalize (mc :: q). clear mc q. intros q Hq.
  assert (G : preserves (writesWithin Q)
                (let* p := expectProvider provider in
                 forEach (fun mc => logCall (CallGetNormalizedMoveFunction (fst mc))) q ;;
                 forEach (fun mc =>
                            let* normalized := call (getNormalizedMoveFunction p (fst mc)) in
                            resolveMoveCall normalized (snd mc)) q)).
  { apply preserves_bind; [exact writesWithin_trans | within |]. intros p.
    apply preserves_bind; [exact writesWithin_trans | within |]. intros _.
    apply preserves_forEach_in; [exact writesWithin_refl | exact writesWithin_trans |].
    intros [target args] Hin. rewrite Forall_forall in Hq. specialize (Hq _ Hin).
    simpl in *.
    apply preserves_bind; [exact writesWithin_trans | within |]. intros parameters.
    unfold resolveMoveCall.
    destruct (negb (length (suppliedParameters parameters) =? length args)%nat);
      [within|].
    apply preserves_forEachFrom; [exact writesWithin_refl | exact writesWithin_trans |].
    intros i param. apply writesWithin_resolveParameter.
    intros idx Hidx. apply Hq. by eapply list_elem_of_lookup_2. }
  apply G.
Qed.

Lemma writesWithin_resolveObjects (provider : option (Provider Param ObjectData))
    (s : BuildState) :
  writesWithin Q s (snd (resolveObjects provider s)).
Proof.
  unfold resolveObjects.
  destruct (objectsToResolve s) as [|o q] eqn:Eq; [apply writesWithin_refl|].
  intros Hq. rewrite Eq in Hq.
  assert (G : preserves (writesWithin Q)
                (let* p := expectProvider provider in
                 logCall (CallGetObjectBatch (map fst (o :: q))) ;;
                 let* objects := call (getObjectBatch p (map fst (o :: q))) in
                 forEachFrom 0 (writeObject (o :: q)) objects)).
  { apply preserves_bind; [exact writesWithin_trans | within |]. intros p.
    apply preserves_bind; [exact writesWithin_trans | within |]. intros _.
    apply preserves_bind; [exact writesWithin_trans | within |]. intros objects.
    apply preserves_forEachFrom; [exact writesWithin_refl | exact writesWithin_trans |].
    intros i object. unfold writeObject.
    destruct ((o :: q) !! i) as [[id pos]|] eqn:Ei; [|within].
    apply writesWithin_writeInput.
    rewrite Forall_forall in Hq. apply (Hq (id, pos)).
    by eapply list_elem_of_lookup_2. }
  apply G. by rewrite Eq.
Qed.

End Unreferenced.

Section Dangling.

Context {Param ObjectData : Type} `{Collaborators Param ObjectData}.

(** What a build returns is the payload of the builder it leaves. *)
Lemma build_ok_payload (provider : option (Provider Param ObjectData))
    (s s' : BuildState) (bytes : list byte) :
  build provider s = (Ok bytes, s') -> payload (tx s') = Ok bytes.
Proof.
  rewrite build_stages.
  destruct (checkRequired (tx s)); [|discriminate].
  destruct (fillGasPrice provider s) as [[u2|e] s2]; [|discriminate].
  destruct (scanCommands s2) as [[u3|e] s3]; [|discriminate].
  destruct (resolveMoveCalls provider s3) as [[u4|e] s4]; [|discriminate].
  destruct (resolveObjects provider s4) as [[u5|e] s5]; [|discriminate].
  by intros [= Hp <-].
Qed.

Lemma unreferenced_build (provider : option (Provider Param ObjectData))
    (t : Transaction) (pos : nat) :
  ~ referenced (commands t) pos ->
  inputs (tx (snd (build provider (startBuild t)))) !! pos = inputs t !! pos.
Proof.
  intros Hpos. set (Q := referenced (commands t)).
  rewrite build_stages. simpl.
  destruct (checkRequired t); [|reflexivity].
  pose proof (sameFrame_fillGasPrice provider (startBuild t)) as (_ & _ & _ & _ & _ & Hc2 & _).
  pose proof (fillGasPrice_moveQueue provider (startBuild t)) as Hm2.
  assert (H2 : objectsToResolve (snd (fillGasPrice provider (startBuild t))) = []
               /\ inputs (tx (snd (fillGasPrice provider (startBuild t)))) = inputs t).
  { unfold fillGasPrice. unfold bind, getTx. simpl.
    destruct (truthyString (price (gasConfig t))); simpl; [done|].
    destruct provider as [p|]; simpl; [|done].
    by destruct (getReferenceGasPrice p). }
  destruct (fillGasPrice provider (startBuild t)) as [r2 s2]. simpl in *.
  destruct H2 as [Ho2 Hi2].
  destruct r2 as [u2|e]; [|simpl; by rewrite Hi2].
  assert (H3 : writesWithin Q s2 (snd (scanCommands s2))).
  { unfold scanCommands. unfold bind, getTx. simpl.
    apply preserves_forEach_in; [apply writesWithin_refl | apply writesWithin_trans |].
    intros c Hin. apply writesWithin_scanCommand.
    intros p Hp. exists c. split; [by rewrite <- Hc2 | exact Hp]. }
  assert (Hq3 : Forall (fun mc => forall idx, Input idx ∈ snd mc -> Q idx)
                  (moveModulesToResolve (snd (scanCommands s2)))).
  { unfold scanCommands. unfold bind, getTx. simpl.
    destruct (forEach_scanCommand_moveQueue (commands (tx s2)) s2) as (extra & -> & Hall).
    rewrite Hm2. simpl. eapply Forall_impl; [exact Hall|].
    intros [target args] [ta Hin] idx Hidx. simpl in *.
    exists (MoveCall target ta args). split; [by rewrite <- Hc2 | exact Hidx]. }
  destruct (scanCommands s2) as [r3 s3]. simpl in *.
  destruct H3 as [Ho3 Hi3]; [by rewrite Ho2|].
  destruct r3 as [u3|e]; [|simpl; by rewrite Hi3, Hi2].
  pose proof (writesWithin_resolveMoveCalls Q provider s3 Hq3) as H4.
  destruct (resolveMoveCalls provider s3) as [r4 s4]. simpl in *.
  destruct (H4 Ho3) as [Ho4 Hi4].
  destruct r4 as [u4|e]; [|simpl; by rewrite Hi4, Hi3, Hi2].
  pose proof (writesWithin_resolveObjects Q provider s4 Ho4) as [_ Hi5].
  destruct (resolveObjects provider s4) as [r5 s5]. simpl in *.
  destruct r5 as [u5|e]; simpl; by rewrite Hi5, Hi4, Hi3, Hi2.
Qed.

End Dangling.

(** X12. A build never writes an input that no command has among its
    arguments: after the build, failed or not, such an input is as it was.
    So a builder with an unresolved input that no command uses never
    builds. *)
Theorem unreferenced_input_untouched {Param ObjectData : Type}
    `{Collaborators Param ObjectData}
    (provider : option (Provider Param ObjectData)) (t : Transaction) (pos : nat) :
  ~ referenced (commands t) pos ->
  inputs (runBuild provider t).1.2 !! pos = inputs t !! pos
  /\ (forall inp, inputs t !! pos = Some inp -> isBuilderCallArg (value inp) = false ->
        isOk (fst (fst (runBuild provider t))) = false).
Proof.
  intros Hpos. pose proof (unreferenced_build provider t pos Hpos) as Hsame.
  unfold runBuild. destruct (build provider (startBuild t)) as [r s] eqn:Eb.
  simpl in *. split; [exact Hsame|].
  intros inp Hinp Hun. destruct r as [bytes|e]; [|reflexivity]. exfalso.
  apply build_ok_payload in Eb. unfold payload in Eb.
  rewrite <- Hsame in Hinp.
  by rewrite (resolvedInputs_unresolved _ pos inp Hinp Hun) in Eb.
Qed.

Lemma unreferenced_input_untouched_witness :
  let t := snd (input (Unresolved (RString "0x7"))
             (snd (add (MoveCall "0x2::pay::split" [] [Input 0; Input 1])
                (snd (input (Unresolved (RNumber 100))
                        (snd (input (Unresolved (RString "0x5")) Fixture.funded))))))) in
  let p := Some (Fixture.provider [("0x5", Fixture.Exists (Fixture.ref "0x5" 7) None)]) in
  inputs (runBuild p t).1.2 !! 2 = Some {| index := 2; value := Unresolved (RString "0x7") |}
  /\ isOk (fst (fst (runBuild p t))) = false.
Proof.
  intros t p.
  assert (Hpos : ~ referenced (commands t) 2).
  { intros (c & Hc & Hm). apply list_elem_of_singleton in Hc. subst c. simpl in Hm.
    apply elem_of_cons in Hm as [Hm|Hm]; [discriminate|].
    apply list_elem_of_singleton in Hm. discriminate. }
  destruct (unreferenced_input_untouched p t 2 Hpos) as [Hsame Hfail].
  split; [by rewrite Hsame|]. by eapply Hfail.
Defined.

(** ** Building again *)

Section EachStep.

(** When a loop ends well, every step of it ended well, in a state that
    has what the steps keep. *)
Lemma forEach_ok_each {A} (P : BuildState -> Prop) (G : A -> Prop)
    (f : A -> M unit) (l : list A) (s s' : BuildState) (u : unit) :
  (forall a s1, P s1 -> P (snd (f a s1))) ->
  (forall a s1, a ∈ l -> P s1 -> isOk (fst (f a s1)) = true -> G a) ->
  P s -> forEach f l s = (Ok u, s') -> Forall G l /\ P s'.
Proof.
  intros HP. revert s. induction l as [|a l IH]; intros s HG Hs; simpl.
  - intros [= _ <-]. by split.
  - unfold bind. destruct (f a s) as [[u1|e] s1] eqn:E; [|discriminate].
    intros Hl.
    assert (Hs1 : P s1) by (pose proof (HP a s Hs) as Hp; by rewrite E in Hp).
    destruct (IH s1) as [Hall Hs']; [|exact Hs1|exact Hl|].
    { intros b s2 Hb. apply HG. by right. }
    split; [|exact Hs']. constructor; [|exact Hall].
    apply (HG a s); [by left | exact Hs | by rewrite E].
Qed.

Lemma forEachFrom_ok_each {A} (P : BuildState -> Prop) (G : nat -> A -> Prop)
    (f : nat -> A -> M unit) (l : list A) (i : nat) (s s' : BuildState) (u : unit) :
  (forall j a s1, P s1 -> P (snd (f j a s1))) ->
  (forall j a s1, P s1 -> isOk (fst (f j a s1)) = true -> G j a) ->
  P s -> forEachFrom i f l s = (Ok u, s') ->
  (forall k a, l !! k = Some a -> G (i + k) a) /\ P s'.
Proof.
  intros HP HG. revert i s. induction l as [|a l IH]; intros i s Hs; simpl.
  - intros [= _ <-]. split; [|done]. intros k a Hk. by destruct k.
  - unfold bind. destruct (f i a s) as [[u1|e] s1] eqn:E; [|discriminate].
    intros Hl.
    assert (Hs1 : P s1) by (pose proof (HP i a s Hs) as Hp; by rewrite E in Hp).
    destruct (IH (S i) s1 Hs1 Hl) as [Hall Hs'].
    split; [|exact Hs']. intros [|k] b Hk; simpl in Hk.
    + injection Hk as <-. rewrite Nat.add_0_r. apply (HG i a s Hs). by rewrite E.
    + replace (i + S k) with (S i + k) by lia. by apply Hall.
Qed.

(** A loop whose steps all end well without touching the state. *)
Lemma forEach_fixed {A} (f : A -> M unit) (l : list A) (s : BuildState) :
  Forall (fun a => f a s = (Ok tt, s)) l -> forEach f l s = (Ok tt, s).
Proof.
  induction 1 as [|a l Ha Hl IH]; simpl; [done|].
  unfold bind. by rewrite Ha.
Qed.

End EachStep.

Section Rebuild.

Context {Param ObjectData : Type} `{Collaborators Param ObjectData}.

Lemma sameLength_refl s : sameLength s s.
Proof. done. Qed.

Lemma sameLength_trans a b c : sameLength a b -> sameLength b c -> sameLength a c.
Proof. unfold sameLength. congruence. Qed.

Ltac lengths := preserving sameLength_refl sameLength_trans
  ltac:(intros ?; unfold sameLength; simpl; rewrite ?length_alter; reflexivity).

Lemma sameLength_encodeInput enc idx : preserves sameLength (encodeInput enc idx).
Proof. unfold encodeInput. lengths. Qed.

Lemma sameLength_scanField schema entry : preserves sameLength (scanField schema entry).
Proof. unfold scanField, encodeInput. lengths. Qed.

Lemma sameLength_scanCommand c : preserves sameLength (scanCommand c).
Proof. unfold scanCommand, scanField, encodeInput. lengths. Qed.

Lemma sameLength_resolveParameter param arg :
  preserves sameLength (resolveParameter param arg).
Proof. unfold resolveParameter. lengths. Qed.

Lemma sameLength_resolveMoveCall parameters args :
  preserves sameLength (resolveMoveCall parameters args).
Proof. unfold resolveMoveCall, resolveParameter. lengths. Qed.

(** The test of the scan on a Move call, on inputs that are all there. *)
Lemma needsResolution_false_in_range (ins : list TransactionInput)
    (args : list CommandArgument) :
  needsResolution ins args = Ok false ->
  forall idx, Input idx ∈ args -> idx < length ins.
Proof.
  induction args as [|a args IH]; simpl; intros Hn idx Hin.
  - by apply elem_of_nil in Hin.
  - apply elem_of_cons in Hin as [Hin|Hin].
    + subst a. destruct (ins !! idx) as [inp|] eqn:E; [|discriminate].
      by apply lookup_lt_Some in E.
    + destruct a as [i| | |]; try by apply IH.
      destruct (ins !! i) as [inp|]; [|discriminate].
      destruct (negb (isBuilderCallArg (value inp))); [discriminate|]. by apply IH.
Qed.

Lemma needsResolution_resolved (ins : list TransactionInput) (args : list CommandArgument) :
  allResolved ins = true ->
  (forall idx, Input idx ∈ args -> idx < length ins) ->
  needsResolution ins args = Ok false.
Proof.
  intros Hres. induction args as [|a args IH]; simpl; intros Hin; [done|].
  assert (Hrest : needsResolution ins args = Ok false).
  { apply IH. intros idx Hidx. apply Hin. by right. }
  destruct a as [i| | |]; try exact Hrest.
  destruct (lookup_lt_is_Some_2 ins i) as [inp Hinp]; [apply Hin; by left|].
  by rewrite Hinp, (allResolved_lookup ins i inp Hres Hinp).
Qed.

(** On a state where nothing is left to resolve, with [n] inputs. *)
Variable S0 : BuildState.
Variable n : nat.
Hypothesis S0_settled : settled S0.
Hypothesis S0_length : length (inputs (tx S0)) = n.

Lemma encodeInput_settled enc idx :
  idx < n -> encodeInput enc idx S0 = (Ok tt, S0).
Proof.
  intros Hidx. destruct (lookup_lt_is_Some_2 (inputs (tx S0)) idx) as [inp Hinp]; [lia|].
  apply (encodeInput_skips_resolved enc idx S0 inp Hinp).
  destruct S0_settled as (Hres & _). by eapply allResolved_lookup.
Qed.

Lemma encodeInput_ok_in_range enc idx (s : BuildState) :
  length (inputs (tx s)) = n -> isOk (fst (encodeInput enc idx s)) = true -> idx < n.
Proof.
  intros Hlen. unfold encodeInput. unfold bind, getTx. simpl.
  destruct (inputs (tx s) !! idx) as [inp|] eqn:E; [|discriminate].
  intros _. apply lookup_lt_Some in E. lia.
Qed.

(** A field that the scan passes in some state with [n] inputs, it passes
    in the settled state. *)
Lemma scanField_settled schema entry (s : BuildState) :
  length (inputs (tx s)) = n ->
  isOk (fst (scanField schema entry s)) = true ->
  scanField schema entry S0 = (Ok tt, S0).
Proof.
  intros Hlen. destruct entry as [key v]. unfold scanField.
  destruct (String.eqb key "kind"); [done|].
  destruct (wellKnownEncoding (schema key)) as [enc|]; [|done].
  destruct (isArray (schema key)).
  - destruct v as [a|items|d]; try discriminate.
    intros Hok.
    destruct (forEach (fun arrayItem => match arrayItem with
                                        | Input i => encodeInput enc i
                                        | _ => ret tt
                                        end) items s) as [[u|e] s'] eqn:E;
      [|discriminate].
    apply forEach_fixed.
    eapply (forEach_ok_each (fun s1 => length (inputs (tx s1)) = n)); [| |exact Hlen|exact E].
    + intros a s1 Hs1. destruct a as [i| | |]; [|exact Hs1..].
      by rewrite (sameLength_encodeInput enc i s1).
    + intros a s1 _ Hs1 Hok1. destruct a as [i| | |]; try done.
      apply encodeInput_settled. by eapply encodeInput_ok_in_range.
  - destruct v as [[i| | |]|items|d]; try done.
    intros Hok. apply encodeInput_settled. by eapply encodeInput_ok_in_range.
Qed.

Lemma scanCommand_settled kind fields (s : BuildState) :
  length (inputs (tx s)) = n ->
  isOk (fst (scanCommand (Command kind fields) s)) = true ->
  scanCommand (Command kind fields) S0 = (Ok tt, S0).
Proof.
  intros Hlen. unfold scanCommand. unfold bind, call.
  destruct (getTransactionCommandType (Command kind fields)) as [[schema|]|msg]; simpl;
    [|done|discriminate].
  intros Hok.
  destruct (forEach (scanField schema) fields s) as [[u|e] s'] eqn:E; [|discriminate].
  apply forEach_fixed.
  eapply (forEach_ok_each (fun s1 => length (inputs (tx s1)) = n)); [| |exact Hlen|exact E].
  - intros a s1 Hs1. by rewrite (sameLength_scanField schema a s1).
  - intros a s1 _ Hs1 Hok1. by eapply scanField_settled.
Qed.

Lemma scanMoveCall_settled target ta args :
  (forall idx, Input idx ∈ args -> idx < n) ->
  scanCommand (MoveCall target ta args) S0 = (Ok tt, S0).
Proof.
  intros Hin. unfold scanCommand. unfold bind, getTx. simpl.
  destruct S0_settled as (Hres & _).
  rewrite (needsResolution_resolved _ args Hres); [done|].
  intros idx Hidx. rewrite S0_length. by apply Hin.
Qed.

End Rebuild.

Section RebuildFacts.

Context {Param ObjectData : Type} `{Collaborators Param ObjectData}.

Lemma sameFrame_length (s s' : BuildState) :
  sameFrame s s' -> length (inputs (tx s')) = length (inputs (tx s)).
Proof.
  intros (_ & _ & _ & _ & _ & _ & Hi & _).
  rewrite <- (length_map index (inputs (tx s'))), Hi. apply length_map.
Qed.

(** After a scan that ends well, a Move call among the commands has all
    its inputs there, or it is in the queue. *)
Lemma scan_moveCalls (n : nat) (l : list TransactionCommand) (s s' : BuildState) (u : unit) :
  length (inputs (tx s)) = n ->
  forEach scanCommand l s = (Ok u, s') ->
  forall target ta args, MoveCall target ta args ∈ l ->
    (forall idx, Input idx ∈ args -> idx < n)
    \/ (target, args) ∈ moveModulesToResolve s'.
Proof.
  revert s. induction l as [|c l IH]; intros s Hlen; simpl.
  - intros _ target ta args Hin. by apply elem_of_nil in Hin.
  - unfold bind. destruct (scanCommand c s) as [[u1|e] s1] eqn:E; [|discriminate].
    intros Hl target ta args Hin.
    assert (Hlen1 : length (inputs (tx s1)) = n).
    { pose proof (sameLength_scanCommand c s) as Hs. rewrite E in Hs.
      unfold sameLength in Hs. simpl in Hs. congruence. }
    apply elem_of_cons in Hin as [<-|Hin]; [|by eapply IH].
    unfold scanCommand in E. unfold bind, getTx in E. simpl in E.
    destruct (needsResolution (inputs (tx s)) args) as [[|]|e] eqn:En; simpl in E;
      [| |discriminate].
    + right.
      destruct (forEach_scanCommand_moveQueue l s1) as (extra & He & _).
      rewrite Hl in He. simpl in He. rewrite He. injection E as _ <-. simpl.
      apply elem_of_app. left. apply elem_of_app. right. by left.
    + left. intros idx Hidx. rewrite <- Hlen.
      by eapply needsResolution_false_in_range.
Qed.

(** After a stage 4 that ends well, every queued Move call has all its
    inputs there. *)
Lemma resolveParameter_ok_in_range (n : nat) param (args : list CommandArgument)
    (j idx : nat) (s : BuildState) :
  length (inputs (tx s)) = n ->
  isOk (fst (resolveParameter param (args !! j) s)) = true ->
  args !! j = Some (Input idx) -> idx < n.
Proof.
  intros Hlen Hok Harg. rewrite Harg in Hok. unfold resolveParameter in Hok.
  unfold bind, getTx, inputIsBuilderCallArg in Hok. simpl in Hok.
  destruct (inputs (tx s) !! idx) as [inp|] eqn:E; [|discriminate].
  apply lookup_lt_Some in E. lia.
Qed.

Lemma resolveMoveCall_ok_in_range (n : nat) (parameters : list Param)
    (args : list CommandArgument) (s : BuildState) :
  length (inputs (tx s)) = n ->
  isOk (fst (resolveMoveCall parameters args s)) = true ->
  forall idx, Input idx ∈ args -> idx < n.
Proof.
  intros Hlen. unfold resolveMoveCall.
  destruct (length (suppliedParameters parameters) =? length args)%nat eqn:Earity;
    simpl; [|discriminate].
  apply Nat.eqb_eq in Earity. intros Hok idx Hin.
  destruct (forEachFrom 0 (fun i param => resolveParameter param (args !! i))
              (suppliedParameters parameters) s) as [[u|e] s'] eqn:E; [|discriminate].
  apply list_elem_of_lookup_1 in Hin as [j Hj].
  destruct (lookup_lt_is_Some_2 (suppliedParameters parameters) j) as [param Hparam].
  { rewrite Earity. by eapply lookup_lt_Some. }
  destruct (forEachFrom_ok_each (fun s1 => length (inputs (tx s1)) = n)
              (fun (j : nat) (_ : Param) =>
                 forall idx, args !! j = Some (Input idx) -> idx < n)
              (fun i param => resolveParameter param (args !! i))
              (suppliedParameters parameters) 0 s s' u) as [Hall _];
    [| |exact Hlen|exact E|].
  - intros k a s1 Hs1. by rewrite (sameLength_resolveParameter a (args !! k) s1).
  - intros k a s1 Hs1 Hok1 idx' Hidx'. by eapply resolveParameter_ok_in_range.
  - by apply (Hall j param Hparam idx).
Qed.

Lemma resolveMoveCalls_ok_in_range (n : nat)
    (provider : option (Provider Param ObjectData)) (s s' : BuildState) (u : unit) :
  length (inputs (tx s)) = n ->
  resolveMoveCalls provider s = (Ok u, s') ->
  Forall (fun mc => forall idx, Input idx ∈ snd mc -> idx < n) (moveModulesToResolve s).
Proof.
  intros Hlen. unfold resolveMoveCalls.
  destruct (moveModulesToResolve s) as [|mc q]; [by constructor|].
  generalize (mc :: q). clear mc q. intros q.
  destruct provider as [p|]; [|discriminate].
  unfold bind at 1. simpl expectProvider. unfold ret at 1.
  unfold bind at 1. rewrite forEach_logCall. intros Hq.
  eapply (forEach_ok_each (fun s1 => length (inputs (tx s1)) = n)); [| | |exact Hq].
  - intros a s1 Hs1. unfold bind, call.
    destruct (getNormalizedMoveFunction p (fst a)); simpl; [|exact Hs1].
    by rewrite (sameLength_resolveMoveCall _ (snd a) s1).
  - intros a s1 _ Hs1. unfold bind, call.
    destruct (getNormalizedMoveFunction p (fst a)) as [parameters|msg]; simpl;
      [|discriminate].
    intros Hok. by eapply resolveMoveCall_ok_in_range.
  - exact Hlen.
Qed.

Lemma build_ok_stages (provider : option (Provider Param ObjectData))
    (s s' : BuildState) (bytes : list byte) :
  build provider s = (Ok bytes, s') ->
  checkRequired (tx s) = Ok tt
  /\ exists s2 s3 s4,
       fillGasPrice provider s = (Ok tt, s2)
       /\ scanCommands s2 = (Ok tt, s3)
       /\ resolveMoveCalls provider s3 = (Ok tt, s4)
       /\ resolveObjects provider s4 = (Ok tt, s')
       /\ payload (tx s') = Ok bytes.
Proof.
  rewrite build_stages.
  destruct (checkRequired (tx s)) as [[]|e]; [|discriminate].
  destruct (fillGasPrice provider s) as [[[]|e] s2]; [|discriminate].
  destruct (scanCommands s2) as [[[]|e] s3] eqn:E3; [|discriminate].
  destruct (resolveMoveCalls provider s3) as [[[]|e] s4] eqn:E4; [|discriminate].
  destruct (resolveObjects provider s4) as [[[]|e] s5] eqn:E5; [|discriminate].
  intros [= Hp <-]. split; [done|]. by exists s2, s3, s4.
Qed.

End RebuildFacts.

(** X13. After any build that gives a payload, a build of the builder as
    it was left gives the same bytes, whatever provider either build is
    given; the second build asks for nothing and leaves the builder as it
    is. *)
Theorem rebuild_gives_same_payload {Param ObjectData : Type}
    `{Collaborators Param ObjectData}
    (provider1 provider2 : option (Provider Param ObjectData))
    (t t1 : Transaction) (bytes : list byte) (log : list ProviderCall) :
  runBuild provider1 t = (Ok bytes, t1, log) ->
  runBuild provider2 t1 = (Ok bytes, t1, []).
Proof.
  unfold runBuild. destruct (build provider1 (startBuild t)) as [r s5] eqn:Eb.
  intros [= -> <- _].
  destruct (build_ok_stages _ _ _ _ Eb)
    as (Hreq & s2 & s3 & s4 & E2 & E3 & E4 & E5 & Hpay).
  simpl in Hreq.
  destruct (fillGasPrice_run _ _ _ E2)
    as (Hprice & _ & Hsender & _ & Hinputs & Hcommands & Hbudget & Hpayment & Hm2 & _).
  simpl in *.
  pose proof (sameFrame_scanCommands s2) as F3. rewrite E3 in F3.
  pose proof (sameFrame_resolveMoveCalls provider1 s3) as F4. rewrite E4 in F4.
  pose proof (sameFrame_resolveObjects provider1 s4) as F5. rewrite E5 in F5.
  simpl in F3, F4, F5.
  pose proof (sameFrame_trans _ _ _ (sameFrame_trans _ _ _ F3 F4) F5) as F25.
  set (n := length (inputs t)).
  assert (L2 : length (inputs (tx s2)) = n) by (by rewrite Hinputs).
  assert (L3 : length (inputs (tx s3)) = n) by (by rewrite (sameFrame_length _ _ F3)).
  assert (L5 : length (inputs (tx s5)) = n) by (by rewrite (sameFrame_length _ _ F25)).
  destruct F25 as (G1 & _ & G3 & G4 & _ & G6 & _ & G8).
  destruct F3 as (_ & _ & _ & _ & _ & C3 & _).
  assert (Hsettled : settled (startBuild (tx s5))).
  { repeat split. simpl. apply resolvedInputs_allResolved. unfold payload in Hpay.
    by destruct (resolvedInputs (inputs (tx s5))). }
  assert (Hscan : scanCommands (startBuild (tx s5)) = (Ok tt, startBuild (tx s5))).
  { unfold scanCommands. unfold bind at 1. unfold getTx at 1. simpl.
    apply forEach_fixed. apply Forall_forall. intros c Hc.
    rewrite G6 in Hc.
    unfold scanCommands in E3. unfold bind at 1 in E3. unfold getTx at 1 in E3.
    simpl in E3.
    destruct c as [target ta args|kind fields].
    - apply (scanMoveCall_settled _ n Hsettled L5).
      destruct (scan_moveCalls n _ _ _ _ L2 E3 target ta args Hc) as [Hin|Hq]; [exact Hin|].
      pose proof (resolveMoveCalls_ok_in_range n provider1 s3 s4 tt L3 E4) as Hall.
      rewrite Forall_forall in Hall. apply (Hall _ Hq).
    - destruct (forEach_ok_each (fun s1 => length (inputs (tx s1)) = n)
                  (fun c => match c with
                            | Command kind fields =>
                                scanCommand c (startBuild (tx s5))
                                = (Ok tt, startBuild (tx s5))
                            | MoveCall _ _ _ => True
                            end)
                  scanCommand (commands (tx s2)) s2 s3 tt) as [Hall _];
        [| |exact L2|exact E3|].
      + intros a s1 Hs1. by rewrite (sameLength_scanCommand a s1).
      + intros a s1 _ Hs1 Hok. destruct a as [|k f]; [done|].
        by eapply (scanCommand_settled _ n Hsettled L5).
      + rewrite Forall_forall in Hall. exact (Hall (Command kind fields) Hc). }
  rewrite build_run. simpl.
  assert (Hreq5 : checkRequired (tx s5) = Ok tt).
  { unfold checkRequired in *. by rewrite G3, G4, G1, Hbudget, Hpayment, Hsender. }
  rewrite Hreq5.
  assert (Hprice5 : truthyString (price (gasConfig (tx s5))) = true)
    by (by rewrite (G8 Hprice)).
  rewrite (fillGasPrice_truthy provider2 (startBuild (tx s5)) Hprice5).
  rewrite (settled_build_tail provider2 _ Hsettled), Hscan. simpl.
  by rewrite Hpay.
Qed.

Lemma rebuild_gives_same_payload_witness :
  let t := snd (add (MoveCall "0x2::pay::split" [] [Input 0; Input 1])
             (snd (input (Unresolved (RNumber 100))
                     (snd (input (Unresolved (RString "0x5")) Fixture.funded))))) in
  let p := Some (Fixture.provider [("0x5", Fixture.Exists (Fixture.ref "0x5" 7) None)]) in
  exists bytes t1,
    fst (runBuild p t) = (Ok bytes, t1)
    /\ runBuild None t1 = (Ok bytes, t1, []).
Proof.
  intros t p.
  assert (Hb : exists bytes t1 log, runBuild p t = (Ok bytes, t1, log))
    by (eexists _, _, _; vm_compute; reflexivity).
  destruct Hb as (bytes & t1 & log & Hb).
  exists bytes, t1. split; [by rewrite Hb|].
  exact (rebuild_gives_same_payload p None t t1 bytes log Hb).
Defined.

(** ** Failures of the provider, and where the missing-field errors come from *)

(** X14. What the provider throws is what the build fails with: for the
    gas price, asked for when the builder has none, the builder is left as
    it was; for the object batch, no payload is given. *)
Theorem provider_failure_fails_build {Param ObjectData : Type}
    `{Collaborators Param ObjectData}
    (p : Provider Param ObjectData) (t : Transaction) (msg : string) :
  (checkRequired t = Ok tt ->
   truthyString (price (gasConfig t)) = false ->
   getReferenceGasPrice p = Throws msg ->
   runBuild (Some p) t = (Err (ExternalError msg), t, [CallGetReferenceGasPrice]))
  /\ (forall s4,
        queueing (Some p) (startBuild t) = (Ok tt, s4) ->
        objectsToResolve s4 <> [] ->
        getObjectBatch p (map fst (objectsToResolve s4)) = Throws msg ->
        fst (fst (runBuild (Some p) t)) = Err (ExternalError msg)).
Proof.
  split.
  - intros Hreq Hprice Hthrow. unfold runBuild. rewrite build_stages. simpl.
    rewrite Hreq. unfold fillGasPrice. unfold bind, getTx, call. simpl.
    rewrite Hprice, Hthrow. reflexivity.
  - intros s4. apply build_object_batch_throws.
Qed.

Lemma provider_failure_fails_build_witness :
  let t := snd (add (Command "SplitCoin"
                       [("coin", ArgumentValue (Input 0)); ("amount", ArgumentValue (Input 1))])
                  (snd (input (Unresolved (RNumber 7))
                          (snd (input (Unresolved (RString "0x5")) Fixture.funded))))) in
  let failing price :=
    {| getReferenceGasPrice := price;
       getNormalizedMoveFunction := fun _ => Throws "no such function";
       getObjectBatch := fun _ => @Throws (list Fixture.ObjectResponse) "node down" |} in
  runBuild (Some (failing (Throws "node down"))) t
  = (Err (ExternalError "node down"), t, [CallGetReferenceGasPrice])
  /\ fst (fst (runBuild (Some (failing (Returns 1%Z))) t)) = Err (ExternalError "node down").
Proof.
  intros t failing. split.
  - destruct (provider_failure_fails_build (failing (Throws "node down")) t "node down")
      as [Hprice _].
    apply Hprice; reflexivity.
  - destruct (provider_failure_fails_build (failing (Returns 1%Z)) t "node down")
      as [_ Hbatch].
    apply (Hbatch (snd (queueing (Some (failing (Returns 1%Z))) (startBuild t))));
      [reflexivity | discriminate | reflexivity].
Defined.

Section MissingFields.

Context {Param ObjectData : Type} `{Collaborators Param ObjectData}.

Variable e : Error.
Hypothesis e_missing : isMissingField e = true.

Lemma missing_not_external : isExternalError e = false.
Proof. clear -e_missing. by destruct e. Qed.

Lemma missing_not_other (e' : Error) : isMissingField e' = false -> e' <> e.
Proof. clear -e_missing. intros He' ->. congruence. Qed.

Lemma never_liftResult {A} (r : result A) : r <> Err e -> never e (liftResult r).
Proof.
  intros Hr s. destruct r as [a|e']; simpl; [discriminate|]. congruence.
Qed.

Lemma never_forEach {A} (f : A -> M unit) (l : list A) :
  (forall a, never e (f a)) -> never e (forEach f l).
Proof.
  intros Hf. induction l as [|a l IH]; simpl.
  - apply never_ret.
  - apply never_bind; auto.
Qed.

Lemma never_InputsPure type v : InputsPure type v <> Err e.
Proof.
  unfold InputsPure. destruct (serPure type v); simpl; [discriminate|].
  intros [= E]. pose proof missing_not_external as Hx. rewrite <- E in Hx. discriminate.
Qed.

Lemma never_needsResolution ins args : needsResolution ins args <> Err e.
Proof.
  induction args as [|a args IH]; simpl; [discriminate|].
  destruct a as [i| | |]; try exact IH.
  destruct (ins !! i) as [inp|].
  - by destruct (negb (isBuilderCallArg (value inp))).
  - intros [= E]. by apply (missing_not_other TypeError).
Qed.

Lemma never_payload t : payload t <> Err e.
Proof.
  unfold payload.
  assert (Hr : forall ins, resolvedInputs ins <> Err e).
  { induction ins as [|i ins IH]; simpl; [discriminate|].
    destruct (value i).
    - intros [= E]. by apply (missing_not_other StructError).
    - destruct (resolvedInputs ins); [discriminate|]. exact IH. }
  specialize (Hr (inputs t)). destruct (resolvedInputs (inputs t)); [|congruence].
  destruct (serTransactionData _); simpl; [discriminate|].
  intros [= E]. pose proof missing_not_external as Hx. rewrite <- E in Hx. discriminate.
Qed.

Ltac nevermore :=
  repeat first
    [ apply never_bind; [| intros ?]
    | apply never_forEach; intros ?
    | apply never_forEachFrom; intros ? ?
    | apply never_ret
    | apply never_call; exact missing_not_external
    | apply never_liftResult; first [apply never_InputsPure | apply never_needsResolution
                                    | apply never_payload]
    | (apply never_throw; apply missing_not_other; reflexivity)
    | (intros ?; simpl; discriminate)
    | match goal with
      | |- never _ (if ?b then _ else _) => destruct b
      | |- never _ (match ?x with _ => _ end) => destruct x
      | |- never _ (let '(_, _) := ?x in _) => destruct x
      end ].

Lemma never_missing_after_validation (provider : option (Provider Param ObjectData)) :
  never e (fillGasPrice provider ;; scanCommands ;; resolveMoveCalls provider ;;
           resolveObjects provider ;; assemble).
Proof.
  assert (H4 : never e (resolveMoveCalls provider)).
  { intros s. unfold resolveMoveCalls.
    destruct (moveModulesToResolve s) as [|mc q]; [discriminate|].
    revert s. generalize (mc :: q). clear mc q. intros q.
    unfold resolveMoveCall, resolveParameter, expectProvider. nevermore. }
  assert (H5 : never e (resolveObjects provider)).
  { intros s. unfold resolveObjects.
    destruct (objectsToResolve s) as [|o q]; [discriminate|].
    revert s. generalize (o :: q). clear o q. intros q.
    unfold writeObject, expectProvider. nevermore. }
  apply never_bind.
  { unfold fillGasPrice, expectProvider. nevermore. }
  intros _. apply never_bind.
  { unfold scanCommands, scanCommand, scanField, encodeInput. nevermore. }
  intros _. apply never_bind; [exact H4|].
  intros _. apply never_bind; [exact H5|].
  intros _. unfold assemble. nevermore.
Qed.

End MissingFields.

(** X15. The three missing-field errors come from the first stage only:
    a build fails with 'Missing gas budget' exactly when the budget is
    absent or the empty string; with 'Missing gas payment' exactly when
    there is a budget and no payment; with 'Missing transaction sender'
    exactly when budget and payment are there and the sender is absent or
    the empty string. *)
Theorem missing_field_errors {Param ObjectData : Type} `{Collaborators Param ObjectData}
    (provider : option (Provider Param ObjectData)) (t : Transaction) :
  let outcome := fst (fst (runBuild provider t)) in
  (outcome = Err MissingGasBudget <-> truthyString (budget (gasConfig t)) = false)
  /\ (outcome = Err MissingGasPayment
      <-> truthyString (budget (gasConfig t)) = true /\ payment (gasConfig t) = None)
  /\ (outcome = Err MissingTransactionSender
      <-> truthyString (budget (gasConfig t)) = true
          /\ is_Some (payment (gasConfig t))
          /\ truthyString (sender t) = false).
Proof.
  intros outcome.
  assert (Hout : outcome =
            match checkRequired t with
            | Err e => Err e
            | Ok _ => fst ((fillGasPrice provider ;; scanCommands ;;
                            resolveMoveCalls provider ;; resolveObjects provider ;;
                            assemble) (startBuild t))
            end).
  { subst outcome. unfold runBuild. unfold build. unfold bind at 1.
    rewrite validate_run. simpl.
    destruct (checkRequired t); [|reflexivity].
    by destruct ((fillGasPrice provider ;; scanCommands ;; resolveMoveCalls provider ;;
                  resolveObjects provider ;; assemble) (startBuild t)). }
  assert (Hnever : forall e, isMissingField e = true ->
                             checkRequired t = Ok tt -> outcome <> Err e).
  { intros e He Hreq. rewrite Hout, Hreq.
    apply (never_missing_after_validation e He provider). }
  clearbody outcome. unfold checkRequired in *.
  destruct (truthyString (budget (gasConfig t))); simpl in *;
    [destruct (payment (gasConfig t)) as [pay|]; simpl in *;
       [destruct (truthyString (sender t)); simpl in *|]|];
    try subst outcome;
    (split; [|split]; split; intros Hx;
     first [ done
           | discriminate Hx
           | (split; [done | by eexists])
           | by eexists
           | (apply proj2 in Hx; discriminate Hx)
           | (apply proj1 in Hx; discriminate Hx)
           | (apply proj2, proj1 in Hx; destruct Hx as [? Hx]; discriminate Hx)
           | (apply proj2, proj2 in Hx; discriminate Hx)
           | (exfalso; eapply Hnever; [| reflexivity | exact Hx]; reflexivity) ]).
Qed.

Lemma missing_field_errors_witness :
  fst (fst (runBuild (Some (Fixture.provider []))
              (setGasPayment [] (setSender "0x1" newTransaction))))
  = Err MissingGasBudget.
Proof.
  destruct (missing_field_errors (Some (Fixture.provider []))
              (setGasPayment [] (setSender "0x1" newTransaction))) as ([_ Hb] & _).
  apply Hb. reflexivity.
Defined.

(** ** The setters and the first stage *)

Section Configured.

Context {Param ObjectData : Type} `{Collaborators Param ObjectData}.

Lemma perform_budget (op : Operation) (t : Transaction) :
  truthyString (budget (gasConfig t)) = true \/ (exists b, op = OpSetGasBudget b) ->
  truthyString (budget (gasConfig (perform op t))) = true.
Proof.
  intros [Ht | [b ->]]; [|apply stringOfZ_truthy].
  destruct op; first [exact Ht | apply stringOfZ_truthy].
Qed.

Lemma perform_payment (op : Operation) (t : Transaction) :
  is_Some (payment (gasConfig t)) \/ (exists p, op = OpSetGasPayment p) ->
  is_Some (payment (gasConfig (perform op t))).
Proof.
  intros [Ht | [p ->]]; [|by eexists].
  destruct op; first [exact Ht | by eexists].
Qed.

Lemma performAll_budget (ops : list Operation) (t : Transaction) :
  truthyString (budget (gasConfig t)) = true \/ (exists b, OpSetGasBudget b ∈ ops) ->
  truthyString (budget (gasConfig (performAll ops t))) = true.
Proof.
  revert t. induction ops as [|op ops IH]; intros t Ht.
  - destruct Ht as [Ht | [b Hb]]; [exact Ht | by apply elem_of_nil in Hb].
  - apply IH. destruct Ht as [Ht | [b Hb]].
    + left. apply perform_budget. by left.
    + apply elem_of_cons in Hb as [<- | Hb].
      * left. apply perform_budget. right. by eexists.
      * right. by exists b.
Qed.

Lemma performAll_payment (ops : list Operation) (t : Transaction) :
  is_Some (payment (gasConfig t)) \/ (exists p, OpSetGasPayment p ∈ ops) ->
  is_Some (payment (gasConfig (performAll ops t))).
Proof.
  revert t. induction ops as [|op ops IH]; intros t Ht.
  - destruct Ht as [Ht | [p Hp]]; [exact Ht | by apply elem_of_nil in Hp].
  - apply IH. destruct Ht as [Ht | [p Hp]].
    + left. apply perform_payment. by left.
    + apply elem_of_cons in Hp as [<- | Hp].
      * left. apply perform_payment. right. by eexists.
      * right. by exists p.
Qed.

Lemma build_after_validation (provider : option (Provider Param ObjectData))
    (t : Transaction) :
  fst (fst (runBuild provider t)) =
  match checkRequired t with
  | Err e => Err e
  | Ok _ => fst ((fillGasPrice provider ;; scanCommands ;;
                  resolveMoveCalls provider ;; resolveObjects provider ;;
                  assemble) (startBuild t))
  end.
Proof.
  unfold runBuild. unfold build. unfold bind at 1.
  rewrite validate_run. simpl.
  destruct (checkRequired t); [|reflexivity].
  by destruct ((fillGasPrice provider ;; scanCommands ;; resolveMoveCalls provider ;;
                resolveObjects provider ;; assemble) (startBuild t)).
Qed.

End Configured.

(** X17. No operation of the class takes a gas budget or a gas payment
    away: once [setGasBudget] and [setGasPayment] are among the operations
    made on a builder, whatever else is done before or after them, a build
    fails neither with 'Missing gas budget' nor with 'Missing gas
    payment'. *)
Theorem budget_and_payment_stay_set {Param ObjectData : Type}
    `{Collaborators Param ObjectData}
    (provider : option (Provider Param ObjectData)) (ops : list Operation)
    (t : Transaction) (b : Z) (p : list SuiObjectRef) :
  OpSetGasBudget b ∈ ops ->
  OpSetGasPayment p ∈ ops ->
  let outcome := fst (fst (runBuild provider (performAll ops t))) in
  outcome <> Err MissingGasBudget /\ outcome <> Err MissingGasPayment.
Proof.
  intros Hb Hp outcome. subst outcome.
  rewrite build_after_validation.
  pose proof (performAll_budget ops t (or_intror (ex_intro _ b Hb))) as Hbudget.
  pose proof (performAll_payment ops t (or_intror (ex_intro _ p Hp))) as Hpayment.
  unfold checkRequired. rewrite Hbudget. simpl.
  rewrite (bool_decide_eq_true_2 _ Hpayment). simpl.
  destruct (truthyString (sender (performAll ops t))); simpl; [|by split].
  split.
  - by apply (never_missing_after_validation MissingGasBudget).
  - by apply (never_missing_after_validation MissingGasPayment).
Qed.

Lemma budget_and_payment_stay_set_witness :
  let ops := [OpSetGasPayment []; OpInput (Unresolved (RNumber 1));
              OpSetGasBudget 0; OpSetSender "0x1"; OpSetGasPrice 1] in
  let outcome := fst (fst (runBuild (Some (Fixture.provider [])) (performAll ops newTransaction))) in
  outcome <> Err MissingGasBudget /\ outcome <> Err MissingGasPayment.
Proof.
  intros ops.
  apply (budget_and_payment_stay_set (Some (Fixture.provider [])) ops newTransaction 0 []).
  - subst ops. repeat first [apply list_elem_of_here | apply list_elem_of_further].
  - subst ops. apply list_elem_of_here.
Defined.

(** ** What the snapshot struct refuses *)

Section SnapshotStruct.

Context {Param ObjectData : Type} `{Collaborators Param ObjectData}
  `{SnapshotCollaborators}.

Lemma forallb_refused {A} (f : A -> bool) (l : list A) (a : A) :
  a ∈ l -> f a = false -> forallb f l = false.
Proof.
  intros Ha Hf. apply not_true_is_false. intros Hall.
  rewrite forallb_forall in Hall. apply list_elem_of_In in Ha.
  rewrite (Hall a Ha) in Hf. discriminate Hf.
Qed.

End SnapshotStruct.

(** X18. [serialize] gives no snapshot of a builder that the snapshot
    struct refuses: when every input has a value and an input, a command
    or a payment reference is refused by its struct, or the gas budget or
    price is no integer in text, it fails with the error of the struct. *)
Theorem serialize_validates_snapshot {Param ObjectData : Type}
    `{Collaborators Param ObjectData} `{SnapshotCollaborators} (t : Transaction) :
  (forall i, i ∈ inputs t -> truthy (value i) = true) ->
  (exists i, i ∈ inputs t /\ isTransactionInput i = false)
  \/ (exists c, c ∈ commands t /\ isTransactionCommand c = false)
  \/ (exists refs r, payment (gasConfig t) = Some refs
                     /\ r ∈ refs /\ isSuiObjectRef r = false)
  \/ gasStringsOk (gasConfig t) = false ->
  serialize t = Err StructError.
Proof.
  intros Hall Hrefused. rewrite serialize_cases. simpl.
  assert (Eall : forallb (fun i => truthy (value i)) (inputs t) = true).
  { apply forallb_forall. intros i Hi. apply Hall. by apply list_elem_of_In. }
  rewrite Eall. simpl.
  assert (Eis : isSerializedTransactionBuilder
                  {| snapshot_version := 1;
                     snapshot_sender := None;
                     snapshot_expiration := ExpirationUndefined;
                     snapshot_inputs := inputs t;
                     snapshot_commands := commands t;
                     snapshot_gasConfig := gasConfig t |} = false).
  { unfold isSerializedTransactionBuilder, isGasConfig. simpl.
    destruct Hrefused as [(i & Hi & Hf) | [(c & Hc & Hf) | [(refs & r & Hp & Hr & Hf) | Hg]]].
    - by rewrite (forallb_refused _ _ i Hi Hf).
    - rewrite (forallb_refused _ _ c Hc Hf). apply andb_false_iff. left.
      apply andb_false_r.
    - rewrite Hp, (forallb_refused _ _ r Hr Hf). rewrite !andb_false_r. reflexivity.
    - rewrite Hg. apply andb_false_r. }
  by rewrite Eis.
Qed.

Lemma serialize_validates_snapshot_witness :
  serialize (snd (add (Command "Unknown" []) Fixture.funded)) = Err StructError.
Proof.
  apply serialize_validates_snapshot.
  - intros i Hi. by apply elem_of_nil in Hi.
  - right. left. exists (Command "Unknown" []). split; [apply list_elem_of_here | reflexivity].
Defined.

(** X19. [from] returns a builder only for the text of a JSON object
    whose [version] is the number 1 and that has no key but the six of
    the snapshot struct; the text of any other JSON value, and an object
    of another version, is refused. *)
Theorem from_refuses_other_versions {Param ObjectData : Type}
    `{Collaborators Param ObjectData} `{SnapshotCollaborators}
    (j : Json) (t : Transaction) :
  from (SerializedJSON j) = Ok t ->
  exists fields,
    j = JObject fields
    /\ getField "version" fields = Some (JNumber 1)
    /\ knownKeys ["version"; "sender"; "expiration"; "inputs"; "commands"; "gasConfig"]
         fields = true.
Proof.
  unfold from, assertSerializedTransactionBuilder, asSerializedTransactionBuilder.
  destruct j as [| | | | |fields]; try discriminate.
  destruct (knownKeys _ fields) eqn:Ek; [|discriminate].
  destruct (getField "version" fields) as [[| |n| | |]|] eqn:Ev; try discriminate.
  destruct (n =? 1)%Z eqn:En; [|discriminate].
  apply Z.eqb_eq in En as ->. intros _. by exists fields.
Qed.

Lemma from_refuses_other_versions_witness :
  let snapshot version :=
    SerializedJSON (JObject [("version", JNumber version); ("inputs", JArray []);
                             ("commands", JArray []); ("gasConfig", JObject [])]) in
  from (snapshot 1%Z) = Ok newTransaction
  /\ from (snapshot 2%Z) = Err StructError
  /\ exists fields,
       JObject [("version", JNumber 1); ("inputs", JArray []);
                ("commands", JArray []); ("gasConfig", JObject [])] = JObject fields
       /\ getField "version" fields = Some (JNumber 1)
       /\ knownKeys ["version"; "sender"; "expiration"; "inputs"; "commands"; "gasConfig"]
            fields = true.
Proof.
  intros snapshot. split; [reflexivity | split; [reflexivity|]].
  apply (from_refuses_other_versions _ newTransaction). reflexivity.
Defined.
